(** * RIZBOT-VIBRASI: the live voice session and the vibration analyzer

    A shallow embedding of the two React components that carry state:

    - [LiveMaintenance] (src/LiveMaintenance.tsx): the microphone capture
      pipeline, the gapless playback cursor and the session life cycle;
    - [VibrationAnalyzer] (src/VibrationAnalyzer.tsx): image slots, the
      automatic view switch, the analysis action and the feedback log.

    Both components are event driven.  Every handler of the source is a
    function on an explicit state; an [await] splits a handler in the part
    that runs before it and the part that runs when the promise settles, and
    the two parts are separate events, so that other events may come in
    between.  Browser objects (audio contexts, media streams, audio nodes,
    remote sessions) live in a store and the component's refs hold indices
    into it: overwriting a ref does not make the object go away.

    A JavaScript number is kept as the rational it denotes.  The sums and
    differences of the playback schedule are rounded as binary64 arithmetic
    rounds them ([Double]); the geometry of the visualizer is computed
    exactly.

    Two further parts have no browser objects behind them:

    - [Markup]: the line-by-line rendering of text, [renderFormattedText] of
      the analyzer and [MessageRenderer] of the application, over strings of
      UTF-16 code units;
    - [App] (src/App.tsx): navigation, the chat and the fast consultation. *)

From Stdlib Require Import QArith Qminmax Lqa Qround Qpower Qabs.
From Stdlib Require PrimFloat FloatOps SpecFloat.
From stdpp Require Import base list gmap strings.

(** * JavaScript numbers

    A number of the program is an IEEE 754 binary64 value.  The finite ones
    are rationals, and the model keeps a number as the rational it denotes.
    Comparison and [Math.max] of finite numbers are exact; every addition and
    subtraction is rounded to the nearest number, ties to the even
    significand.  [Infinity] and [NaN] have no rational: a sum beyond the
    largest finite number is outside the model, as is a clock that reads
    [NaN]. *)

Module Double.

Definition pow2 (k : Z) : Q := (2 ^ k)%Q.

(** The largest [k] with [pow2 k <= x], for [0 < x]. *)
Definition ilog2 (x : Q) : Z :=
  let k := (Z.log2 (Qnum x) - Z.log2 (Zpos (Qden x)))%Z in
  if Qle_bool (pow2 k) x then k else (k - 1)%Z.

(** Rounding to the nearest integer, ties to even. *)
Definition rne (q : Q) : Z :=
  let f := Qfloor q in
  match (q - inject_Z f ?= 1 # 2)%Q with
  | Lt => f
  | Gt => (f + 1)%Z
  | Eq => if Z.even f then f else (f + 1)%Z
  end.

(** The exponent of the unit in the last place of the numbers around [x]:
    53 bits of significand, and no exponent below that of the subnormal
    numbers. *)
Definition ulpExp (x : Q) : Z := Z.max (ilog2 x - 52) (-1074).

Definition roundPos (x : Q) : Q :=
  (inject_Z (rne (x / pow2 (ulpExp x))) * pow2 (ulpExp x))%Q.

(** The number nearest to [x], in lowest terms. *)
Definition fl (x : Q) : Q :=
  Qred match (x ?= 0)%Q with
       | Eq => 0
       | Gt => roundPos x
       | Lt => - roundPos (- x)
       end.

(** [a + b] and [a - b] of the program. *)
Definition add (a b : Q) : Q := fl (a + b).
Definition sub (a b : Q) : Q := fl (a - b).

(** [x] is a number. *)
Definition double (x : Q) : Prop := fl x = x.

(** The literal [0.1]. *)
Definition tenth : Q := Eval vm_compute in fl (1 # 10).

(** How far a rounding of [x] can be from [x]: half a unit in the last
    place. *)
Definition slack (x : Q) : Q := ((x * pow2 (-52) + pow2 (-1074)) * (1 # 2))%Q.

#[global] Arguments fl : simpl never.
#[global] Arguments add : simpl never.
#[global] Arguments sub : simpl never.

End Double.

(** * The kernel's binary64 numbers, to compare [Double.fl] with *)

Module Binary64.
Import PrimFloat.

(** The value of a finite binary64 number of the kernel. *)
Definition valueOf (f : float) : Q :=
  match FloatOps.Prim2SF f with
  | SpecFloat.S754_finite sign m e =>
      let v := (inject_Z (Zpos m) * Double.pow2 e)%Q in
      Qred (if sign then - v else v)%Q
  | _ => 0%Q
  end.

(** Pairs of finite numbers on which [fl] is compared with the addition and
    the subtraction of the kernel: the values of the scheduling scenario,
    ties, subnormal numbers, large and negative numbers. *)
Definition samples : list (float * float) :=
  [ (0x1.999999999999ap-4, 0x1p-1); (0x1.3333333333333p-1, 0x1.3333333333333p-2);
    (0x1.999999999999ap-4, 0x1.999999999999ap-1); (0x1.5d867c3ece2a5p-7, 0x1p-1);
    (0x1.147ae147ae148p-1, 0x1.999999999999ap-4); (0x1.199999999999ap+0, 0x1.999999999999ap-4);
    (0x1p+53, 0x1p+0); (0x1.fffffffffffffp+52, 0x1p-1); (0x1p-1074, 0x1p-1074);
    (0x1.8p-1073, 0x1p-1022); (0x1.fffffffffffffp-1023, 0x1p-1074);
    (0x1.2p+200, 0x1.7p+148); (-0x1.4p+2, 0x1.999999999999ap-4);
    (0x1.921fb54442d18p+1, -0x1.5bf0a8b145769p+1); (0x0p+0, 0x1.999999999999ap-4) ]%float.

(** The literal [0.1] as the kernel reads it. *)
Definition tenthLiteral : float := 0x1.999999999999ap-4%float.

(** The scheduling scenario in the kernel's arithmetic: the clock after one
    render quantum of 128 frames at 24 kHz, a chunk of 12000 frames started
    there, and the cursor after a second chunk of 7200 frames. *)
Definition quantumClock : float := (128 / 24000)%float.
Definition secondStart : float := (quantumClock + 12000 / 24000)%float.
Definition lastCursor : float := (secondStart + 7200 / 24000)%float.

Definition agrees (p : float * float) : bool :=
  let '(a, b) := p in
  Qeq_bool (Double.add (valueOf a) (valueOf b)) (valueOf ((a + b)%float))
  && Qeq_bool (Double.sub (valueOf a) (valueOf b)) (valueOf ((a - b)%float))
  && Qeq_bool (Double.fl (valueOf a)) (valueOf a).

End Binary64.

(** * The live voice session *)

Module LiveMaintenance.

(** ** Browser objects *)

(** [AudioContext.state]; the source never suspends a context. *)
Inductive ContextState := running | closed.

Record AudioContext := {
  sampleRate : Z;
  state : ContextState
}.

(** [MediaStreamTrack.readyState] *)
Inductive TrackState := live | ended.

(** A [MediaStream] is seen through [getTracks()]. *)
Definition MediaStream := list TrackState.

(** The audio nodes the component creates.  A [MediaStreamSource] reads the
    stream it was created from; a [ScriptProcessor] carries the
    [onaudioprocess] closure, which captured the [sessionPromise] of the
    [connect] call it was created under. *)
Inductive NodeKind :=
| MediaStreamSource (stream : nat)
| Analyser
| ScriptProcessor (session : nat)
| Gain
| BufferSource.

(** Where an output of a node is connected to. *)
Inductive Dest :=
| ToNode (n : nat)
| ToDestination.

Record AudioNode := {
  kind : NodeKind;
  context : nat;
  outputs : list Dest
}.

(** A remote session as created by [client.connect]: what its callbacks
    captured ([stream] and [outputNode] of that [startSession] run) and
    whether [close()] has been requested through the session promise. *)
Record Session := {
  capturedStream : nat;
  capturedOutputNode : nat;
  closeRequested : bool
}.

(** A run of [onmessage] suspended at [await decodeAudioData(..)]: [ctx] and
    [outputNode] are the values the handler already holds, [thenInterrupted]
    is [serverContent.interrupted] of the message, read after the await. *)
Record Decode := {
  waiting : bool;
  ctx : nat;
  outputNode : nat;
  thenInterrupted : bool
}.

(** One call [source.start(t)] of a buffer source with its buffer. *)
Record Playback := {
  sourceNode : nat;
  playCtx : nat;
  startAt : Q;
  duration : Q
}.

(** ** State *)

(** React state and refs of the component. *)
Record Hooks := {
  connected : bool;
  isTalking : bool;
  inputContextRef : option nat;
  outputContextRef : option nat;
  streamRef : option nat;
  processorRef : option nat;
  sourceRef : option nat;
  nextStartTimeRef : Q;
  sessionRef : option nat;
  analyserRef : option nat;
  animationFrameRef : option nat
}.

(** The browser side: the object store, the pending promises and callbacks,
    and what the component has emitted. *)
Record Browser := {
  contexts : list AudioContext;
  streams : list MediaStream;
  nodes : list AudioNode;
  sessions : list Session;
  (** [getUserMedia] promises; [true] while pending *)
  micRequests : list bool;
  decodes : list Decode;
  (** ids of the animation frame callbacks that are requested and not
      yet run or cancelled; [nextFrame] is the next id handed out *)
  frames : list nat;
  nextFrame : nat;
  alerts : list string;
  (** [sendRealtimeInput] calls: session and captured samples *)
  sent : list (nat * list Q);
  started : list Playback
}.

Record State := {
  hooks : Hooks;
  browser : Browser
}.

Definition initialHooks : Hooks := {|
  connected := false; isTalking := false;
  inputContextRef := None; outputContextRef := None; streamRef := None;
  processorRef := None; sourceRef := None; nextStartTimeRef := 0%Q;
  sessionRef := None; analyserRef := None; animationFrameRef := None
|}.

(** [requestAnimationFrame] hands out non-zero ids. *)
Definition initialBrowser : Browser := {|
  contexts := []; streams := []; nodes := []; sessions := [];
  micRequests := []; decodes := []; frames := []; nextFrame := 1;
  alerts := []; sent := []; started := []
|}.

Definition initial : State := {| hooks := initialHooks; browser := initialBrowser |}.

(** *** Field updates *)

Definition mapHooks (f : Hooks → Hooks) (s : State) : State :=
  {| hooks := f (hooks s); browser := browser s |}.

Definition mapBrowser (f : Browser → Browser) (s : State) : State :=
  {| hooks := hooks s; browser := f (browser s) |}.

Definition setConnected (v : bool) : State → State := mapHooks (λ h,
  {| connected := v; isTalking := isTalking h;
     inputContextRef := inputContextRef h; outputContextRef := outputContextRef h;
     streamRef := streamRef h; processorRef := processorRef h;
     sourceRef := sourceRef h; nextStartTimeRef := nextStartTimeRef h;
     sessionRef := sessionRef h; analyserRef := analyserRef h;
     animationFrameRef := animationFrameRef h |}).

Definition setIsTalking (v : bool) : State → State := mapHooks (λ h,
  {| connected := connected h; isTalking := v;
     inputContextRef := inputContextRef h; outputContextRef := outputContextRef h;
     streamRef := streamRef h; processorRef := processorRef h;
     sourceRef := sourceRef h; nextStartTimeRef := nextStartTimeRef h;
     sessionRef := sessionRef h; analyserRef := analyserRef h;
     animationFrameRef := animationFrameRef h |}).

Definition setInputContextRef (v : option nat) : State → State := mapHooks (λ h,
  {| connected := connected h; isTalking := isTalking h;
     inputContextRef := v; outputContextRef := outputContextRef h;
     streamRef := streamRef h; processorRef := processorRef h;
     sourceRef := sourceRef h; nextStartTimeRef := nextStartTimeRef h;
     sessionRef := sessionRef h; analyserRef := analyserRef h;
     animationFrameRef := animationFrameRef h |}).

Definition setOutputContextRef (v : option nat) : State → State := mapHooks (λ h,
  {| connected := connected h; isTalking := isTalking h;
     inputContextRef := inputContextRef h; outputContextRef := v;
     streamRef := streamRef h; processorRef := processorRef h;
     sourceRef := sourceRef h; nextStartTimeRef := nextStartTimeRef h;
     sessionRef := sessionRef h; analyserRef := analyserRef h;
     animationFrameRef := animationFrameRef h |}).

Definition setStreamRef (v : option nat) : State → State := mapHooks (λ h,
  {| connected := connected h; isTalking := isTalking h;
     inputContextRef := inputContextRef h; outputContextRef := outputContextRef h;
     streamRef := v; processorRef := processorRef h;
     sourceRef := sourceRef h; nextStartTimeRef := nextStartTimeRef h;
     sessionRef := sessionRef h; analyserRef := analyserRef h;
     animationFrameRef := animationFrameRef h |}).

Definition setProcessorRef (v : option nat) : State → State := mapHooks (λ h,
  {| connected := connected h; isTalking := isTalking h;
     inputContextRef := inputContextRef h; outputContextRef := outputContextRef h;
     streamRef := streamRef h; processorRef := v;
     sourceRef := sourceRef h; nextStartTimeRef := nextStartTimeRef h;
     sessionRef := sessionRef h; analyserRef := analyserRef h;
     animationFrameRef := animationFrameRef h |}).

Definition setSourceRef (v : option nat) : State → State := mapHooks (λ h,
  {| connected := connected h; isTalking := isTalking h;
     inputContextRef := inputContextRef h; outputContextRef := outputContextRef h;
     streamRef := streamRef h; processorRef := processorRef h;
     sourceRef := v; nextStartTimeRef := nextStartTimeRef h;
     sessionRef := sessionRef h; analyserRef := analyserRef h;
     animationFrameRef := animationFrameRef h |}).

Definition setNextStartTimeRef (v : Q) : State → State := mapHooks (λ h,
  {| connected := connected h; isTalking := isTalking h;
     inputContextRef := inputContextRef h; outputContextRef := outputContextRef h;
     streamRef := streamRef h; processorRef := processorRef h;
     sourceRef := sourceRef h; nextStartTimeRef := v;
     sessionRef := sessionRef h; analyserRef := analyserRef h;
     animationFrameRef := animationFrameRef h |}).

Definition setSessionRef (v : option nat) : State → State := mapHooks (λ h,
  {| connected := connected h; isTalking := isTalking h;
     inputContextRef := inputContextRef h; outputContextRef := outputContextRef h;
     streamRef := streamRef h; processorRef := processorRef h;
     sourceRef := sourceRef h; nextStartTimeRef := nextStartTimeRef h;
     sessionRef := v; analyserRef := analyserRef h;
     animationFrameRef := animationFrameRef h |}).

Definition setAnalyserRef (v : option nat) : State → State := mapHooks (λ h,
  {| connected := connected h; isTalking := isTalking h;
     inputContextRef := inputContextRef h; outputContextRef := outputContextRef h;
     streamRef := streamRef h; processorRef := processorRef h;
     sourceRef := sourceRef h; nextStartTimeRef := nextStartTimeRef h;
     sessionRef := sessionRef h; analyserRef := v;
     animationFrameRef := animationFrameRef h |}).

Definition setAnimationFrameRef (v : option nat) : State → State := mapHooks (λ h,
  {| connected := connected h; isTalking := isTalking h;
     inputContextRef := inputContextRef h; outputContextRef := outputContextRef h;
     streamRef := streamRef h; processorRef := processorRef h;
     sourceRef := sourceRef h; nextStartTimeRef := nextStartTimeRef h;
     sessionRef := sessionRef h; analyserRef := analyserRef h;
     animationFrameRef := v |}).

Definition mapContexts (f : list AudioContext → list AudioContext) : State → State :=
  mapBrowser (λ b,
  {| contexts := f (contexts b); streams := streams b; nodes := nodes b;
     sessions := sessions b; micRequests := micRequests b; decodes := decodes b;
     frames := frames b; nextFrame := nextFrame b; alerts := alerts b;
     sent := sent b; started := started b |}).

Definition mapStreams (f : list MediaStream → list MediaStream) : State → State :=
  mapBrowser (λ b,
  {| contexts := contexts b; streams := f (streams b); nodes := nodes b;
     sessions := sessions b; micRequests := micRequests b; decodes := decodes b;
     frames := frames b; nextFrame := nextFrame b; alerts := alerts b;
     sent := sent b; started := started b |}).

Definition mapNodes (f : list AudioNode → list AudioNode) : State → State :=
  mapBrowser (λ b,
  {| contexts := contexts b; streams := streams b; nodes := f (nodes b);
     sessions := sessions b; micRequests := micRequests b; decodes := decodes b;
     frames := frames b; nextFrame := nextFrame b; alerts := alerts b;
     sent := sent b; started := started b |}).

Definition mapSessions (f : list Session → list Session) : State → State :=
  mapBrowser (λ b,
  {| contexts := contexts b; streams := streams b; nodes := nodes b;
     sessions := f (sessions b); micRequests := micRequests b; decodes := decodes b;
     frames := frames b; nextFrame := nextFrame b; alerts := alerts b;
     sent := sent b; started := started b |}).

Definition mapMicRequests (f : list bool → list bool) : State → State :=
  mapBrowser (λ b,
  {| contexts := contexts b; streams := streams b; nodes := nodes b;
     sessions := sessions b; micRequests := f (micRequests b); decodes := decodes b;
     frames := frames b; nextFrame := nextFrame b; alerts := alerts b;
     sent := sent b; started := started b |}).

Definition mapDecodes (f : list Decode → list Decode) : State → State :=
  mapBrowser (λ b,
  {| contexts := contexts b; streams := streams b; nodes := nodes b;
     sessions := sessions b; micRequests := micRequests b; decodes := f (decodes b);
     frames := frames b; nextFrame := nextFrame b; alerts := alerts b;
     sent := sent b; started := started b |}).

Definition mapFrames (f : list nat → list nat) : State → State :=
  mapBrowser (λ b,
  {| contexts := contexts b; streams := streams b; nodes := nodes b;
     sessions := sessions b; micRequests := micRequests b; decodes := decodes b;
     frames := f (frames b); nextFrame := nextFrame b; alerts := alerts b;
     sent := sent b; started := started b |}).

Definition setNextFrame (v : nat) : State → State :=
  mapBrowser (λ b,
  {| contexts := contexts b; streams := streams b; nodes := nodes b;
     sessions := sessions b; micRequests := micRequests b; decodes := decodes b;
     frames := frames b; nextFrame := v; alerts := alerts b;
     sent := sent b; started := started b |}).

Definition mapAlerts (f : list string → list string) : State → State :=
  mapBrowser (λ b,
  {| contexts := contexts b; streams := streams b; nodes := nodes b;
     sessions := sessions b; micRequests := micRequests b; decodes := decodes b;
     frames := frames b; nextFrame := nextFrame b; alerts := f (alerts b);
     sent := sent b; started := started b |}).

Definition mapSent (f : list (nat * list Q) → list (nat * list Q)) : State → State :=
  mapBrowser (λ b,
  {| contexts := contexts b; streams := streams b; nodes := nodes b;
     sessions := sessions b; micRequests := micRequests b; decodes := decodes b;
     frames := frames b; nextFrame := nextFrame b; alerts := alerts b;
     sent := f (sent b); started := started b |}).

Definition mapStarted (f : list Playback → list Playback) : State → State :=
  mapBrowser (λ b,
  {| contexts := contexts b; streams := streams b; nodes := nodes b;
     sessions := sessions b; micRequests := micRequests b; decodes := decodes b;
     frames := frames b; nextFrame := nextFrame b; alerts := alerts b;
     sent := sent b; started := f (started b) |}).

(** ** Browser primitives *)

(** [new AudioContext({ sampleRate })] *)
Definition newAudioContext (rate : Z) (s : State) : nat * State :=
  (length (contexts (browser s)),
   mapContexts (λ l, l ++ [{| sampleRate := rate; state := running |}]) s).

(** [AudioContext.close()]: a closed context stays closed (the promise the
    call returns is dropped by the source). *)
Definition close (c : nat) : State → State :=
  mapContexts (alter (λ a, {| sampleRate := sampleRate a; state := closed |}) c).

(** [ctx.createX(..)]: a fresh node without connections. *)
Definition createNode (k : NodeKind) (c : nat) (s : State) : nat * State :=
  (length (nodes (browser s)),
   mapNodes (λ l, l ++ [{| kind := k; context := c; outputs := [] |}]) s).

(** [node.connect(d)] *)
Definition connect (n : nat) (d : Dest) : State → State :=
  mapNodes (alter (λ a,
    {| kind := kind a; context := context a; outputs := outputs a ++ [d] |}) n).

(** [node.disconnect()]: drops every outgoing connection of the node. *)
Definition disconnect (n : nat) : State → State :=
  mapNodes (alter (λ a,
    {| kind := kind a; context := context a; outputs := [] |}) n).

(** [stream.getTracks().forEach(t => t.stop())] *)
Definition stopTracks (st : nat) : State → State :=
  mapStreams (alter (fmap (λ _, ended)) st).

Definition requestAnimationFrame (s : State) : nat * State :=
  let id := nextFrame (browser s) in
  (id, setNextFrame (S id) (mapFrames (λ l, l ++ [id]) s)).

Definition cancelAnimationFrame (id : nat) : State → State :=
  mapFrames (filter (λ j, j ≠ id)).

Definition alert (msg : string) : State → State :=
  mapAlerts (λ l, l ++ [msg]).

(** ** The handlers of the component *)

(** The inner [render] of [drawVisualizer]; the drawing itself leaves no
    trace in the state. *)
Definition render (s : State) : State :=
  match analyserRef (hooks s) with
  | None => s
  | Some _ =>
      let '(id, s) := requestAnimationFrame s in
      setAnimationFrameRef (Some id) s
  end.

(** [canvas] tells whether [canvasRef.current] is attached and gives a 2d
    context at the time of the call; the canvas is rendered by React only
    once [connected] is committed, which the handler does not control. *)
Definition drawVisualizer (canvas : bool) (s : State) : State :=
  if negb canvas || negb (bool_decide (is_Some (analyserRef (hooks s)))) then s
  else render s.

(** [startSession] up to [await navigator.mediaDevices.getUserMedia(..)]. *)
Definition startSession (s : State) : State :=
  let '(ic, s) := newAudioContext 16000 s in
  let s := setInputContextRef (Some ic) s in
  let '(oc, s) := newAudioContext 24000 s in
  let s := setOutputContextRef (Some oc) s in
  mapMicRequests (λ l, l ++ [true]) s.

(** The [catch] block of [startSession]. *)
Definition startSession_catch (s : State) : State :=
  alert "Microphone access required for Live Monitor." s.

(** [startSession] after the microphone promise is fulfilled with a stream of
    [tracks] live tracks. *)
Definition startSession_granted (tracks : nat) (s : State) : State :=
  let st := length (streams (browser s)) in
  let s := mapStreams (λ l, l ++ [replicate tracks live]) s in
  let s := setStreamRef (Some st) s in
  match outputContextRef (hooks s) with
  | None => startSession_catch s
  | Some oc =>
      let '(g, s) := createNode Gain oc s in
      let s := connect g ToDestination s in
      let sid := length (sessions (browser s)) in
      let s := mapSessions (λ l, l ++
        [{| capturedStream := st; capturedOutputNode := g;
            closeRequested := false |}]) s in
      setSessionRef (Some sid) s
  end.

(** [processor.onaudioprocess]: the samples go to the session whose promise
    the closure captured. *)
Definition onaudioprocess (sid : nat) (samples : list Q) : State → State :=
  mapSent (λ l, l ++ [(sid, samples)]).

(** The [onopen] callback of session [sid]. *)
Definition onopen (sid : nat) (sess : Session) (canvas : bool) (s : State) : State :=
  let s := setConnected true s in
  match inputContextRef (hooks s) with
  | None => s
  | Some ic =>
      let '(source, s) := createNode (MediaStreamSource (capturedStream sess)) ic s in
      let '(analyser, s) := createNode Analyser ic s in
      let s := setAnalyserRef (Some analyser) s in
      let '(processor, s) := createNode (ScriptProcessor sid) ic s in
      let s := connect source (ToNode analyser) s in
      let s := connect analyser (ToNode processor) s in
      let s := connect processor ToDestination s in
      let s := setSourceRef (Some source) s in
      let s := setProcessorRef (Some processor) s in
      drawVisualizer canvas s
  end.

(** A [LiveServerMessage] as far as the handler looks at it:
    [serverContent?.modelTurn?.parts?.[0]?.inlineData] (its base64 data when
    present) and [serverContent?.interrupted]. *)
Record Message := {
  inlineData : option string;
  interrupted : bool
}.

(** The trailing [if (serverContent?.interrupted)] of [onmessage]. *)
Definition onmessage_interrupted (i : bool) (s : State) : State :=
  if i then setNextStartTimeRef 0%Q (setIsTalking false s) else s.

(** [onmessage] up to [await decodeAudioData(..)], or to its end when the
    message carries no audio or there is no output context. *)
Definition onmessage (sess : Session) (msg : Message) (s : State) : State :=
  match inlineData msg with
  | Some _ =>
      let s := setIsTalking true s in
      match outputContextRef (hooks s) with
      | Some c =>
          mapDecodes (λ l, l ++
            [{| waiting := true; ctx := c;
                outputNode := capturedOutputNode sess;
                thenInterrupted := interrupted msg |}]) s
      | None => onmessage_interrupted (interrupted msg) s
      end
  | None => onmessage_interrupted (interrupted msg) s
  end.

(** [onmessage] after the await: the decoded buffer lasts [dur] and
    [ctx.currentTime] reads [now].  [Math.max] is exact, [+=] rounds. *)
Definition onmessage_decoded (d : Decode) (dur now : Q) (s : State) : State :=
  let s := setNextStartTimeRef (Qmax (nextStartTimeRef (hooks s)) now) s in
  let '(source, s) := createNode BufferSource (ctx d) s in
  let s := connect source (ToNode (outputNode d)) s in
  let s := mapStarted (λ l, l ++
    [{| sourceNode := source; playCtx := ctx d;
        startAt := nextStartTimeRef (hooks s); duration := dur |}]) s in
  let s := setNextStartTimeRef (Double.add (nextStartTimeRef (hooks s)) dur) s in
  onmessage_interrupted (thenInterrupted d) s.

(** [source.onended], with [ctx.currentTime] reading [now]. *)
Definition onended (now : Q) (s : State) : State :=
  if Qle_bool (Double.sub (nextStartTimeRef (hooks s)) Double.tenth) now
  then setIsTalking false s else s.

(** [if (animationFrameRef.current) cancelAnimationFrame(..)]; the number 0
    is falsy. *)
Definition cancelPendingFrame (s : State) : State :=
  match animationFrameRef (hooks s) with
  | Some (S n) => cancelAnimationFrame (S n) s
  | _ => s
  end.

Definition onclose (s : State) : State :=
  let s := setConnected false s in
  cancelPendingFrame s.

Definition onerror (s : State) : State :=
  let s := setConnected false s in
  cancelPendingFrame s.

(** [if (ref.current) f(ref.current)] *)
Definition whenSet (r : option nat) (f : nat → State → State) (s : State) : State :=
  match r with
  | Some x => f x s
  | None => s
  end.

(** [sessionRef.current.then(s => s.close && s.close())] *)
Definition requestClose (sid : nat) : State → State :=
  mapSessions (alter (λ a,
    {| capturedStream := capturedStream a;
       capturedOutputNode := capturedOutputNode a;
       closeRequested := true |}) sid).

Definition stopSession (s : State) : State :=
  let s := whenSet (streamRef (hooks s)) stopTracks s in
  let s := whenSet (processorRef (hooks s)) disconnect s in
  let s := whenSet (sourceRef (hooks s)) disconnect s in
  let s := whenSet (analyserRef (hooks s)) disconnect s in
  let s := whenSet (inputContextRef (hooks s)) close s in
  let s := whenSet (outputContextRef (hooks s)) close s in
  let s := cancelPendingFrame s in
  let s := whenSet (sessionRef (hooks s)) requestClose s in
  let s := setConnected false s in
  setIsTalking false s.

(** ** Events *)

(** What can happen to a mounted component.  An event that names an object
    that does not exist, or a promise that is not pending, finds no handler
    and changes nothing. *)
Inductive Event :=
| Click                                   (* the button: connected ? stop : start *)
| Unmount                                 (* the effect cleanup *)
| MicGranted (r : nat) (tracks : nat)     (* getUserMedia fulfilled *)
| MicDenied (r : nat)                     (* getUserMedia rejected *)
| OnOpen (sid : nat) (canvas : bool)
| AudioProcess (n : nat) (samples : list Q)
| OnMessage (sid : nat) (msg : Message)
| Decoded (k : nat) (dur now : Q)         (* decodeAudioData fulfilled *)
| DecodeFailed (k : nat)                  (* decodeAudioData rejected *)
| Ended (n : nat) (now : Q)
| OnClose (sid : nat)
| OnError (sid : nat)
| AnimationFrame (id : nat).

Definition settle (r : nat) : State → State :=
  mapMicRequests (<[r := false]>).

Definition resume (k : nat) : State → State :=
  mapDecodes (alter (λ d,
    {| waiting := false; ctx := ctx d; outputNode := outputNode d;
       thenInterrupted := thenInterrupted d |}) k).

Definition step (s : State) (e : Event) : State :=
  match e with
  | Click => if connected (hooks s) then stopSession s else startSession s
  | Unmount => stopSession s
  | MicGranted r tracks =>
      match micRequests (browser s) !! r with
      | Some true => startSession_granted tracks (settle r s)
      | _ => s
      end
  | MicDenied r =>
      match micRequests (browser s) !! r with
      | Some true => startSession_catch (settle r s)
      | _ => s
      end
  | OnOpen sid canvas =>
      match sessions (browser s) !! sid with
      | Some sess => onopen sid sess canvas s
      | None => s
      end
  | AudioProcess n samples =>
      match kind <$> nodes (browser s) !! n with
      | Some (ScriptProcessor sid) => onaudioprocess sid samples s
      | _ => s
      end
  | OnMessage sid msg =>
      match sessions (browser s) !! sid with
      | Some sess => onmessage sess msg s
      | None => s
      end
  | Decoded k dur now =>
      match decodes (browser s) !! k with
      | Some d => if waiting d then onmessage_decoded d dur now (resume k s) else s
      | None => s
      end
  | DecodeFailed k => resume k s
  | Ended n now =>
      if bool_decide (n ∈ sourceNode <$> started (browser s)) then onended now s
      else s
  | OnClose sid =>
      match sessions (browser s) !! sid with
      | Some _ => onclose s
      | None => s
      end
  | OnError sid =>
      match sessions (browser s) !! sid with
      | Some _ => onerror s
      | None => s
      end
  | AnimationFrame id =>
      if bool_decide (id ∈ frames (browser s))
      then render (cancelAnimationFrame id s) else s
  end.

Definition run (s : State) (tr : list Event) : State := fold_left step tr s.

(** ** The playback cursor *)

Definition cursor (s : State) : Q := nextStartTimeRef (hooks s).

Definition playbacks (s : State) : list Playback := started (browser s).





(** Events of a stretch without barge-in: no message carries [interrupted],
    and decoded buffers have a duration that is not negative. *)
Definition calm (e : Event) : Prop :=
  match e with
  | OnMessage _ msg => interrupted msg = false
  | Decoded _ dur _ => (0 <= dur)%Q
  | _ => True
  end.



(** ** Reading the teardown

    [keeps φ f]: the handler [f] leaves the observation [φ] of the state as
    it was.  Handlers are compositions of primitives, so what they keep
    follows from what the primitives keep. *)
Definition keeps {A} (φ : State → A) (f : State → State) : Prop :=
  ∀ s, φ (f s) = φ s.

(** [stopSession] with the refs it reads given beforehand: no step of the
    teardown writes a ref, so they can be read once at the start. *)
Definition teardown (h : Hooks) (s : State) : State :=
  let s := whenSet (streamRef h) stopTracks s in
  let s := whenSet (processorRef h) disconnect s in
  let s := whenSet (sourceRef h) disconnect s in
  let s := whenSet (analyserRef h) disconnect s in
  let s := whenSet (inputContextRef h) close s in
  let s := whenSet (outputContextRef h) close s in
  let s := match animationFrameRef h with
           | Some (S n) => cancelAnimationFrame (S n) s
           | _ => s
           end in
  let s := whenSet (sessionRef h) requestClose s in
  let s := setConnected false s in
  setIsTalking false s.

(** [if (r) l[r] = g(l[r])] on a list of the store. *)
Definition alterAt {A} (g : A → A) (r : option nat) (l : list A) : list A :=
  match r with
  | Some x => alter g x l
  | None => l
  end.

Definition closedContext (a : AudioContext) : AudioContext :=
  {| sampleRate := sampleRate a; state := closed |}.

Definition disconnected (a : AudioNode) : AudioNode :=
  {| kind := kind a; context := context a; outputs := [] |}.

Definition closing (a : Session) : Session :=
  {| capturedStream := capturedStream a;
     capturedOutputNode := capturedOutputNode a;
     closeRequested := true |}.

(** The browser after the teardown, field by field. *)
Definition tornDown (h : Hooks) (b : Browser) : Browser :=
  {| contexts := alterAt closedContext (outputContextRef h)
                   (alterAt closedContext (inputContextRef h) (contexts b));
     streams := alterAt (fmap (λ _, ended)) (streamRef h) (streams b);
     nodes := alterAt disconnected (analyserRef h)
                (alterAt disconnected (sourceRef h)
                   (alterAt disconnected (processorRef h) (nodes b)));
     sessions := alterAt closing (sessionRef h) (sessions b);
     micRequests := micRequests b;
     decodes := decodes b;
     frames := match animationFrameRef h with
               | Some (S n) => filter (λ j, j ≠ S n) (frames b)
               | _ => frames b
               end;
     nextFrame := nextFrame b;
     alerts := alerts b;
     sent := sent b;
     started := started b |}.

(** A session that has been started and opened, with one microphone track
    and the visualizer running. *)
Definition openSession : list Event := [Click; MicGranted 0 1; OnOpen 0 true].

(** The open session after a callback that only flips [connected] and
    cancels the animation frame: one live track, both contexts running, the
    chain source → analyser → processor → destination intact, no close
    requested. *)
Definition stillCapturing (s : State) : Prop :=
  connected (hooks s) = false
  ∧ frames (browser s) = []
  ∧ streams (browser s) = [[live]]
  ∧ state <$> contexts (browser s) = [running; running]
  ∧ outputs <$> nodes (browser s) =
      [[ToDestination]; [ToNode 2]; [ToNode 3]; [ToDestination]]
  ∧ closeRequested <$> sessions (browser s) = [false].

(** The open session after the full teardown. *)
Definition released (s : State) : Prop :=
  connected (hooks s) = false
  ∧ frames (browser s) = []
  ∧ streams (browser s) = [[ended]]
  ∧ state <$> contexts (browser s) = [closed; closed]
  ∧ outputs <$> nodes (browser s) = [[ToDestination]; []; []; []]
  ∧ closeRequested <$> sessions (browser s) = [true].

(** ** The capture pipeline *)

Definition kinds (s : State) : list NodeKind := kind <$> nodes (browser s).

(** The nodes of the capture chain, as opposed to those of the playback side
    (the gain node and the buffer sources). *)
Definition captureKind (k : NodeKind) : bool :=
  match k with
  | MediaStreamSource _ | Analyser | ScriptProcessor _ => true
  | Gain | BufferSource => false
  end.

(** Two sessions are started before either opens; then the first one opens
    and its processor (node 4) delivers a frame. *)
Definition twoSessions : list Event :=
  [Click; MicGranted 0 1; Click; MicGranted 1 1; OnOpen 0 true;
   AudioProcess 4 [(1 # 2)%Q]].

(** The component is idle: not connected, no remote session was ever
    created, no microphone request is pending. *)
Record idle (s : State) : Prop := {
  idle_connected : connected (hooks s) = false;
  idle_sessions : sessions (browser s) = [];
  idle_settled : Forall (λ b, b = false) (micRequests (browser s))
}.

(** A message that carries audio and nothing else. *)
Definition audioChunk (data : string) : Message :=
  {| inlineData := Some data; interrupted := false |}.

(** [AudioBuffer.duration] of a buffer of [frames] sample frames in the
    output context: the quotient as a JavaScript number. *)
Definition seconds (frames : Z) : Q := Double.fl (frames # 24000).

(** A session is started and opened, then two chunks arrive: the first lasts
    0.5s (12000 frames) and is decoded when the output clock reads [T], the
    second lasts 0.3s (7200 frames) and is decoded when it reads [now2]. *)
Definition twoChunks (T now2 : Q) (canvas : bool) (b1 b2 : string) : list Event :=
  [Click; MicGranted 0 1; OnOpen 0 canvas;
   OnMessage 0 (audioChunk b1); Decoded 0 (seconds 12000) T;
   OnMessage 0 (audioChunk b2); Decoded 1 (seconds 7200) now2].

(** The reading of the output clock after one render quantum of 128 sample
    frames. *)
Definition oneQuantum : Q := seconds 128.

(** Two chunks decoded back to back at the first reading of the clock. *)
Definition firstChunks : list Event :=
  twoChunks oneQuantum oneQuantum false "AAAA" "BBBB".

(** *** Barge-in *)

(** A message that only says that the model was interrupted. *)
Definition bargeIn : Message := {| inlineData := None; interrupted := true |}.

(** Chunk A arrives; the interrupted message arrives while A is still being
    decoded; A is decoded when the output clock reads 3; chunk B follows
    and is decoded at the same reading. *)
Definition interruptedWhileDecoding : list Event :=
  [Click; MicGranted 0 1; OnOpen 0 false;
   OnMessage 0 (audioChunk "AAAA");
   OnMessage 0 bargeIn;
   Decoded 0 (seconds 12000) 3;
   OnMessage 0 (audioChunk "BBBB");
   Decoded 1 (seconds 12000) 3].

(** Chunk A is played from clock reading 3 on; then a message arrives that
    carries audio and says interrupted, and its audio fails to decode; the
    next chunk is decoded while A is still playing. *)
Definition interruptedWithAudio : list Event :=
  [Click; MicGranted 0 1; OnOpen 0 false;
   OnMessage 0 (audioChunk "AAAA");
   Decoded 0 (seconds 12000) 3;
   OnMessage 0 {| inlineData := Some "BBBB"; interrupted := true |};
   DecodeFailed 1;
   OnMessage 0 (audioChunk "CCCC");
   Decoded 2 (seconds 12000) 3].

(** *** Starts that overlap *)

(** The button is clicked again before the first session has opened, so
    [startSession] runs twice; then the first session opens. *)
Definition overlappingStarts : list Event :=
  [Click; MicGranted 0 1; Click; MicGranted 1 1; OnOpen 0 false].

(** Three runs of [startSession] before the first session opens.  The canvas
    is mounted once [connected] is rendered, so the second and the third
    [onopen] find it and each starts a render loop. *)
Definition threeStarts : list Event :=
  [Click; MicGranted 0 1; Click; MicGranted 1 1; Click; MicGranted 2 1;
   OnOpen 0 false; OnOpen 1 true; OnOpen 2 true].

(** ** Further observations *)

(** Events that leave the schedule cursor alone: every event but a decoded
    chunk and a message flagged interrupted. *)
Definition quiet (e : Event) : Prop :=
  match e with
  | Decoded _ _ _ => False
  | OnMessage _ msg => interrupted msg = false
  | _ => True
  end.

(** [ctx.sampleRate] of the context stored at [c]. *)
Definition rateOf (s : State) (c : nat) : option Z :=
  sampleRate <$> contexts (browser s) !! c.

(** Capture lives in contexts of 16 kHz, playback in contexts of 24 kHz. *)
Record rated (s : State) : Prop := {
  rated_input : ∀ c, inputContextRef (hooks s) = Some c → rateOf s c = Some 16000%Z;
  rated_output : ∀ c, outputContextRef (hooks s) = Some c → rateOf s c = Some 24000%Z;
  rated_nodes : ∀ n a, nodes (browser s) !! n = Some a →
    rateOf s (context a) = Some (if captureKind (kind a) then 16000 else 24000)%Z;
  rated_decodes : ∀ k d, decodes (browser s) !! k = Some d →
    rateOf s (ctx d) = Some 24000%Z
}.

(** A session that has played one chunk of five seconds, decoded at clock
    time 1: the cursor stands at 6. *)
Definition firstSession : list Event :=
  openSession ++ [OnMessage 0 (audioChunk "AAAA"); Decoded 0 5 1].

(** The user stops that session and starts the next one, which opens and
    receives its first chunk. *)
Definition restarted : list Event :=
  [Click; Click; MicGranted 1 1; OnOpen 1 true; OnMessage 1 (audioChunk "BBBB")].

(** What kind of node it is and which context it lives in. *)
Definition placement (a : AudioNode) : NodeKind * nat := (kind a, context a).

(** *** What [render] draws *)

(** A rectangle of [ctx.fillRect(x, y, w, h)]. *)
Record Rect := {
  rectX : Q;
  rectY : Q;
  rectW : Q;
  rectH : Q
}.

(** The loop of [render] from bar position [x] on; the numbers are exact. *)
Fixpoint fillRects (height barWidth x : Q) (dataArray : list Z) : list Rect :=
  match dataArray with
  | [] => []
  | v :: rest =>
      let barHeight := (inject_Z v / (3 # 2))%Q in
      {| rectX := x; rectY := (height - barHeight)%Q; rectW := barWidth;
         rectH := barHeight |}
      :: fillRects height barWidth (x + (barWidth + 1))%Q rest
  end.

(** The bars of one frame on a canvas of [width] by [height], for the bytes
    [getByteFrequencyData] wrote to [dataArray]. *)
Definition bars (width height : Q) (dataArray : list Z) : list Rect :=
  let bufferLength := inject_Z (Z.of_nat (length dataArray)) in
  let barWidth := ((width / bufferLength) * (5 # 2))%Q in
  fillRects height barWidth 0%Q dataArray.

End LiveMaintenance.

Module VibrationAnalyzer.

(** ** Data *)

(** [Severity] of src/types.ts with its string values. *)
Inductive Severity := NORMAL | PREWARNING | WARNING | ALARM.

Definition severityValue (v : Severity) : string :=
  match v with
  | NORMAL => "Normal"
  | PREWARNING => "Prewarning"
  | WARNING => "Warning"
  | ALARM => "Alarm"
  end.

Record AnalysisResult := {
  faults : list string;
  severity : Severity;
  recommendations : list string;
  rawAnalysis : string
}.

Inductive ImageType := waveform | spectrum | historical.

(** The values of [activeView]: 'waveform', 'spectrum', 'compare'. *)
Inductive View := waveformView | spectrumView | compareView.

(** The values of [feedbackGiven] other than [null]. *)
Inductive Thumb := up | down.

Record BearingParams := {
  bpfo : string;
  bpfi : string;
  bsf : string
}.

(** JSON values. *)
#[local] Unset Elimination Schemes.
Inductive Json :=
| JNull
| JBool (b : bool)
| JNumber (q : Q)
| JString (s : string)
| JArray (items : list Json)
| JObject (fields : list (string * Json)).
#[local] Set Elimination Schemes.

(** A string kept in local storage, up to what [JSON.parse] makes of it: the
    empty string, a text that parses to a JSON value, or a text that does
    not parse. *)
Inductive Text :=
| EmptyText
| JsonText (v : Json)
| Malformed.

(** [JSON.parse]; [None] stands for the [SyntaxError] it throws. *)
Definition JSON_parse (t : Text) : option Json :=
  match t with
  | JsonText v => Some v
  | EmptyText | Malformed => None
  end.

Definition JSON_stringify (v : Json) : Text := JsonText v.

(** ** State *)

(** The [useState] cells of the component. *)
Record Component := {
  analyzing : bool;
  result : option AnalysisResult;
  isDownloading : bool;
  waveformImage : option string;
  spectrumImage : option string;
  historicalImage : option string;
  activeView : View;
  overlayOpacity : Z;
  dragActiveWaveform : bool;
  dragActiveSpectrum : bool;
  dragActiveHistorical : bool;
  feedbackGiven : option Thumb;
  equipmentName : string;
  bearingId : string;
  direction : string;
  bearingParams : BearingParams
}.

(** A call of [analyzeVibrationData] with its arguments; [pending] until the
    promise settles. *)
Record Request := {
  reqWaveform : option string;
  reqSpectrum : option string;
  reqBearing : BearingParams;
  reqEquipment : string;
  reqBearingId : string;
  reqDirection : string;
  pending : bool
}.

(** A [FileReader] started by [processFile]: the slot the data goes to, the
    data the file holds and whether [onload] is still to come. *)
Record Read := {
  target : ImageType;
  content : string;
  loading : bool
}.

Record State := {
  component : Component;
  localStorage : gmap string Text;
  alerts : list string;
  requests : list Request;
  reads : list Read
}.

Definition initialComponent : Component := {|
  analyzing := false; result := None; isDownloading := false;
  waveformImage := None; spectrumImage := None; historicalImage := None;
  activeView := spectrumView; overlayOpacity := 50;
  dragActiveWaveform := false; dragActiveSpectrum := false;
  dragActiveHistorical := false; feedbackGiven := None;
  equipmentName := ""; bearingId := ""; direction := "Horizontal";
  bearingParams := {| bpfo := ""; bpfi := ""; bsf := "" |}
|}.

Definition initial : State := {|
  component := initialComponent; localStorage := ∅; alerts := [];
  requests := []; reads := []
|}.

(** *** Field updates *)

Definition mapComponent (f : Component → Component) (s : State) : State :=
  {| component := f (component s); localStorage := localStorage s;
     alerts := alerts s; requests := requests s; reads := reads s |}.

Definition setAnalyzing (v : bool) : State → State := mapComponent (λ c,
  {| analyzing := v; result := result c; isDownloading := isDownloading c;
     waveformImage := waveformImage c; spectrumImage := spectrumImage c;
     historicalImage := historicalImage c; activeView := activeView c;
     overlayOpacity := overlayOpacity c;
     dragActiveWaveform := dragActiveWaveform c;
     dragActiveSpectrum := dragActiveSpectrum c;
     dragActiveHistorical := dragActiveHistorical c;
     feedbackGiven := feedbackGiven c; equipmentName := equipmentName c;
     bearingId := bearingId c; direction := direction c;
     bearingParams := bearingParams c |}).

Definition setResult (v : option AnalysisResult) : State → State := mapComponent (λ c,
  {| analyzing := analyzing c; result := v; isDownloading := isDownloading c;
     waveformImage := waveformImage c; spectrumImage := spectrumImage c;
     historicalImage := historicalImage c; activeView := activeView c;
     overlayOpacity := overlayOpacity c;
     dragActiveWaveform := dragActiveWaveform c;
     dragActiveSpectrum := dragActiveSpectrum c;
     dragActiveHistorical := dragActiveHistorical c;
     feedbackGiven := feedbackGiven c; equipmentName := equipmentName c;
     bearingId := bearingId c; direction := direction c;
     bearingParams := bearingParams c |}).

Definition setWaveformImage (v : option string) : State → State := mapComponent (λ c,
  {| analyzing := analyzing c; result := result c; isDownloading := isDownloading c;
     waveformImage := v; spectrumImage := spectrumImage c;
     historicalImage := historicalImage c; activeView := activeView c;
     overlayOpacity := overlayOpacity c;
     dragActiveWaveform := dragActiveWaveform c;
     dragActiveSpectrum := dragActiveSpectrum c;
     dragActiveHistorical := dragActiveHistorical c;
     feedbackGiven := feedbackGiven c; equipmentName := equipmentName c;
     bearingId := bearingId c; direction := direction c;
     bearingParams := bearingParams c |}).

Definition setSpectrumImage (v : option string) : State → State := mapComponent (λ c,
  {| analyzing := analyzing c; result := result c; isDownloading := isDownloading c;
     waveformImage := waveformImage c; spectrumImage := v;
     historicalImage := historicalImage c; activeView := activeView c;
     overlayOpacity := overlayOpacity c;
     dragActiveWaveform := dragActiveWaveform c;
     dragActiveSpectrum := dragActiveSpectrum c;
     dragActiveHistorical := dragActiveHistorical c;
     feedbackGiven := feedbackGiven c; equipmentName := equipmentName c;
     bearingId := bearingId c; direction := direction c;
     bearingParams := bearingParams c |}).

Definition setHistoricalImage (v : option string) : State → State := mapComponent (λ c,
  {| analyzing := analyzing c; result := result c; isDownloading := isDownloading c;
     waveformImage := waveformImage c; spectrumImage := spectrumImage c;
     historicalImage := v; activeView := activeView c;
     overlayOpacity := overlayOpacity c;
     dragActiveWaveform := dragActiveWaveform c;
     dragActiveSpectrum := dragActiveSpectrum c;
     dragActiveHistorical := dragActiveHistorical c;
     feedbackGiven := feedbackGiven c; equipmentName := equipmentName c;
     bearingId := bearingId c; direction := direction c;
     bearingParams := bearingParams c |}).

Definition setActiveView (v : View) : State → State := mapComponent (λ c,
  {| analyzing := analyzing c; result := result c; isDownloading := isDownloading c;
     waveformImage := waveformImage c; spectrumImage := spectrumImage c;
     historicalImage := historicalImage c; activeView := v;
     overlayOpacity := overlayOpacity c;
     dragActiveWaveform := dragActiveWaveform c;
     dragActiveSpectrum := dragActiveSpectrum c;
     dragActiveHistorical := dragActiveHistorical c;
     feedbackGiven := feedbackGiven c; equipmentName := equipmentName c;
     bearingId := bearingId c; direction := direction c;
     bearingParams := bearingParams c |}).

Definition setFeedbackGiven (v : option Thumb) : State → State := mapComponent (λ c,
  {| analyzing := analyzing c; result := result c; isDownloading := isDownloading c;
     waveformImage := waveformImage c; spectrumImage := spectrumImage c;
     historicalImage := historicalImage c; activeView := activeView c;
     overlayOpacity := overlayOpacity c;
     dragActiveWaveform := dragActiveWaveform c;
     dragActiveSpectrum := dragActiveSpectrum c;
     dragActiveHistorical := dragActiveHistorical c;
     feedbackGiven := v; equipmentName := equipmentName c;
     bearingId := bearingId c; direction := direction c;
     bearingParams := bearingParams c |}).

Definition alert (msg : string) (s : State) : State :=
  {| component := component s; localStorage := localStorage s;
     alerts := alerts s ++ [msg]; requests := requests s; reads := reads s |}.

Definition mapRequests (f : list Request → list Request) (s : State) : State :=
  {| component := component s; localStorage := localStorage s;
     alerts := alerts s; requests := f (requests s); reads := reads s |}.

Definition mapReads (f : list Read → list Read) (s : State) : State :=
  {| component := component s; localStorage := localStorage s;
     alerts := alerts s; requests := requests s; reads := f (reads s) |}.

(** [localStorage.setItem] *)
Definition setItem (key : string) (t : Text) (s : State) : State :=
  {| component := component s; localStorage := <[key := t]> (localStorage s);
     alerts := alerts s; requests := requests s; reads := reads s |}.

(** [localStorage.getItem]; [None] is [null]. *)
Definition getItem (key : string) (s : State) : option Text :=
  localStorage s !! key.

(** ** Images and the active view *)

(** Truthiness of a [string | null]: neither [null] nor the empty string. *)
Definition present (image : option string) : bool :=
  match image with
  | Some data => negb (String.eqb data "")
  | None => false
  end.

(** The body of the effect that switches the view. *)
Definition autoSwitch (s : State) : State :=
  let c := component s in
  if present (historicalImage c) && present (spectrumImage c)
  then setActiveView compareView s
  else if present (spectrumImage c) then setActiveView spectrumView s
  else if present (waveformImage c) then setActiveView waveformView s
  else s.

(** The dependency array of that effect. *)
Definition deps (s : State) : option string * option string * option string :=
  (waveformImage (component s), spectrumImage (component s),
   historicalImage (component s)).

(** [useEffect(.., [waveformImage, spectrumImage, historicalImage])] at the
    commit that takes the component from [before] to [s]: the body runs when
    a dependency has changed. *)
Definition useEffect (before s : State) : State :=
  if decide (deps before = deps s) then s else autoSwitch s.

(** The setter of the slot of [t], followed by the commit. *)
Definition setImage (t : ImageType) (v : option string) (s : State) : State :=
  useEffect s
    match t with
    | waveform => setWaveformImage v s
    | spectrum => setSpectrumImage v s
    | historical => setHistoricalImage v s
    end.

Definition image (t : ImageType) (s : State) : option string :=
  match t with
  | waveform => waveformImage (component s)
  | spectrum => spectrumImage (component s)
  | historical => historicalImage (component s)
  end.

(** A dropped, pasted or selected file: its MIME type and, once read as a
    data URL, what follows the comma. *)
Record File := {
  fileType : string;
  rawBase64 : string
}.

(** [processFile] up to [reader.readAsDataURL(file)]. *)
Definition processFile (file : File) (t : ImageType) (s : State) : State :=
  if negb (String.prefix "image/" (fileType file))
  then alert "Please upload a valid image file." s
  else mapReads (λ l, l ++
         [{| target := t; content := rawBase64 file; loading := true |}]) s.

(** [reader.onload] of read [k]. *)
Definition onload (k : nat) (s : State) : State :=
  match reads s !! k with
  | Some r =>
      if loading r
      then setImage (target r) (Some (content r))
             (mapReads (<[k := {| target := target r; content := content r;
                                  loading := false |}]>) s)
      else s
  | None => s
  end.

(** The "Remove Image" button of a slot. *)
Definition removeImage (t : ImageType) : State → State := setImage t None.

(** The three tabs; the compare tab is [disabled] unless both images are
    there, and a disabled button does not fire [onClick]. *)
Definition compareDisabled (s : State) : bool :=
  negb (present (historicalImage (component s)))
  || negb (present (spectrumImage (component s))).

Definition clickTab (v : View) (s : State) : State :=
  match v with
  | compareView => if compareDisabled s then s else setActiveView compareView s
  | _ => setActiveView v s
  end.

(** The view the priority rule names for the images of [s], if any. *)
Definition priorityView (s : State) : option View :=
  let c := component s in
  if present (spectrumImage c) && present (historicalImage c) then Some compareView
  else if present (spectrumImage c) then Some spectrumView
  else if present (waveformImage c) then Some waveformView
  else None.

(** ** The analysis action *)

(** [runAnalysis] up to [await analyzeVibrationData(..)]. *)
Definition runAnalysis (s : State) : State :=
  let c := component s in
  if negb (present (waveformImage c)) && negb (present (spectrumImage c))
  then alert "Please upload at least one image (Waveform or Spectrum)." s
  else
    let s := setAnalyzing true s in
    let s := setFeedbackGiven None s in
    mapRequests (λ l, l ++
      [{| reqWaveform := waveformImage c; reqSpectrum := spectrumImage c;
          reqBearing := bearingParams c; reqEquipment := equipmentName c;
          reqBearingId := bearingId c; reqDirection := direction c;
          pending := true |}]) s.

Definition settle (k : nat) : State → State :=
  mapRequests (alter (λ r,
    {| reqWaveform := reqWaveform r; reqSpectrum := reqSpectrum r;
       reqBearing := reqBearing r; reqEquipment := reqEquipment r;
       reqBearingId := reqBearingId r; reqDirection := reqDirection r;
       pending := false |}) k).

Definition isPending (k : nat) (s : State) : bool :=
  match requests s !! k with
  | Some r => pending r
  | None => false
  end.

(** [runAnalysis] after request [k] is fulfilled with [analysis]. *)
Definition runAnalysis_fulfilled (k : nat) (analysis : AnalysisResult) (s : State) : State :=
  if isPending k s then
    let s := settle k s in
    let s := setResult (Some analysis) s in
    setAnalyzing false s
  else s.

(** [runAnalysis] after request [k] is rejected: [catch], then [finally]. *)
Definition runAnalysis_rejected (k : nat) (s : State) : State :=
  if isPending k s then
    let s := settle k s in
    let s := alert "Analysis failed." s in
    setAnalyzing false s
  else s.

(** The button: [onClick={runAnalysis} disabled={analyzing}]. *)
Definition clickRun (s : State) : State :=
  if analyzing (component s) then s else runAnalysis s.

(** ** The feedback log *)

Definition feedbackKey : string := "gemini_feedback_history".

(** How a handler ends: it returns, or an exception leaves it. *)
Inductive Outcome :=
| Returned (s : State)
| Threw (error : string) (s : State).

(** [historyItem] as [JSON.stringify] writes it: a property whose value is
    [undefined] ([result?.severity] without a result) is left out. *)
Definition historyItem (timestamp : string) (sev : option Severity) (helpful : bool) : Json :=
  JObject ([("timestamp", JString timestamp)]
           ++ match sev with
              | Some v => [("severity", JString (severityValue v))]
              | None => []
              end
           ++ [("helpful", JBool helpful)]).

(** [localStorage.getItem(key) || '[]'] *)
Definition storedOrEmpty (key : string) (s : State) : Text :=
  match getItem key s with
  | Some EmptyText | None => JsonText (JArray [])
  | Some t => t
  end.

(** [handleFeedback]; [timestamp] is [new Date().toISOString()]. *)
Definition handleFeedback (isHelpful : bool) (timestamp : string) (s : State) : Outcome :=
  let item := historyItem timestamp (severity <$> result (component s)) isHelpful in
  let s := setFeedbackGiven (Some (if isHelpful then up else down)) s in
  match JSON_parse (storedOrEmpty feedbackKey s) with
  | None => Threw "SyntaxError" s
  | Some (JArray existingHistory) =>
      Returned (setItem feedbackKey
                  (JSON_stringify (JArray (existingHistory ++ [item]))) s)
  | Some _ => Threw "TypeError" s
  end.

(** Feedback submissions one after the other, each with its answer and its
    timestamp; an exception ends the sequence. *)
Fixpoint submitAll (subs : list (bool * string)) (s : State) : Outcome :=
  match subs with
  | [] => Returned s
  | (isHelpful, timestamp) :: rest =>
      match handleFeedback isHelpful timestamp s with
      | Returned s' => submitAll rest s'
      | Threw error s' => Threw error s'
      end
  end.

(** The records of the feedback log, when the stored text is a log. *)
Definition feedbackLog (s : State) : option (list Json) :=
  match JSON_parse (storedOrEmpty feedbackKey s) with
  | Some (JArray l) => Some l
  | _ => None
  end.

(** ** Sample states *)

Definition sampleResult : AnalysisResult := {|
  faults := ["Outer race defect"]; severity := WARNING;
  recommendations := ["Replace the bearing"]; rawAnalysis := "### Summary"
|}.

(** A waveform image has been analysed and the user has marked the result
    as helpful. *)
Definition reviewed : State :=
  setFeedbackGiven (Some up)
    (setResult (Some sampleResult) (setWaveformImage (Some "AAAA") initial)).

Definition pngFile (data : string) : File :=
  {| fileType := "image/png"; rawBase64 := data |}.

(** The same spectrum file is dropped twice before the first read has come
    back; the first read arrives, a historical image is uploaded (the view
    goes to compare), and the user goes back to the spectrum tab.  The second
    read (number 1) is still to come. *)
Definition droppedTwice : State :=
  clickTab spectrumView
    (onload 2 (processFile (pngFile "HHHH") historical
      (onload 0 (processFile (pngFile "SSSS") spectrum
        (processFile (pngFile "SSSS") spectrum initial))))).

(** ** The rest of the component *)

Definition setOverlayOpacity (v : Z) : State → State := mapComponent (λ c,
  {| analyzing := analyzing c; result := result c;
     isDownloading := isDownloading c; waveformImage := waveformImage c;
     spectrumImage := spectrumImage c; historicalImage := historicalImage c;
     activeView := activeView c; overlayOpacity := v;
     dragActiveWaveform := dragActiveWaveform c;
     dragActiveSpectrum := dragActiveSpectrum c;
     dragActiveHistorical := dragActiveHistorical c;
     feedbackGiven := feedbackGiven c; equipmentName := equipmentName c;
     bearingId := bearingId c; direction := direction c;
     bearingParams := bearingParams c |}).

Definition setDragActiveWaveform (v : bool) : State → State := mapComponent (λ c,
  {| analyzing := analyzing c; result := result c;
     isDownloading := isDownloading c; waveformImage := waveformImage c;
     spectrumImage := spectrumImage c; historicalImage := historicalImage c;
     activeView := activeView c; overlayOpacity := overlayOpacity c;
     dragActiveWaveform := v; dragActiveSpectrum := dragActiveSpectrum c;
     dragActiveHistorical := dragActiveHistorical c;
     feedbackGiven := feedbackGiven c; equipmentName := equipmentName c;
     bearingId := bearingId c; direction := direction c;
     bearingParams := bearingParams c |}).

Definition setDragActiveSpectrum (v : bool) : State → State := mapComponent (λ c,
  {| analyzing := analyzing c; result := result c;
     isDownloading := isDownloading c; waveformImage := waveformImage c;
     spectrumImage := spectrumImage c; historicalImage := historicalImage c;
     activeView := activeView c; overlayOpacity := overlayOpacity c;
     dragActiveWaveform := dragActiveWaveform c; dragActiveSpectrum := v;
     dragActiveHistorical := dragActiveHistorical c;
     feedbackGiven := feedbackGiven c; equipmentName := equipmentName c;
     bearingId := bearingId c; direction := direction c;
     bearingParams := bearingParams c |}).

Definition setDragActiveHistorical (v : bool) : State → State := mapComponent (λ c,
  {| analyzing := analyzing c; result := result c;
     isDownloading := isDownloading c; waveformImage := waveformImage c;
     spectrumImage := spectrumImage c; historicalImage := historicalImage c;
     activeView := activeView c; overlayOpacity := overlayOpacity c;
     dragActiveWaveform := dragActiveWaveform c;
     dragActiveSpectrum := dragActiveSpectrum c; dragActiveHistorical := v;
     feedbackGiven := feedbackGiven c; equipmentName := equipmentName c;
     bearingId := bearingId c; direction := direction c;
     bearingParams := bearingParams c |}).

Definition setEquipmentName (v : string) : State → State := mapComponent (λ c,
  {| analyzing := analyzing c; result := result c;
     isDownloading := isDownloading c; waveformImage := waveformImage c;
     spectrumImage := spectrumImage c; historicalImage := historicalImage c;
     activeView := activeView c; overlayOpacity := overlayOpacity c;
     dragActiveWaveform := dragActiveWaveform c;
     dragActiveSpectrum := dragActiveSpectrum c;
     dragActiveHistorical := dragActiveHistorical c;
     feedbackGiven := feedbackGiven c; equipmentName := v;
     bearingId := bearingId c; direction := direction c;
     bearingParams := bearingParams c |}).

Definition setBearingId (v : string) : State → State := mapComponent (λ c,
  {| analyzing := analyzing c; result := result c;
     isDownloading := isDownloading c; waveformImage := waveformImage c;
     spectrumImage := spectrumImage c; historicalImage := historicalImage c;
     activeView := activeView c; overlayOpacity := overlayOpacity c;
     dragActiveWaveform := dragActiveWaveform c;
     dragActiveSpectrum := dragActiveSpectrum c;
     dragActiveHistorical := dragActiveHistorical c;
     feedbackGiven := feedbackGiven c; equipmentName := equipmentName c;
     bearingId := v; direction := direction c;
     bearingParams := bearingParams c |}).

Definition setDirection (v : string) : State → State := mapComponent (λ c,
  {| analyzing := analyzing c; result := result c;
     isDownloading := isDownloading c; waveformImage := waveformImage c;
     spectrumImage := spectrumImage c; historicalImage := historicalImage c;
     activeView := activeView c; overlayOpacity := overlayOpacity c;
     dragActiveWaveform := dragActiveWaveform c;
     dragActiveSpectrum := dragActiveSpectrum c;
     dragActiveHistorical := dragActiveHistorical c;
     feedbackGiven := feedbackGiven c; equipmentName := equipmentName c;
     bearingId := bearingId c; direction := v;
     bearingParams := bearingParams c |}).

Definition setBearingParams (v : BearingParams) : State → State := mapComponent (λ c,
  {| analyzing := analyzing c; result := result c;
     isDownloading := isDownloading c; waveformImage := waveformImage c;
     spectrumImage := spectrumImage c; historicalImage := historicalImage c;
     activeView := activeView c; overlayOpacity := overlayOpacity c;
     dragActiveWaveform := dragActiveWaveform c;
     dragActiveSpectrum := dragActiveSpectrum c;
     dragActiveHistorical := dragActiveHistorical c;
     feedbackGiven := feedbackGiven c; equipmentName := equipmentName c;
     bearingId := bearingId c; direction := direction c;
     bearingParams := v |}).

(** *** Getting a file *)

(** [handleDrag]: the highlight of the drop zone of slot [t]. *)
Definition handleDrag (t : ImageType) (active : bool) : State → State :=
  match t with
  | waveform => setDragActiveWaveform active
  | spectrum => setDragActiveSpectrum active
  | historical => setDragActiveHistorical active
  end.

Definition dragActive (t : ImageType) (s : State) : bool :=
  match t with
  | waveform => dragActiveWaveform (component s)
  | spectrum => dragActiveSpectrum (component s)
  | historical => dragActiveHistorical (component s)
  end.

(** [handleDrop]: [files] is [e.dataTransfer.files]. *)
Definition handleDrop (files : list File) (t : ImageType) (s : State) : State :=
  let s := handleDrag t false s in
  match files with
  | file :: _ => processFile file t s
  | [] => s
  end.

(** [handleFileSelect]: [files] is [e.target.files]. *)
Definition handleFileSelect (files : list File) (t : ImageType) (s : State) : State :=
  match files with
  | file :: _ => processFile file t s
  | [] => s
  end.

(** An entry of [e.clipboardData.items]: its type and what [getAsFile()]
    gives ([None] for [null]). *)
Record ClipboardItem := {
  itemType : string;
  getAsFile : option File
}.

(** [handlePaste]: the loop stops at the first item whose type contains
    "image", whether or not it yields a file. *)
Fixpoint handlePaste (items : list ClipboardItem) (t : ImageType) (s : State) : State :=
  match items with
  | [] => s
  | item :: rest =>
      match String.index 0 "image" (itemType item) with
      | Some _ =>
          match getAsFile item with
          | Some blob => processFile blob t s
          | None => s
          end
      | None => handlePaste rest t s
      end
  end.

(** *** Severity *)

(** The zones of [ISOChart]. *)
Record Zone := {
  zoneName : string;
  zoneLabel : string;
  zoneColor : string;
  zoneSeverity : string
}.

Definition zones : list Zone := [
  {| zoneName := "A"; zoneLabel := "Good"; zoneColor := "bg-green-500";
     zoneSeverity := severityValue NORMAL |};
  {| zoneName := "B"; zoneLabel := "Satisfactory"; zoneColor := "bg-blue-500";
     zoneSeverity := severityValue PREWARNING |};
  {| zoneName := "C"; zoneLabel := "Unsatisfactory"; zoneColor := "bg-yellow-500";
     zoneSeverity := severityValue WARNING |};
  {| zoneName := "D"; zoneLabel := "Unacceptable"; zoneColor := "bg-red-500";
     zoneSeverity := severityValue ALARM |}
].

(** [Array.prototype.findIndex]: -1 when no element passes. *)
Fixpoint findIndex {A} (p : A → bool) (l : list A) : Z :=
  match l with
  | [] => -1
  | x :: rest =>
      if p x then 0
      else let i := findIndex p rest in if (i =? -1)%Z then (-1)%Z else (i + 1)%Z
  end.

(** At run time a severity is the string the remote model sent. *)
Definition activeZoneIndex (sev : string) : Z :=
  findIndex (λ z, String.eqb (zoneSeverity z) sev) zones.

(** The "Current State" marker: absent when the index is -1, else at
    [activeZoneIndex * 25 + 12.5] percent from the left. *)
Definition markerLeft (sev : string) : option Q :=
  let i := activeZoneIndex sev in
  if (i =? -1)%Z then None else Some (inject_Z i * 25 + (25 # 2))%Q.

(** [getSeverityData]: the icon (by the name of its component), the text
    colour and the zone letter. *)
Record SeverityData := {
  icon : string;
  color : string;
  zone : string
}.

Definition getSeverityData (sev : string) : SeverityData :=
  if String.eqb sev (severityValue ALARM) then
    {| icon := "AlertOctagon"; color := "text-red-500"; zone := "D" |}
  else if String.eqb sev (severityValue WARNING) then
    {| icon := "AlertTriangle"; color := "text-yellow-500"; zone := "C" |}
  else if String.eqb sev (severityValue PREWARNING) then
    {| icon := "BellRing"; color := "text-blue-500"; zone := "B" |}
  else if String.eqb sev (severityValue NORMAL) then
    {| icon := "CheckCircle"; color := "text-green-500"; zone := "A" |}
  else {| icon := "Activity"; color := "text-white"; zone := "N/A" |}.

(** *** Events *)

(** The thumbs: rendered with the report, disabled once one was given. *)
Definition clickThumb (isHelpful : bool) (timestamp : string) (s : State) : Outcome :=
  match result (component s), feedbackGiven (component s) with
  | Some _, None => handleFeedback isHelpful timestamp s
  | _, _ => Returned s
  end.

Definition after (o : Outcome) : State :=
  match o with
  | Returned s | Threw _ s => s
  end.

(** What the user and the browser can do to a mounted analyzer.  The drop
    zone of a slot (drag, drop, paste, file dialog) is rendered while the
    slot holds no image, the remove button while it holds one; the opacity
    slider, a range input from 0 to 100, belongs to the compare view. *)
Inductive Event :=
| Drag (t : ImageType) (active : bool)
| Drop (t : ImageType) (files : list File)
| Select (t : ImageType) (files : list File)
| Paste (t : ImageType) (items : list ClipboardItem)
| Load (k : nat)
| Remove (t : ImageType)
| Tab (v : View)
| Opacity (v : Z)
| EditEquipment (v : string)
| EditBearing (v : string)
| EditDirection (v : string)
| EditParams (v : BearingParams)
| Run
| Fulfilled (k : nat) (analysis : AnalysisResult)
| Rejected (k : nat)
| ClickThumb (isHelpful : bool) (timestamp : string).

Definition whenEmpty (t : ImageType) (f : State → State) (s : State) : State :=
  if present (image t s) then s else f s.

Definition step (s : State) (e : Event) : State :=
  match e with
  | Drag t active => whenEmpty t (handleDrag t active) s
  | Drop t files => whenEmpty t (handleDrop files t) s
  | Select t files => whenEmpty t (handleFileSelect files t) s
  | Paste t items => whenEmpty t (handlePaste items t) s
  | Load k => onload k s
  | Remove t => if present (image t s) then removeImage t s else s
  | Tab v => clickTab v s
  | Opacity v =>
      match activeView (component s) with
      | compareView =>
          if bool_decide (0 ≤ v ≤ 100)%Z then setOverlayOpacity v s else s
      | _ => s
      end
  | EditEquipment v => setEquipmentName v s
  | EditBearing v => setBearingId v s
  | EditDirection v => setDirection v s
  | EditParams v => setBearingParams v s
  | Run => clickRun s
  | Fulfilled k analysis => runAnalysis_fulfilled k analysis s
  | Rejected k => runAnalysis_rejected k s
  | ClickThumb isHelpful timestamp => after (clickThumb isHelpful timestamp s)
  end.

Definition run (s : State) (tr : list Event) : State := fold_left step tr s.

(** The requests that have not settled. *)
Definition inFlight (s : State) : list Request :=
  filter (λ r, pending r = true) (requests s).

(** No file of the event is empty. *)
Definition substantial (e : Event) : Prop :=
  match e with
  | Drop _ files | Select _ files => Forall (λ f, rawBase64 f ≠ "") files
  | Paste _ items =>
      Forall (λ i, ∀ f, getAsFile i = Some f → rawBase64 f ≠ "") items
  | _ => True
  end.

Definition removal (e : Event) : Prop :=
  match e with
  | Remove _ => True
  | _ => False
  end.

(** *** More sample states *)

(** [reviewed] with the thumbs still to be given and an entry under the
    feedback key that is not JSON. *)
Definition corrupted : State :=
  setItem feedbackKey Malformed (setFeedbackGiven None reviewed).

(** Spectrum and historical image uploaded, the compare view on display. *)
Definition comparing : State :=
  onload 1 (processFile (pngFile "HHHH") historical
    (onload 0 (processFile (pngFile "SSSS") spectrum initial))).

End VibrationAnalyzer.

(** * Text rendering: [renderFormattedText] and [MessageRenderer] *)

Module Markup.

(** ** JavaScript strings *)

(** A string is a sequence of UTF-16 code units. *)
Abbreviation Text := (list N).

(** An ASCII literal as a [Text]. *)
Fixpoint str (s : string) : Text :=
  match s with
  | EmptyString => []
  | String a s => Ascii.N_of_ascii a :: str s
  end.

(** LineTerminator: LF, CR, LS, PS. *)
Definition lineTerminator (c : N) : bool :=
  bool_decide (c ∈ [10; 13; 8232; 8233]%N).

(** WhiteSpace: TAB, VT, FF, ZWNBSP and the space separators. *)
Definition whiteSpace (c : N) : bool :=
  bool_decide (c ∈ [9; 11; 12; 32; 160; 5760; 8192; 8193; 8194; 8195; 8196;
                    8197; 8198; 8199; 8200; 8201; 8202; 8239; 8287; 12288;
                    65279]%N).

(** What [trim] strips. *)
Definition blank (c : N) : bool := whiteSpace c || lineTerminator c.

Fixpoint trimStart (s : Text) : Text :=
  match s with
  | c :: rest => if blank c then trimStart rest else s
  | [] => []
  end.

Definition trimEnd (s : Text) : Text := reverse (trimStart (reverse s)).

Definition trim (s : Text) : Text := trimEnd (trimStart s).

Fixpoint startsWith (p s : Text) : bool :=
  match p, s with
  | [], _ => true
  | a :: p, b :: s => (a =? b)%N && startsWith p s
  | _ :: _, [] => false
  end.

Definition endsWith (p s : Text) : bool := startsWith (reverse p) (reverse s).

(** [s.slice(from, -back)] *)
Definition slice (from back : nat) (s : Text) : Text :=
  take (length s - back - from) (drop from s).

(** [s.substring(from)] *)
Definition substring (from : nat) (s : Text) : Text := drop from s.

(** [s.split(sep)] for a separator of one code unit. *)
Fixpoint split (sep : N) (s : Text) : list Text :=
  match s with
  | [] => [[]]
  | c :: rest =>
      if (c =? sep)%N then [] :: split sep rest
      else match split sep rest with
           | cur :: more => (c :: cur) :: more
           | [] => [[c]]
           end
  end.

(** [s.replace('-', '')]: the first occurrence goes. *)
Fixpoint removeFirst (c : N) (s : Text) : Text :=
  match s with
  | [] => []
  | a :: rest => if (a =? c)%N then rest else a :: removeFirst c rest
  end.

Definition hash : N := 35.
Definition star : N := 42.
Definition dash : N := 45.

(** [s.replace(/###/g, '')]: the matches are taken from the left, one after
    the end of the other. *)
Fixpoint removeMarkers (s : Text) : Text :=
  match s with
  | [] => []
  | a :: tl =>
      match tl with
      | b :: c :: rest =>
          if (a =? hash)%N && (b =? hash)%N && (c =? hash)%N
          then removeMarkers rest
          else a :: removeMarkers tl
      | _ => a :: removeMarkers tl
      end
  end.

(** How many times [c] stands at the start of [s]. *)
Fixpoint leading (c : N) (s : Text) : nat :=
  match s with
  | a :: rest => if (a =? c)%N then S (leading c rest) else 0
  | [] => 0
  end.

(** ** The bold markup *)

(** [.*?\*\*] at the start of [s]: the number of code units the lazy
    quantifier takes, each of them not a line terminator, before the first
    two stars. *)
Fixpoint lazyUntilStars (s : Text) : option nat :=
  if startsWith [star; star] s then Some 0
  else match s with
       | c :: rest => if lineTerminator c then None else S <$> lazyUntilStars rest
       | [] => None
       end.

(** [/\*\*.*?\*\*/] at the start of [s]: the length of the match. *)
Definition matchBold (s : Text) : option nat :=
  if startsWith [star; star] s then (λ k, 2 + k + 2) <$> lazyUntilStars (drop 2 s)
  else None.

(** The loop of [s.split(re)], where [re] is the pattern above in one
    capturing group, with the global flag: [pending], in reverse, is what
    was read since the end of the last match.  A match closes the pending
    piece and is itself a piece, the capture of the group. *)
Fixpoint splitLoop (fuel : nat) (pending : Text) (s : Text) : list Text :=
  match fuel with
  | 0 => [reverse pending ++ s]
  | S fuel =>
      match s with
      | [] => [reverse pending]
      | c :: rest =>
          match matchBold s with
          | Some n => reverse pending :: take n s :: splitLoop fuel [] (drop n s)
          | None => splitLoop fuel (c :: pending) rest
          end
      end
  end.

Definition splitBold (s : Text) : list Text := splitLoop (S (length s)) [] s.

(** ** What is rendered *)

Inductive Inline :=
| Plain (t : Text)
| Strong (t : Text).

Inductive Block :=
| Header (t : Text)
| Bullet (parts : list Inline)
| Paragraph (parts : list Inline)
| Spacer.

(** [part.startsWith('**') && part.endsWith('**') ? <strong>..</strong> : part] *)
Definition inline (part : Text) : Inline :=
  if startsWith [star; star] part && endsWith [star; star] part
  then Strong (slice 2 2 part)
  else Plain part.

(** [s.split(re).map(..)] *)
Definition renderBold (s : Text) : list Inline := inline <$> splitBold s.

(** [renderFormattedText] of the analyzer, one line. *)
Definition renderFormattedLine (line : Text) : option Block :=
  if startsWith (str "###") (trim line)
  then Some (Header (trim (removeMarkers line)))
  else if startsWith (str "-") (trim line)
  then Some (Bullet (renderBold (trim (removeFirst dash line))))
  else if bool_decide (0 < length (trim line))
  then Some (Paragraph (renderBold line))
  else None.

Definition renderFormattedText (text : Text) : list (option Block) :=
  renderFormattedLine <$> split 10 text.

(** [MessageRenderer] of the application, one line. *)
Definition renderMessageLine (line : Text) : Block :=
  let trimmed := trim line in
  if startsWith (str "- ") trimmed || startsWith (str "* ") trimmed
  then Bullet (renderBold (substring 2 trimmed))
  else if startsWith (str "### ") trimmed
  then Header (substring 4 trimmed)
  else if bool_decide (trimmed = [])
  then Spacer
  else Paragraph (renderBold line).

Definition MessageRenderer (text : Text) : list Block :=
  renderMessageLine <$> split 10 text.

(** The text a reader sees. *)
Definition shown (i : Inline) : Text :=
  match i with
  | Plain t | Strong t => t
  end.

Definition noStars (t : Text) : Text := filter (λ c, c ≠ star) t.

End Markup.

(** * The application shell: navigation, the chat and the fast consultation *)

Module App.
Import Markup.

Inductive AppView := DASHBOARD | VIBRATION | LIVE_MONITOR | CHAT_ASSISTANT.

#[global] Instance AppView_eq_dec : EqDecision AppView.
Proof. solve_decision. Defined.

Inductive Role := user | model.

#[global] Instance Role_eq_dec : EqDecision Role.
Proof. solve_decision. Defined.

(** [id] is the text of a number of milliseconds and [timestamp] a date;
    both are kept as the number read from the clock. *)
Record ChatMessage := {
  id : Z;
  role : Role;
  text : Text;
  timestamp : Z
}.

(** A call of the remote service and what became of its promise. *)
Inductive Status := pending | fulfilled | rejected.

#[global] Instance Status_eq_dec : EqDecision Status.
Proof. solve_decision. Defined.

Record Call := {
  argument : Text;
  status : Status
}.

(** The state of [App], with the calls of [chatInstance.sendMessage] and of
    [getFastConsultation] made so far. *)
Record State := {
  currentView : AppView;
  isSidebarOpen : bool;
  chatMessages : list ChatMessage;
  chatInput : Text;
  chatInstance : option nat;
  isTyping : bool;
  fastQuery : Text;
  fastResponse : Text;
  isFastLoading : bool;
  sends : list Call;
  consultations : list Call
}.

Definition initial : State := {|
  currentView := DASHBOARD; isSidebarOpen := false; chatMessages := [];
  chatInput := []; chatInstance := None; isTyping := false; fastQuery := [];
  fastResponse := []; isFastLoading := false; sends := []; consultations := []
|}.

Definition setCurrentView (v : AppView) (s : State) : State :=
  {| currentView := v; isSidebarOpen := isSidebarOpen s; chatMessages :=
     chatMessages s; chatInput := chatInput s; chatInstance := chatInstance s;
     isTyping := isTyping s; fastQuery := fastQuery s; fastResponse :=
     fastResponse s; isFastLoading := isFastLoading s; sends := sends s;
     consultations := consultations s |}.

Definition setIsSidebarOpen (v : bool) (s : State) : State :=
  {| currentView := currentView s; isSidebarOpen := v; chatMessages :=
     chatMessages s; chatInput := chatInput s; chatInstance := chatInstance s;
     isTyping := isTyping s; fastQuery := fastQuery s; fastResponse :=
     fastResponse s; isFastLoading := isFastLoading s; sends := sends s;
     consultations := consultations s |}.

Definition setChatMessages (v : list ChatMessage) (s : State) : State :=
  {| currentView := currentView s; isSidebarOpen := isSidebarOpen s;
     chatMessages := v; chatInput := chatInput s; chatInstance := chatInstance
     s; isTyping := isTyping s; fastQuery := fastQuery s; fastResponse :=
     fastResponse s; isFastLoading := isFastLoading s; sends := sends s;
     consultations := consultations s |}.

Definition setChatInput (v : Text) (s : State) : State :=
  {| currentView := currentView s; isSidebarOpen := isSidebarOpen s;
     chatMessages := chatMessages s; chatInput := v; chatInstance :=
     chatInstance s; isTyping := isTyping s; fastQuery := fastQuery s;
     fastResponse := fastResponse s; isFastLoading := isFastLoading s; sends :=
     sends s; consultations := consultations s |}.

Definition setChatInstance (v : option nat) (s : State) : State :=
  {| currentView := currentView s; isSidebarOpen := isSidebarOpen s;
     chatMessages := chatMessages s; chatInput := chatInput s; chatInstance :=
     v; isTyping := isTyping s; fastQuery := fastQuery s; fastResponse :=
     fastResponse s; isFastLoading := isFastLoading s; sends := sends s;
     consultations := consultations s |}.

Definition setIsTyping (v : bool) (s : State) : State :=
  {| currentView := currentView s; isSidebarOpen := isSidebarOpen s;
     chatMessages := chatMessages s; chatInput := chatInput s; chatInstance :=
     chatInstance s; isTyping := v; fastQuery := fastQuery s; fastResponse :=
     fastResponse s; isFastLoading := isFastLoading s; sends := sends s;
     consultations := consultations s |}.

Definition setFastQuery (v : Text) (s : State) : State :=
  {| currentView := currentView s; isSidebarOpen := isSidebarOpen s;
     chatMessages := chatMessages s; chatInput := chatInput s; chatInstance :=
     chatInstance s; isTyping := isTyping s; fastQuery := v; fastResponse :=
     fastResponse s; isFastLoading := isFastLoading s; sends := sends s;
     consultations := consultations s |}.

Definition setFastResponse (v : Text) (s : State) : State :=
  {| currentView := currentView s; isSidebarOpen := isSidebarOpen s;
     chatMessages := chatMessages s; chatInput := chatInput s; chatInstance :=
     chatInstance s; isTyping := isTyping s; fastQuery := fastQuery s;
     fastResponse := v; isFastLoading := isFastLoading s; sends := sends s;
     consultations := consultations s |}.

Definition setIsFastLoading (v : bool) (s : State) : State :=
  {| currentView := currentView s; isSidebarOpen := isSidebarOpen s;
     chatMessages := chatMessages s; chatInput := chatInput s; chatInstance :=
     chatInstance s; isTyping := isTyping s; fastQuery := fastQuery s;
     fastResponse := fastResponse s; isFastLoading := v; sends := sends s;
     consultations := consultations s |}.

Definition setSends (v : list Call) (s : State) : State :=
  {| currentView := currentView s; isSidebarOpen := isSidebarOpen s;
     chatMessages := chatMessages s; chatInput := chatInput s; chatInstance :=
     chatInstance s; isTyping := isTyping s; fastQuery := fastQuery s;
     fastResponse := fastResponse s; isFastLoading := isFastLoading s; sends :=
     v; consultations := consultations s |}.

Definition setConsultations (v : list Call) (s : State) : State :=
  {| currentView := currentView s; isSidebarOpen := isSidebarOpen s;
     chatMessages := chatMessages s; chatInput := chatInput s; chatInstance :=
     chatInstance s; isTyping := isTyping s; fastQuery := fastQuery s;
     fastResponse := fastResponse s; isFastLoading := isFastLoading s; sends :=
     sends s; consultations := v |}.

(** The effect that runs once after the first render; [session] is what
    [createChatSession()] returns. *)
Definition init (session : nat) (s : State) : State :=
  match chatInstance s with
  | None => setChatInstance (Some session) s
  | Some _ => s
  end.

Definition mounted : State := init 0 initial.

Definition settle (k : nat) (outcome : Status) (calls : list Call) : list Call :=
  alter (λ c, {| argument := argument c; status := outcome |}) k calls.

Definition isPending (k : nat) (calls : list Call) : bool :=
  match calls !! k with
  | Some {| status := pending |} => true
  | _ => false
  end.

(** ** The chat *)

(** [handleChatSend] up to [await chatInstance.sendMessage(..)]; [now] is
    [Date.now()] and [date] is [new Date()]. *)
Definition handleChatSend (now date : Z) (s : State) : State :=
  if bool_decide (trim (chatInput s) = []) || bool_decide (chatInstance s = None)
  then s
  else
    let userMsg := {| id := now; role := user; text := chatInput s;
                      timestamp := date |} in
    let s := setChatMessages (chatMessages s ++ [userMsg]) s in
    let s := setChatInput [] s in
    let s := setIsTyping true s in
    setSends (sends s ++ [{| argument := text userMsg; status := pending |}]) s.

(** [handleChatSend] after call [k] is fulfilled with a result whose text is
    [resultText]. *)
Definition handleChatSend_fulfilled (k : nat) (resultText : Text) (now date : Z)
    (s : State) : State :=
  if isPending k (sends s) then
    let s := setSends (settle k fulfilled (sends s)) s in
    let botMsg := {| id := now + 1; role := model; text := resultText;
                     timestamp := date |} in
    let s := setChatMessages (chatMessages s ++ [botMsg]) s in
    setIsTyping false s
  else s.

(** [handleChatSend] after call [k] is rejected: [catch] logs, then
    [finally]. *)
Definition handleChatSend_rejected (k : nat) (s : State) : State :=
  if isPending k (sends s) then
    let s := setSends (settle k rejected (sends s)) s in
    setIsTyping false s
  else s.

(** The send button: [disabled={!chatInput.trim() || isTyping}]. *)
Definition clickSend (now date : Z) (s : State) : State :=
  if bool_decide (trim (chatInput s) = []) || isTyping s then s
  else handleChatSend now date s.

(** ** The fast consultation *)

(** [handleFastConsult] up to [await getFastConsultation(fastQuery)]. *)
Definition handleFastConsult (s : State) : State :=
  if bool_decide (fastQuery s = []) then s
  else
    let s := setIsFastLoading true s in
    setConsultations
      (consultations s ++ [{| argument := fastQuery s; status := pending |}]) s.

(** [handleFastConsult] after call [k] is fulfilled with [res]. *)
Definition handleFastConsult_fulfilled (k : nat) (res : Text) (s : State) : State :=
  if isPending k (consultations s) then
    let s := setConsultations (settle k fulfilled (consultations s)) s in
    let s := setFastResponse res s in
    setIsFastLoading false s
  else s.

(** [handleFastConsult] after call [k] is rejected: nothing catches the
    rejection and the rest of the function does not run. *)
Definition handleFastConsult_rejected (k : nat) (s : State) : State :=
  if isPending k (consultations s)
  then setConsultations (settle k rejected (consultations s)) s
  else s.

(** The button: [disabled={isFastLoading}]. *)
Definition clickAsk (s : State) : State :=
  if isFastLoading s then s else handleFastConsult s.

(** ** Navigation *)

(** [NavItem]: [setCurrentView(view); setIsSidebarOpen(false)]. *)
Definition clickNavItem (view : AppView) (s : State) : State :=
  setIsSidebarOpen false (setCurrentView view s).

(** ** Events *)

(** What the user and the remote service can do.  The chat input and its
    button are rendered in the chat view, the dashboard cards and the fast
    consultation in the dashboard; the promises settle wherever the user
    is. *)
Inductive Event :=
| NavItem (view : AppView)
| Card (target : AppView)
| ToggleSidebar
| TypeChat (v : Text)
| PressEnter (now date : Z)
| ClickSend (now date : Z)
| Replied (k : nat) (resultText : Text) (now date : Z)
| SendFailed (k : nat)
| TypeFast (v : Text)
| ClickAsk
| Consulted (k : nat) (res : Text)
| ConsultFailed (k : nat).

Definition inView (view : AppView) (f : State → State) (s : State) : State :=
  if bool_decide (currentView s = view) then f s else s.

Definition step (s : State) (e : Event) : State :=
  match e with
  | NavItem view => clickNavItem view s
  | Card target => inView DASHBOARD (setCurrentView target) s
  | ToggleSidebar => setIsSidebarOpen (negb (isSidebarOpen s)) s
  | TypeChat v => inView CHAT_ASSISTANT (setChatInput v) s
  | PressEnter now date => inView CHAT_ASSISTANT (handleChatSend now date) s
  | ClickSend now date => inView CHAT_ASSISTANT (clickSend now date) s
  | Replied k resultText now date => handleChatSend_fulfilled k resultText now date s
  | SendFailed k => handleChatSend_rejected k s
  | TypeFast v => inView DASHBOARD (setFastQuery v) s
  | ClickAsk => inView DASHBOARD clickAsk s
  | Consulted k res => handleFastConsult_fulfilled k res s
  | ConsultFailed k => handleFastConsult_rejected k s
  end.

Definition run (s : State) (tr : list Event) : State := fold_left step tr s.

(** The calls that have not settled. *)
Definition unsettled (calls : list Call) : list Call :=
  filter (λ c, status c = pending) calls.

(** The messages of a role. *)
Definition from (r : Role) (l : list ChatMessage) : list ChatMessage :=
  filter (λ m, role m = r) l.

(** A question is asked from the dashboard and its call is rejected. *)
Definition consultFailed : list Event :=
  [TypeFast (str "alarm limit?"); ClickAsk; ConsultFailed 0].

(** Two messages are sent with the Enter key, the second while the first is
    still unanswered. *)
Definition sentTwice : list Event :=
  [NavItem CHAT_ASSISTANT; TypeChat (str "first"); PressEnter 1000 1000;
   TypeChat (str "second"); PressEnter 2000 2000].

End App.

Module DoubleFacts.
Import Double Binary64.
Local Open Scope Q_scope.

Lemma pow2_pos (k : Z) : 0 < pow2 k.
Proof. by apply Qpower_0_lt. Qed.

Lemma pow2_le (k k' : Z) : (k <= k')%Z → pow2 k <= pow2 k'.
Proof. intros H. by apply Qpower_le_compat_l. Qed.

Lemma pow2_lt (k k' : Z) : (k < k')%Z → pow2 k < pow2 k'.
Proof. intros H. by apply Qpower_lt_compat_l. Qed.

Lemma pow2_add (a b : Z) : pow2 (a + b) == pow2 a * pow2 b.
Proof. by apply Qpower_plus. Qed.

Lemma pow2_Z (k : Z) : (0 <= k)%Z → pow2 k == inject_Z (2 ^ k).
Proof. intros H. unfold pow2. by rewrite Zpower_Qpower. Qed.

Lemma pow2_sub (a b : Z) : pow2 (a - b) == pow2 a / pow2 b.
Proof.
  unfold Z.sub. rewrite pow2_add. unfold pow2 at 2. rewrite Qpower_opp. reflexivity.
Qed.

Lemma pow2_succ (k : Z) : pow2 (k + 1) == 2 * pow2 k.
Proof. rewrite pow2_add. change (pow2 1) with 2. ring. Qed.

Lemma ilog2_spec (x : Q) : 0 < x → pow2 (ilog2 x) <= x ∧ x < pow2 (ilog2 x + 1).
Proof.
  intros Hx. destruct x as [n d].
  assert (0 < n)%Z as Hn by (unfold Qlt in Hx; cbn in Hx; lia).
  unfold ilog2. cbn [Qnum Qden].
  set (a := Z.log2 n). set (b := Z.log2 (Z.pos d)).
  destruct (Z.log2_spec n Hn) as [Ha1 Ha2]. fold a in Ha1, Ha2.
  destruct (Z.log2_spec (Z.pos d) ltac:(lia)) as [Hb1 Hb2]. fold b in Hb1, Hb2.
  assert (0 <= a)%Z as Ha0 by apply Z.log2_nonneg.
  assert (0 <= b)%Z as Hb0 by apply Z.log2_nonneg.
  assert (pow2 a <= inject_Z n) as HA1 by (rewrite pow2_Z, <- Zle_Qle; lia).
  assert (inject_Z n < pow2 (a + 1)) as HA2
    by (rewrite pow2_Z, <- Zlt_Qlt by lia; replace (a + 1)%Z with (Z.succ a); lia).
  assert (pow2 b <= inject_Z (Z.pos d)) as HB1 by (rewrite pow2_Z, <- Zle_Qle; lia).
  assert (inject_Z (Z.pos d) < pow2 (b + 1)) as HB2
    by (rewrite pow2_Z, <- Zlt_Qlt by lia; replace (b + 1)%Z with (Z.succ b); lia).
  rewrite pow2_succ in HA2, HB2.
  assert (n # d == inject_Z n / inject_Z (Z.pos d)) as Hq by apply Qmake_Qdiv.
  pose proof (pow2_pos a) as HpA. pose proof (pow2_pos b) as HpB.
  assert (0 < inject_Z (Z.pos d)) as HD by lra.
  assert (pow2 (a - b - 1) < n # d) as Hlow.
  { rewrite Hq. apply Qlt_shift_div_l; [done|].
    replace (a - b - 1)%Z with (a - (b + 1))%Z by lia.
    rewrite pow2_sub, pow2_succ.
    apply Qlt_le_trans with (pow2 a); [|done].
    rewrite <- (Qmult_1_r (pow2 a)) at 2.
    unfold Qdiv. rewrite <- Qmult_assoc. apply Qmult_lt_l; [done|].
    rewrite Qmult_comm. apply Qlt_shift_div_r; lra. }
  assert (n # d < pow2 (a - b + 1)) as Hhigh.
  { rewrite Hq. apply Qlt_shift_div_r; [done|].
    replace (a - b + 1)%Z with (a + 1 - b)%Z by lia.
    rewrite pow2_sub, pow2_succ.
    apply Qlt_le_trans with (2 * pow2 a); [done|].
    unfold Qdiv. set (iB := / pow2 b).
    assert (pow2 b * iB == 1) as Hi by (apply Qmult_inv_r; lra).
    assert (0 < iB) as HiB by (by apply Qinv_lt_0_compat).
    assert (1 <= inject_Z (Z.pos d) * iB) as H1 by nra.
    nra. }
  destruct (Qle_bool (pow2 (a - b)) (n # d)) eqn:Hc.
  - apply Qle_bool_iff in Hc. done.
  - assert (n # d < pow2 (a - b)) as Hlt.
    { apply Qnot_le_lt. intros H%Qle_bool_iff. congruence. }
    replace (a - b - 1 + 1)%Z with (a - b)%Z by lia. split; [lra|done].
Qed.


Lemma ilog2_mono (x y : Q) : 0 < x → x <= y → (ilog2 x <= ilog2 y)%Z.
Proof.
  intros Hx Hxy.
  destruct (ilog2_spec x Hx) as [H1 H2].
  destruct (ilog2_spec y ltac:(lra)) as [H3 H4].
  destruct (Z.le_gt_cases (ilog2 x) (ilog2 y)) as [|Hgt]; [done|].
  pose proof (pow2_le (ilog2 y + 1) (ilog2 x) ltac:(lia)). lra.
Qed.


(** ** Rounding to an integer *)


Lemma rne_Z (n : Z) : rne (inject_Z n) = n.
Proof.
  unfold rne. rewrite Qfloor_Z.
  replace (inject_Z n - inject_Z n ?= 1 # 2) with Lt; [done|].
  symmetry. apply (proj1 (Qlt_alt _ _)). lra.
Qed.

Lemma rne_cases (q : Q) :
  let f := Qfloor q in
  (rne q = f ∧ q - inject_Z f <= 1 # 2)
  ∨ (rne q = (f + 1)%Z ∧ 1 # 2 <= q - inject_Z f).
Proof.
  cbn zeta. unfold rne.
  destruct (Qcompare_spec (q - inject_Z (Qfloor q)) (1 # 2)) as [H|H|H].
  - destruct (Z.even (Qfloor q)); [left|right]; split; trivial; lra.
  - left. split; [done|lra].
  - right. split; [done|lra].
Qed.

Lemma rne_near (q : Q) : Qabs (inject_Z (rne q) - q) <= 1 # 2.
Proof.
  pose proof (Qfloor_le q) as H1. pose proof (Qlt_floor q) as H2.
  rewrite inject_Z_plus in H2. change (inject_Z 1) with 1 in H2.
  apply Qabs_Qle_condition.
  destruct (rne_cases q) as [[-> H]|[-> H]].
  - lra.
  - rewrite inject_Z_plus. change (inject_Z 1) with 1. lra.
Qed.

Lemma rne_mono (q q' : Q) : q <= q' → (rne q <= rne q')%Z.
Proof.
  intros H. pose proof (Qfloor_resp_le q q' H) as Hf.
  destruct (Z.eq_dec (Qfloor q) (Qfloor q')) as [Heq|Hne].
  - unfold rne. rewrite <- Heq.
    destruct (Qcompare_spec (q - inject_Z (Qfloor q)) (1 # 2)) as [H1|H1|H1],
             (Qcompare_spec (q' - inject_Z (Qfloor q)) (1 # 2)) as [H2|H2|H2];
      try destruct (Z.even (Qfloor q)); try lia; lra.
  - destruct (rne_cases q) as [[-> _]|[-> _]], (rne_cases q') as [[-> _]|[-> _]]; lia.
Qed.

Lemma rne_le (q : Q) (n : Z) : q <= inject_Z n → (rne q <= n)%Z.
Proof. intros H%rne_mono. by rewrite rne_Z in H. Qed.

Lemma rne_ge (q : Q) (n : Z) : inject_Z n <= q → (n <= rne q)%Z.
Proof. intros H%rne_mono. by rewrite rne_Z in H. Qed.

(** ** Rounding to a number *)


Lemma ulpExp_mono (x y : Q) : 0 < x → x <= y → (ulpExp x <= ulpExp y)%Z.
Proof. intros Hx Hxy. pose proof (ilog2_mono x y Hx Hxy). unfold ulpExp. lia. Qed.

(** The significand before rounding: below [2 ^ 53], and from [2 ^ 52] on
    for a normal number. *)
Lemma scaled_lt (x : Q) : 0 < x → x / pow2 (ulpExp x) < pow2 53.
Proof.
  intros Hx. destruct (ilog2_spec x Hx) as [_ H].
  apply Qlt_shift_div_r; [apply pow2_pos|]. rewrite <- pow2_add.
  eapply Qlt_le_trans; [exact H|]. apply pow2_le. unfold ulpExp. lia.
Qed.

Lemma scaled_ge (x : Q) :
  0 < x → ulpExp x = (ilog2 x - 52)%Z → pow2 52 <= x / pow2 (ulpExp x).
Proof.
  intros Hx He. destruct (ilog2_spec x Hx) as [H _].
  apply Qle_shift_div_l; [apply pow2_pos|]. rewrite <- pow2_add, He.
  by replace (52 + (ilog2 x - 52))%Z with (ilog2 x) by lia.
Qed.

Lemma scaled_pos (x : Q) : 0 < x → 0 < x / pow2 (ulpExp x).
Proof. intros Hx. apply Qlt_shift_div_l; [apply pow2_pos|lra]. Qed.

Lemma significand_le (x : Q) : 0 < x → (rne (x / pow2 (ulpExp x)) <= 2 ^ 53)%Z.
Proof.
  intros Hx. apply rne_le. rewrite <- (pow2_Z 53); [|lia].
  apply Qlt_le_weak. by apply scaled_lt.
Qed.

Lemma significand_ge (x : Q) :
  0 < x → ulpExp x = (ilog2 x - 52)%Z → (2 ^ 52 <= rne (x / pow2 (ulpExp x)))%Z.
Proof. intros Hx He. apply rne_ge. rewrite <- (pow2_Z 52); [|lia]. by apply scaled_ge. Qed.

Lemma significand_nonneg (x : Q) : 0 < x → (0 <= rne (x / pow2 (ulpExp x)))%Z.
Proof.
  intros Hx. apply rne_ge. apply Qlt_le_weak. by apply scaled_pos.
Qed.

Lemma roundPos_nonneg (x : Q) : 0 < x → 0 <= roundPos x.
Proof.
  intros Hx. unfold roundPos. apply Qmult_le_0_compat.
  - change 0 with (inject_Z 0). rewrite <- Zle_Qle. by apply significand_nonneg.
  - apply Qlt_le_weak, pow2_pos.
Qed.

Lemma roundPos_upper (x : Q) : 0 < x → roundPos x <= pow2 (53 + ulpExp x).
Proof.
  intros Hx. unfold roundPos. rewrite pow2_add.
  apply Qmult_le_compat_r; [|apply Qlt_le_weak, pow2_pos].
  rewrite (pow2_Z 53); [|lia]. rewrite <- Zle_Qle. by apply significand_le.
Qed.

Lemma roundPos_lower (x : Q) :
  0 < x → ulpExp x = (ilog2 x - 52)%Z → pow2 (ilog2 x) <= roundPos x.
Proof.
  intros Hx He. unfold roundPos.
  replace (ilog2 x) with (52 + ulpExp x)%Z at 1 by lia. rewrite pow2_add.
  apply Qmult_le_compat_r; [|apply Qlt_le_weak, pow2_pos].
  rewrite (pow2_Z 52); [|lia]. rewrite <- Zle_Qle. by apply significand_ge.
Qed.

Lemma roundPos_mono (x y : Q) : 0 < x → x <= y → roundPos x <= roundPos y.
Proof.
  intros Hx Hxy. assert (0 < y) as Hy by lra.
  pose proof (ulpExp_mono x y Hx Hxy) as He.
  destruct (Z.eq_dec (ulpExp x) (ulpExp y)) as [Heq|Hne].
  - unfold roundPos. rewrite <- Heq.
    apply Qmult_le_compat_r; [|apply Qlt_le_weak, pow2_pos].
    rewrite <- Zle_Qle. apply rne_mono.
    apply Qmult_le_compat_r; [done|]. apply Qlt_le_weak, Qinv_lt_0_compat, pow2_pos.
  - assert (ulpExp y = (ilog2 y - 52)%Z) as Hn by (unfold ulpExp in *; lia).
    eapply Qle_trans; [by apply roundPos_upper|].
    eapply Qle_trans; [|by apply roundPos_lower].
    apply pow2_le. lia.
Qed.




Lemma roundPos_near (x : Q) :
  0 < x → Qabs (roundPos x - x) <= pow2 (ulpExp x) * (1 # 2).
Proof.
  intros Hx. unfold roundPos. set (p := pow2 (ulpExp x)).
  assert (0 < p) as Hp by apply pow2_pos.
  pose proof (rne_near (x / p)) as H.
  assert (inject_Z (rne (x / p)) * p - x == (inject_Z (rne (x / p)) - x / p) * p) as ->
    by (field; lra).
  rewrite Qabs_Qmult, (Qabs_pos p) by lra.
  rewrite (Qmult_comm p). apply Qmult_le_compat_r; [done|lra].
Qed.

Lemma ulp_small (x : Q) :
  0 < x → pow2 (ulpExp x) <= x * pow2 (-52) + pow2 (-1074).
Proof.
  intros Hx. destruct (ilog2_spec x Hx) as [H _].
  pose proof (pow2_pos (-52)). pose proof (pow2_pos (-1074)).
  unfold ulpExp. destruct (Z.max_spec (ilog2 x - 52) (-1074)) as [[_ ->]|[_ ->]].
  - nra.
  - replace (ilog2 x - 52)%Z with (ilog2 x + -52)%Z by lia. rewrite pow2_add. nra.
Qed.

(** ** [fl] *)

Lemma fl_spec (x : Q) :
  fl x == match x ?= 0 with
          | Eq => 0
          | Gt => roundPos x
          | Lt => - roundPos (- x)
          end.
Proof. apply Qred_correct. Qed.

Lemma fl_pos (x : Q) : 0 < x → fl x == roundPos x.
Proof.
  intros Hx. rewrite fl_spec. by rewrite (proj1 (Qgt_alt x 0) Hx).
Qed.

Lemma fl_neg (x : Q) : x < 0 → fl x == - roundPos (- x).
Proof.
  intros Hx. rewrite fl_spec. by rewrite (proj1 (Qlt_alt x 0) Hx).
Qed.

Lemma fl_zero (x : Q) : x == 0 → fl x = 0.
Proof. intros Hx. unfold fl. by rewrite (proj1 (Qeq_alt x 0) Hx). Qed.



Lemma fl_nonneg (x : Q) : 0 <= x → 0 <= fl x.
Proof.
  intros Hx. destruct (Qcompare_spec x 0) as [H|H|H].
  - rewrite (fl_zero x) by done. lra.
  - lra.
  - rewrite fl_pos by done. by apply roundPos_nonneg.
Qed.

Lemma fl_nonpos (x : Q) : x <= 0 → fl x <= 0.
Proof.
  intros Hx. destruct (Qcompare_spec x 0) as [H|H|H].
  - rewrite (fl_zero x) by done. lra.
  - rewrite fl_neg by done. pose proof (roundPos_nonneg (- x) ltac:(lra)). lra.
  - lra.
Qed.

(** Rounding keeps the order. *)
Lemma fl_mono (x y : Q) : x <= y → fl x <= fl y.
Proof.
  intros Hxy.
  destruct (Qlt_le_dec 0 x) as [Hx|Hx].
  - rewrite (fl_pos x), (fl_pos y) by lra. by apply roundPos_mono.
  - destruct (Qlt_le_dec y 0) as [Hy|Hy].
    + rewrite (fl_neg x), (fl_neg y) by lra.
      pose proof (roundPos_mono (- y) (- x) ltac:(lra) ltac:(lra)). lra.
    + pose proof (fl_nonpos x Hx). pose proof (fl_nonneg y Hy). lra.
Qed.





Lemma sub_le (a d : Q) : double a → 0 <= d → sub a d <= a.
Proof.
  unfold double, sub. intros Ha Hd. rewrite <- Ha at 2. apply fl_mono. lra.
Qed.

(** A rounding is off by at most half a unit in the last place. *)
Lemma fl_near (x : Q) :
  0 <= x → Qabs (fl x - x) <= (x * pow2 (-52) + pow2 (-1074)) * (1 # 2).
Proof.
  intros Hx. destruct (Qcompare_spec x 0) as [H|H|H]; [|lra|].
  - rewrite (fl_zero x) by done.
    setoid_replace (0 - x) with 0 using relation Qeq by lra.
    change (Qabs 0) with 0.
    pose proof (pow2_pos (-52)). pose proof (pow2_pos (-1074)). nra.
  - rewrite fl_pos by done.
    eapply Qle_trans; [by apply roundPos_near|].
    apply Qmult_le_compat_r; [by apply ulp_small|lra].
Qed.

(** [fl] against the kernel's binary64 arithmetic, on [samples]. *)
Lemma fl_agrees : forallb agrees samples = true.
Proof. vm_compute. reflexivity. Qed.

Lemma tenth_value : tenth = valueOf tenthLiteral.
Proof. vm_compute. reflexivity. Qed.

Lemma slack_near (x : Q) : 0 <= x → x - slack x <= fl x.
Proof.
  intros Hx. pose proof (fl_near x Hx) as H.
  apply Qabs_Qle_condition in H as [H _]. unfold slack. lra.
Qed.

End DoubleFacts.

Module LiveMaintenanceFacts.
Import LiveMaintenance.

(** *** Frame reasoning *)

Lemma keeps_whenSet {A} (φ : State → A) (r : option nat) (f : nat → State → State) :
  (∀ x, keeps φ (f x)) → keeps φ (whenSet r f).
Proof. intros H s. destruct r; [apply H|done]. Qed.

Lemma keeps_cancelPendingFrame {A} (φ : State → A) :
  (∀ id, keeps φ (cancelAnimationFrame id)) → keeps φ cancelPendingFrame.
Proof.
  intros H s. unfold cancelPendingFrame.
  destruct (animationFrameRef (hooks s)) as [[|n]|]; [done|apply H|done].
Qed.

Lemma keeps_stopSession {A} (φ : State → A) :
  (∀ x, keeps φ (stopTracks x)) →
  (∀ x, keeps φ (disconnect x)) →
  (∀ x, keeps φ (close x)) →
  (∀ id, keeps φ (cancelAnimationFrame id)) →
  (∀ x, keeps φ (requestClose x)) →
  keeps φ (setConnected false) →
  keeps φ (setIsTalking false) →
  keeps φ stopSession.
Proof.
  intros Ht Hd Hc Hf Hr Hco Hta s. unfold stopSession.
  rewrite Hta, Hco, (keeps_whenSet φ _ _ Hr), (keeps_cancelPendingFrame φ Hf).
  rewrite !(keeps_whenSet φ _ _ Hc), !(keeps_whenSet φ _ _ Hd).
  by rewrite (keeps_whenSet φ _ _ Ht).
Qed.

(** Observations that no part of the teardown touches. *)
Ltac keeps_stop φ :=
  apply (keeps_stopSession φ); intros; intros ?; reflexivity.


Lemma stopSession_cursor (s : State) : cursor (stopSession s) = cursor s.
Proof. keeps_stop cursor. Qed.

Lemma stopSession_decodes (s : State) :
  decodes (browser (stopSession s)) = decodes (browser s).
Proof. keeps_stop (λ s, decodes (browser s)). Qed.

(** The remaining handlers unfold to field updates; the tactics below expose
    them and split on what the handlers test. *)
Ltac handlers :=
  unfold step, startSession, startSession_granted,
    startSession_catch, onopen, onmessage, onmessage_decoded, onended,
    onclose, onerror, onaudioprocess, onmessage_interrupted, drawVisualizer,
    render, cancelPendingFrame, settle, resume, alert,
    requestAnimationFrame, cancelAnimationFrame, createNode, connect,
    newAudioContext.

Ltac split_step := repeat (case_match; try done); cbn.




Lemma step_cursor_other (s : State) (e : Event) :
  calm e →
  (∀ k dur now, e ≠ Decoded k dur now) →
  cursor (step s e) = cursor s.
Proof.
  intros Hc He. destruct e; try by destruct (He k dur now).
  1,2: unfold step; try case_match; try apply stopSession_cursor.
  all: unfold cursor; handlers; cbn in Hc; try rewrite Hc; split_step; done.
Qed.

(** What the resumed handler does to the log and to the cursor. *)
Lemma step_decoded (s : State) (k : nat) (d : Decode) (dur now : Q) :
  decodes (browser s) !! k = Some d →
  waiting d = true →
  playbacks (step s (Decoded k dur now)) =
    playbacks s ++ [{| sourceNode := length (nodes (browser s));
                       playCtx := ctx d;
                       startAt := Qmax (cursor s) now;
                       duration := dur |}]
  ∧ cursor (step s (Decoded k dur now)) =
      if thenInterrupted d then 0%Q else Double.add (Qmax (cursor s) now) dur.
Proof.
  intros Hd Hw. unfold playbacks, cursor. handlers. rewrite Hd, Hw. cbn.
  destruct (thenInterrupted d); cbn; done.
Qed.

Lemma step_decoded_idle (s : State) (k : nat) (dur now : Q) :
  (∀ d, decodes (browser s) !! k = Some d → waiting d = false) →
  step s (Decoded k dur now) = s.
Proof.
  intros H. cbn. destruct (decodes (browser s) !! k) as [d|] eqn:E; [|done].
  by rewrite (H d).
Qed.










(** The run of [firstChunks] gives the numbers that the kernel's binary64
    arithmetic gives. *)
Lemma firstChunks_binary64 :
  oneQuantum = Binary64.valueOf Binary64.quantumClock
  ∧ startAt <$> playbacks (run initial firstChunks) =
      [Binary64.valueOf Binary64.quantumClock; Binary64.valueOf Binary64.secondStart]
  ∧ cursor (run initial firstChunks) = Binary64.valueOf Binary64.lastCursor.
Proof. repeat (lazy zeta; match goal with |- _ ∧ _ => split end); vm_compute; reflexivity. Qed.


(** *** Barge-in *)

(** A message that only says [interrupted] clears the speaking flag and puts
    the cursor back to zero at once; one that also carries audio does so when
    its buffer has been decoded and started. *)
Lemma interrupted_resets :
  (∀ s sid sess msg,
     sessions (browser s) !! sid = Some sess →
     interrupted msg = true → inlineData msg = None →
     let s' := step s (OnMessage sid msg) in
     isTalking (hooks s') = false ∧ cursor s' = 0%Q)
  ∧ (∀ s k d dur now,
       decodes (browser s) !! k = Some d → waiting d = true →
       thenInterrupted d = true →
       let s' := step s (Decoded k dur now) in
       isTalking (hooks s') = false ∧ cursor s' = 0%Q).
Proof.
  split.
  - intros s sid sess msg Hs Hi Ha s'. subst s'. unfold cursor. cbn.
    rewrite Hs. unfold onmessage. rewrite Ha, Hi. done.
  - intros s k d dur now Hd Hw Hi s'. subst s'. unfold cursor. cbn.
    rewrite Hd, Hw. unfold onmessage_decoded. cbn. rewrite Hi. done.
Qed.

(** On receipt of a message that carries audio the speaking flag is set, and
    while there is an output context nothing else happens before the decode
    returns, whatever the message says about an interruption. *)
Lemma onmessage_audio (s : State) (sid : nat) (sess : Session) (msg : Message) (oc : nat) :
  sessions (browser s) !! sid = Some sess →
  is_Some (inlineData msg) →
  outputContextRef (hooks s) = Some oc →
  let s' := step s (OnMessage sid msg) in
  isTalking (hooks s') = true ∧ cursor s' = cursor s
  ∧ playbacks s' = playbacks s.
Proof.
  intros Hs [data Hd] Ho. cbn. rewrite Hs. unfold onmessage. rewrite Hd. cbn.
  rewrite Ho. done.
Qed.

(** C4 on the code.  The interrupted message does put the cursor back to
    zero and clear the flag, but a chunk that is still being decoded at that
    moment is started afterwards and moves the cursor to its end: in
    [interruptedWhileDecoding] chunk B, decoded when the clock reads 3, is
    started at 3.5, the end of chunk A.  And a message that carries audio
    together with [interrupted] clears nothing on receipt: in
    [interruptedWithAudio] the flag is set, the cursor stays at 3.5, the
    decode fails, and the next chunk, decoded when the clock reads 3, is
    again started at 3.5. *)
Theorem interrupted_misses_pending_chunk :
  (let s := run initial (take 5 interruptedWhileDecoding) in
   isTalking (hooks s) = false ∧ cursor s = 0%Q
   ∧ playbacks s = []
   ∧ decodes (browser s) !! 0 =
       Some {| waiting := true; ctx := 1; outputNode := 0; thenInterrupted := false |})
  ∧ (let s := run initial interruptedWhileDecoding in
     playbacks s =
       [ {| sourceNode := 4; playCtx := 1; startAt := 3; duration := 1 # 2 |};
         {| sourceNode := 5; playCtx := 1; startAt := 7 # 2; duration := 1 # 2 |} ])
  ∧ (let s := run initial (take 6 interruptedWithAudio) in
     isTalking (hooks s) = true ∧ cursor s = (7 # 2)%Q)
  ∧ (let s := run initial (take 7 interruptedWithAudio) in
     isTalking (hooks s) = true ∧ cursor s = (7 # 2)%Q)
  ∧ (let s := run initial interruptedWithAudio in
     playbacks s =
       [ {| sourceNode := 4; playCtx := 1; startAt := 3; duration := 1 # 2 |};
         {| sourceNode := 5; playCtx := 1; startAt := 7 # 2; duration := 1 # 2 |} ]).
Proof. repeat (lazy zeta; match goal with |- _ ∧ _ => split end); vm_compute; reflexivity. Qed.

(** *** The teardown *)

Lemma hooks_whenSet (r : option nat) (f : nat → State → State) (s : State) :
  (∀ x, keeps hooks (f x)) → hooks (whenSet r f s) = hooks s.
Proof. intros H. by apply keeps_whenSet. Qed.

Lemma stopSession_teardown (s : State) : stopSession s = teardown (hooks s) s.
Proof.
  unfold stopSession, teardown, cancelPendingFrame.
  rewrite !hooks_whenSet by (intros ? ?; reflexivity).
  destruct (animationFrameRef (hooks s)) as [[|n]|];
    unfold cancelAnimationFrame, mapFrames, mapBrowser; cbn [hooks];
    rewrite !hooks_whenSet by (intros ? ?; reflexivity); done.
Qed.

Lemma teardown_hooks (h : Hooks) (s : State) :
  hooks (teardown h s) = hooks (setIsTalking false (setConnected false s)).
Proof.
  unfold teardown. cbn.
  rewrite !hooks_whenSet by (intros ? ?; reflexivity).
  destruct (animationFrameRef h) as [[|n]|]; cbn;
    rewrite !hooks_whenSet by (intros ? ?; reflexivity); done.
Qed.

Lemma teardown_browser (h : Hooks) (s : State) :
  browser (teardown h s) = tornDown h (browser s).
Proof.
  destruct h as [co ta ic oc st pr sr nx se an af], s as [hs []].
  unfold teardown, tornDown. cbn.
  destruct st, pr, sr, an, ic, oc, af as [[|id]|], se; reflexivity.
Qed.

Lemma state_eq (s1 s2 : State) :
  hooks s1 = hooks s2 → browser s1 = browser s2 → s1 = s2.
Proof. destruct s1, s2. cbn. by intros -> ->. Qed.

Lemma lookup_alterAt {A} (g : A → A) (r : option nat) (l : list A) (i : nat) :
  alterAt g r l !! i = if decide (r = Some i) then g <$> l !! i else l !! i.
Proof.
  destruct r as [x|]; cbn; [|done].
  rewrite list_lookup_alter. repeat case_decide; congruence.
Qed.

(** Applying an idempotent update at the same places once more changes
    nothing, whether or not the places coincide. *)
Lemma alterAt_again {A} (g : A → A) (rs : list (option nat)) (l : list A) :
  (∀ a, g (g a) = g a) →
  foldr (alterAt g) (foldr (alterAt g) l rs) rs = foldr (alterAt g) l rs.
Proof.
  intros Hg. apply list_eq. intros i.
  assert (∀ l' : list A, foldr (alterAt g) l' rs !! i =
            if decide (Some i ∈ rs) then g <$> l' !! i else l' !! i) as Hlook.
  { induction rs as [|r rs IH]; intros l'; cbn.
    - case_decide as H; [by apply elem_of_nil in H|done].
    - rewrite lookup_alterAt, IH.
      destruct (decide (r = Some i)) as [->|Hr];
        destruct (decide (Some i ∈ rs)) as [Hin|Hin];
        case_decide as Hc; try done.
      + destruct (l' !! i); cbn; by rewrite ?Hg.
      + destruct Hc. apply list_elem_of_here.
      + destruct Hc. apply list_elem_of_here.
      + destruct Hc. by apply list_elem_of_further.
      + apply elem_of_cons in Hc as [?|?]; congruence. }
  rewrite !Hlook. case_decide; [|done].
  destruct (l !! i); cbn; by rewrite ?Hg.
Qed.

Lemma tornDown_again (h : Hooks) (b : Browser) :
  tornDown h (tornDown h b) = tornDown h b.
Proof.
  unfold tornDown. cbn. f_equal.
  - apply (alterAt_again closedContext [outputContextRef h; inputContextRef h]). done.
  - apply (alterAt_again (fmap (λ _, ended)) [streamRef h]).
    intros a. by rewrite <- list_fmap_compose.
  - apply (alterAt_again disconnected [analyserRef h; sourceRef h; processorRef h]). done.
  - apply (alterAt_again closing [sessionRef h]). done.
  - destruct (animationFrameRef h) as [[|n]|]; [done| |done].
    by apply list_filter_filter_l.
Qed.

Lemma stopSession_again (s : State) : stopSession (stopSession s) = stopSession s.
Proof.
  rewrite (stopSession_teardown (stopSession s)).
  rewrite (stopSession_teardown s).
  set (h := hooks s). set (s' := teardown h s).
  assert (hooks s' = hooks (setIsTalking false (setConnected false s))) as Hh
    by apply teardown_hooks.
  apply state_eq.
  - rewrite teardown_hooks, Hh. done.
  - assert (browser s' = tornDown h (browser s)) as Hb by apply teardown_browser.
    rewrite teardown_browser, Hh, Hb.
    change (tornDown h (tornDown h (browser s)) = tornDown h (browser s)).
    apply tornDown_again.
Qed.

(** What [stopSession] leaves behind, for every object a ref points to. *)
Lemma stopSession_complete (s : State) :
  let s' := stopSession s in
  connected (hooks s') = false ∧ isTalking (hooks s') = false
  ∧ (∀ st tracks, streamRef (hooks s) = Some st →
       streams (browser s') !! st = Some tracks → ∀ t, t ∈ tracks → t = ended)
  ∧ (∀ n a, processorRef (hooks s) = Some n ∨ sourceRef (hooks s) = Some n
            ∨ analyserRef (hooks s) = Some n →
       nodes (browser s') !! n = Some a → outputs a = [])
  ∧ (∀ c a, inputContextRef (hooks s) = Some c ∨ outputContextRef (hooks s) = Some c →
       contexts (browser s') !! c = Some a → state a = closed)
  ∧ (∀ id, animationFrameRef (hooks s) = Some (S id) → S id ∉ frames (browser s'))
  ∧ (∀ sid a, sessionRef (hooks s) = Some sid →
       sessions (browser s') !! sid = Some a → closeRequested a = true).
Proof.
  cbn zeta. rewrite stopSession_teardown, teardown_hooks, teardown_browser.
  unfold tornDown. cbn.
  split; [done|]. split; [done|]. repeat split.
  - intros st tracks -> H t Ht. cbn in H. rewrite list_lookup_alter in H.
    rewrite decide_True in H by done.
    destruct (streams (browser s) !! st) as [l|]; [|done].
    cbn in H. inversion H; subst tracks.
    apply list_elem_of_fmap in Ht as (? & -> & _). done.
  - intros n a Hn H. rewrite !lookup_alterAt in H.
    repeat case_decide; try (destruct Hn as [?|[?|?]]; congruence);
      destruct (nodes (browser s) !! n) as [b|]; try done;
      cbn in H; inversion H; done.
  - intros c a Hc H. rewrite !lookup_alterAt in H.
    repeat case_decide; try (destruct Hc as [?|?]; congruence);
      destruct (contexts (browser s) !! c) as [b|]; try done;
      cbn in H; inversion H; done.
  - intros id -> H. apply list_elem_of_filter in H as [H _]. done.
  - intros sid a -> H. cbn in H. rewrite list_lookup_alter in H.
    rewrite decide_True in H by done.
    destruct (sessions (browser s) !! sid) as [b|]; [|done].
    cbn in H. inversion H; done.
Qed.

(** Stopping twice leaves the state that stopping once leaves, for every
    state; stopping a session that was never started changes nothing; and
    [stopSession] leaves the component disconnected, with every track of the
    stream that [streamRef] holds stopped and the animation frame that
    [animationFrameRef] holds no longer pending.  When the refs account for
    all that is live (every other stream has ended, no other frame is
    pending), no track at all is live and no frame at all is pending
    afterwards. *)
Lemma stopSession_releases_refs :
  (∀ s, stopSession (stopSession s) = stopSession s)
  ∧ stopSession initial = initial
  ∧ (∀ s, let s' := stopSession s in
       connected (hooks s') = false
       ∧ (∀ st tracks, streamRef (hooks s') = Some st →
            streams (browser s') !! st = Some tracks → ∀ t, t ∈ tracks → t = ended)
       ∧ (∀ id, animationFrameRef (hooks s') = Some (S id) →
            S id ∉ frames (browser s')))
  ∧ (∀ s,
       (∀ st tracks t, streams (browser s) !! st = Some tracks → t ∈ tracks →
          streamRef (hooks s) = Some st ∨ t = ended) →
       (∀ id, id ∈ frames (browser s) →
          id ≠ 0 ∧ animationFrameRef (hooks s) = Some id) →
       let s' := stopSession s in
       (∀ st tracks t, streams (browser s') !! st = Some tracks → t ∈ tracks →
          t = ended)
       ∧ frames (browser s') = []).
Proof.
  split; [exact stopSession_again|]. split; [reflexivity|]. split.
  - intros s s'.
    destruct (stopSession_complete s) as (Hc & _ & Ht & _ & _ & Hf & _).
    assert (streamRef (hooks s') = streamRef (hooks s)
            ∧ animationFrameRef (hooks s') = animationFrameRef (hooks s)) as [Hst Haf].
    { unfold s'. rewrite stopSession_teardown, teardown_hooks. done. }
    split; [exact Hc|]. split.
    + intros st tracks H. rewrite Hst in H. by apply Ht.
    + intros id H. rewrite Haf in H. by apply Hf.
  - intros s Hlive Hframes. cbn zeta.
    rewrite stopSession_teardown, teardown_browser. cbn. split.
    + intros st tracks t H Ht. rewrite lookup_alterAt in H.
      case_decide as Hst.
      * destruct (streams (browser s) !! st) as [l|]; [|done].
        cbn in H. inversion H; subst tracks.
        apply list_elem_of_fmap in Ht as (? & -> & _). done.
      * destruct (Hlive st tracks t H Ht) as [?|?]; [congruence|done].
    + assert (∀ (l : list nat) (P : nat → Prop) `{!∀ x, Decision (P x)},
                (∀ x, x ∈ l → ¬ P x) → filter P l = []) as Hnone.
      { intros l P ? Hl. induction l as [|x l IH]; [done|].
        rewrite filter_cons_False by (apply Hl, list_elem_of_here).
        apply IH. intros y Hy. by apply Hl, list_elem_of_further. }
      destruct (animationFrameRef (hooks s)) as [[|n]|] eqn:Haf.
      2: { apply Hnone. intros x Hx Hne. destruct (Hframes x Hx). congruence. }
      all: destruct (frames (browser s)) as [|id0 l]; [done|].
      all: destruct (Hframes id0) as [? ?]; [apply list_elem_of_here|congruence].
Qed.

(** C3 on the code.  Stopping twice is stopping once, and stopping a
    component that was never started changes nothing.  But what a stop
    leaves is not always without live tracks or pending frames: the teardown
    reaches only what the refs hold, and every run of [startSession]
    overwrites them.  After [overlappingStarts] the component is connected,
    so the button stops; one stop, two stops, or the unmount leave the
    component disconnected with the track of the first stream live, its
    contexts running and its session not asked to close.  After
    [threeStarts] two render loops run, the stop cancels the frame of one,
    and the other goes on requesting frames. *)
Theorem stopSession_misses_overlapping_start :
  (∀ s, stopSession (stopSession s) = stopSession s)
  ∧ stopSession initial = initial
  ∧ (let s := run initial overlappingStarts in
     connected (hooks s) = true
     ∧ step s Click = stopSession s
     ∧ step s Unmount = stopSession s
     ∧ connected (hooks (stopSession s)) = false
     ∧ streams (browser (stopSession s)) = [[live]; [ended]]
     ∧ streams (browser (stopSession (stopSession s))) = [[live]; [ended]]
     ∧ state <$> contexts (browser (stopSession s)) = [running; running; closed; closed]
     ∧ closeRequested <$> sessions (browser (stopSession s)) = [false; true])
  ∧ (let s := run initial threeStarts in
     frames (browser s) = [1; 2]
     ∧ animationFrameRef (hooks s) = Some 2
     ∧ frames (browser (stopSession s)) = [1]
     ∧ frames (browser (stopSession (stopSession s))) = [1]
     ∧ frames (browser (step (stopSession s) (AnimationFrame 1))) = [3]).
Proof.
  split; [exact stopSession_again|].
  repeat (lazy zeta; match goal with |- _ ∧ _ => split end); vm_compute; reflexivity.
Qed.

(** C2 on the code.  When the remote side closes an open session, or reports
    an error, the callback marks the component disconnected and cancels the
    animation frame, and nothing else: the microphone track stays live, the
    capture nodes stay connected, both contexts keep running and no close of
    the session is requested.  [stopSession] on the same state does all of
    it. *)
Theorem remote_close_skips_teardown :
  let s := run initial openSession in
  stillCapturing (step s (OnClose 0))
  ∧ stillCapturing (step s (OnError 0))
  ∧ released (stopSession s).
Proof. repeat split; reflexivity. Qed.

(** *** Capture starts at [onopen] *)

Lemma kinds_alter (g : AudioNode → AudioNode) (n : nat) (l : list AudioNode) :
  (∀ a, kind (g a) = kind a) → kind <$> alter g n l = kind <$> l.
Proof.
  intros Hg. apply list_eq. intros i.
  rewrite !list_lookup_fmap, list_lookup_alter. case_decide; [subst i|done].
  destruct (l !! n); cbn; by rewrite ?Hg.
Qed.

Lemma kinds_alterAt (g : AudioNode → AudioNode) (r : option nat) (l : list AudioNode) :
  (∀ a, kind (g a) = kind a) → kind <$> alterAt g r l = kind <$> l.
Proof. intros Hg. destruct r; [by apply kinds_alter|done]. Qed.

Lemma stopSession_kinds (s : State) : kinds (stopSession s) = kinds s.
Proof.
  unfold kinds. rewrite stopSession_teardown, teardown_browser. cbn.
  by rewrite !kinds_alterAt.
Qed.

(** The node kinds an event adds to the store. *)
Lemma step_kinds (s : State) (e : Event) :
  ∃ new, kinds (step s e) = kinds s ++ new
    ∧ ∀ k, k ∈ new →
        captureKind k = false
        ∨ ∃ sid canvas, e = OnOpen sid canvas
            ∧ ∀ sid', k = ScriptProcessor sid' → sid' = sid.
Proof.
  assert (∀ (l : list NodeKind), l = l ++ []) as Hnil
    by (intros; by rewrite app_nil_r).
  assert (∀ k : NodeKind, k ∉ @nil NodeKind) as Hno
    by (intros k H; by apply elem_of_nil in H).
  destruct e.
  1,2: exists []; split; [|by intros ? ?%Hno]; unfold step;
       try case_match; rewrite ?stopSession_kinds; apply Hnil.
  all: unfold kinds; handlers; repeat case_match; cbn -[fmap app];
       rewrite ?kinds_alter by done; rewrite ?fmap_app; cbn -[fmap app];
       rewrite ?kinds_alter by done; rewrite <- ?app_assoc; cbn -[fmap app].
  all: try (exists []; split; [apply Hnil|by intros ? ?%Hno]).
  all: rewrite ?list_fmap_singleton; cbn [kind];
       eexists; (split; [reflexivity|]); intros k' Hk;
       repeat (apply elem_of_cons in Hk as [->|Hk]); try (by apply Hno in Hk);
       try (by left); right; do 2 eexists; (split; [reflexivity|]);
       intros sid' ?; congruence.
Qed.

Lemma step_sent (s : State) (e : Event) :
  sent (browser (step s e)) = sent (browser s)
  ∨ ∃ n samples sid, e = AudioProcess n samples
      ∧ kinds s !! n = Some (ScriptProcessor sid)
      ∧ sent (browser (step s e)) = sent (browser s) ++ [(sid, samples)].
Proof.
  destruct e.
  1,2: left; unfold step; try case_match; try done;
       by apply (keeps_stopSession (λ s, sent (browser s))).
  all: try (left; handlers; split_step; done).
  unfold step.
  destruct (kind <$> nodes (browser s) !! n) as [[]|] eqn:E; try by left.
  right. exists n, samples, session.
  unfold kinds. by rewrite list_lookup_fmap.
Qed.

Lemma step_connected (s : State) (e : Event) :
  connected (hooks (step s e)) = true →
  connected (hooks s) = true ∨ ∃ sid canvas, e = OnOpen sid canvas.
Proof.
  destruct e; eauto.
  1,2: unfold step; try case_match; try (by left);
       try (by destruct (stopSession_complete s) as [-> _]); eauto.
  all: handlers; split_step; eauto.
Qed.

Lemma run_snoc (s : State) (tr : list Event) (e : Event) :
  run s (tr ++ [e]) = step (run s tr) e.
Proof. unfold run. by rewrite fold_left_app. Qed.

Lemma alter_chain {A} (f g h : A → A) (l : list A) (a b c : A) :
  alter h (S (S (length l))) (alter g (S (length l)) (alter f (length l)
    (((l ++ [a]) ++ [b]) ++ [c]))) = l ++ [f a; g b; h c].
Proof. induction l as [|x l IH]; cbn; [done|]. f_equal. exact IH. Qed.

(** What [onopen] builds: source → analyser → processor → destination. *)
Lemma onopen_wires (s : State) (sid : nat) (sess : Session) (canvas : bool) (ic : nat) :
  inputContextRef (hooks s) = Some ic →
  let s' := onopen sid sess canvas s in
  let n := length (nodes (browser s)) in
  connected (hooks s') = true
  ∧ nodes (browser s') = nodes (browser s) ++
      [ {| kind := MediaStreamSource (capturedStream sess); context := ic;
           outputs := [ToNode (S n)] |};
        {| kind := Analyser; context := ic; outputs := [ToNode (S (S n))] |};
        {| kind := ScriptProcessor sid; context := ic; outputs := [ToDestination] |} ]
  ∧ sourceRef (hooks s') = Some n
  ∧ analyserRef (hooks s') = Some (S n)
  ∧ processorRef (hooks s') = Some (S (S n)).
Proof.
  intros Hic. cbn zeta. unfold onopen. cbn. rewrite Hic. cbn.
  unfold drawVisualizer. cbn. unfold render. cbn.
  destruct canvas; cbn; rewrite !length_app; cbn [length];
    rewrite !Nat.add_1_r; (split; [done|]); (split; [|done]).
  all: by rewrite alter_chain.
Qed.

(** Before the [onopen] of session [sid] there is no processor that feeds
    [sid] and nothing has been sent to it. *)
Lemma unopened_session (tr : list Event) (sid : nat) :
  (∀ canvas, OnOpen sid canvas ∉ tr) →
  (ScriptProcessor sid ∉ kinds (run initial tr))
  ∧ ∀ samples, (sid, samples) ∉ sent (browser (run initial tr)).
Proof.
  induction tr as [|e tr IH] using rev_ind; intros Htr.
  { split; [|intros samples]; intros H; by apply elem_of_nil in H. }
  destruct IH as [IHk IHs].
  { intros canvas H. apply (Htr canvas), elem_of_app. by left. }
  rewrite run_snoc. split.
  - destruct (step_kinds (run initial tr) e) as (new & -> & Hnew).
    intros [H|H]%elem_of_app; [done|].
    destruct (Hnew _ H) as [?|(sid0 & canvas & -> & Hsid)]; [done|].
    rewrite (Hsid sid eq_refl) in Htr.
    apply (Htr canvas), elem_of_app. right. apply list_elem_of_here.
  - intros samples.
    destruct (step_sent (run initial tr) e) as [->|(n & x & sid' & _ & Hk & ->)];
      [by apply IHs|].
    intros [H|H]%elem_of_app; [by apply IHs in H|].
    apply list_elem_of_singleton in H. inversion H; subst sid' x.
    apply IHk. by eapply list_elem_of_lookup_2.
Qed.

(** Before any [onopen] the component is not connected, no node of the
    capture chain exists and nothing has been sent. *)
Lemma unopened_component (tr : list Event) :
  (∀ sid canvas, OnOpen sid canvas ∉ tr) →
  connected (hooks (run initial tr)) = false
  ∧ (∀ k, k ∈ kinds (run initial tr) → captureKind k = false)
  ∧ sent (browser (run initial tr)) = [].
Proof.
  induction tr as [|e tr IH] using rev_ind; intros Htr.
  { split; [done|]. split; [|done]. intros k H. by apply elem_of_nil in H. }
  destruct IH as (IHc & IHk & IHs).
  { intros sid canvas H. apply (Htr sid canvas), elem_of_app. by left. }
  assert (∀ sid canvas, e ≠ OnOpen sid canvas) as He.
  { intros sid canvas ->. apply (Htr sid canvas), elem_of_app.
    right. apply list_elem_of_here. }
  rewrite run_snoc. split; [|split].
  - destruct (connected (hooks (step (run initial tr) e))) eqn:E; [|done].
    apply step_connected in E as [E|(sid & canvas & E)]; [congruence|].
    by destruct (He sid canvas).
  - destruct (step_kinds (run initial tr) e) as (new & -> & Hnew).
    intros k [H|H]%elem_of_app; [by apply IHk|].
    destruct (Hnew _ H) as [?|(sid0 & canvas & E & _)]; [done|].
    by destruct (He sid0 canvas).
  - destruct (step_sent (run initial tr) e) as [->|(n & x & sid' & _ & Hk & _)];
      [done|].
    apply list_elem_of_lookup_2, IHk in Hk. done.
Qed.

(** C5. The capture chain is built by the [onopen] callback: microphone
    source into analyser into frame processor into the destination, the
    processor feeding the session that opened.  In every run of the
    component, as long as no [onopen] has fired the component is not
    connected, no node of the capture chain exists and no frame has been
    sent; and as long as the [onopen] of a given session has not fired, no
    processor feeds that session and no frame has been sent to it. *)
Theorem capture_only_after_onopen :
  (∀ s sid sess canvas ic,
     sessions (browser s) !! sid = Some sess →
     inputContextRef (hooks s) = Some ic →
     let s' := step s (OnOpen sid canvas) in
     let n := length (nodes (browser s)) in
     connected (hooks s') = true
     ∧ nodes (browser s') = nodes (browser s) ++
         [ {| kind := MediaStreamSource (capturedStream sess); context := ic;
              outputs := [ToNode (S n)] |};
           {| kind := Analyser; context := ic; outputs := [ToNode (S (S n))] |};
           {| kind := ScriptProcessor sid; context := ic;
              outputs := [ToDestination] |} ]
     ∧ sourceRef (hooks s') = Some n
     ∧ analyserRef (hooks s') = Some (S n)
     ∧ processorRef (hooks s') = Some (S (S n)))
  ∧ (∀ tr, (∀ sid canvas, OnOpen sid canvas ∉ tr) →
       let s := run initial tr in
       connected (hooks s) = false
       ∧ (∀ k, k ∈ kinds s → captureKind k = false)
       ∧ sent (browser s) = [])
  ∧ (∀ tr sid, (∀ canvas, OnOpen sid canvas ∉ tr) →
       let s := run initial tr in
       (ScriptProcessor sid ∉ kinds s)
       ∧ ∀ samples, (sid, samples) ∉ sent (browser s)).
Proof.
  split; [|split].
  - intros s sid sess canvas ic Hs Hic. cbn [step]. rewrite Hs.
    by apply onopen_wires.
  - exact unopened_component.
  - exact unopened_session.
Qed.

(** A frame reaches session 0 of [twoSessions], none reaches session 1. *)
Lemma capture_only_after_onopen_witness :
  (let s := run initial [Click; MicGranted 0 1] in
   let s' := step s (OnOpen 0 true) in
   connected (hooks s') = true
   ∧ nodes (browser s') = nodes (browser s) ++
       [ {| kind := MediaStreamSource 0; context := 0; outputs := [ToNode 2] |};
         {| kind := Analyser; context := 0; outputs := [ToNode 3] |};
         {| kind := ScriptProcessor 0; context := 0; outputs := [ToDestination] |} ]
   ∧ sourceRef (hooks s') = Some 1
   ∧ analyserRef (hooks s') = Some 2
   ∧ processorRef (hooks s') = Some 3)
  ∧ (let s := run initial [Click; MicGranted 0 1; AudioProcess 0 [(1 # 2)%Q]] in
     connected (hooks s) = false
     ∧ (∀ k, k ∈ kinds s → captureKind k = false)
     ∧ sent (browser s) = [])
  ∧ (let s := run initial twoSessions in
     sent (browser s) = [(0, [(1 # 2)%Q])]
     ∧ (ScriptProcessor 1 ∉ kinds s)
     ∧ ∀ samples, (1, samples) ∉ sent (browser s)).
Proof.
  split; [|split].
  - apply (proj1 capture_only_after_onopen (run initial [Click; MicGranted 0 1]) 0
      {| capturedStream := 0; capturedOutputNode := 0; closeRequested := false |}
      true 0); reflexivity.
  - apply (proj1 (proj2 capture_only_after_onopen)).
    intros sid canvas H.
    repeat (apply elem_of_cons in H as [H|H]; [discriminate|]).
    by apply elem_of_nil in H.
  - split; [reflexivity|].
    apply (proj2 (proj2 capture_only_after_onopen) twoSessions 1).
    intros canvas H.
    repeat (apply elem_of_cons in H as [H|H]; [discriminate|]).
    by apply elem_of_nil in H.
Defined.

(** *** Microphone denial *)

Lemma idle_step (s : State) (e : Event) :
  e ≠ Click → idle s →
  idle (step s e) ∧ alerts (browser (step s e)) = alerts (browser s)
  ∧ micRequests (browser (step s e)) = micRequests (browser s).
Proof.
  intros He [Hc Hs Hm].
  assert (∀ r, micRequests (browser s) !! r ≠ Some true) as Hr.
  { intros r H. by apply (Forall_lookup_1 _ _ _ _ Hm) in H. }
  assert (∀ sid, sessions (browser s) !! sid = None) as Hsid.
  { intros sid. by rewrite Hs, lookup_nil. }
  destruct e; try done; cbn [step]; rewrite ?Hsid; try done.
  - (* the effect cleanup *)
    destruct (stopSession_complete s) as (Hc' & _).
    assert (alerts (browser (stopSession s)) = alerts (browser s)
            ∧ micRequests (browser (stopSession s)) = micRequests (browser s)
            ∧ sessions (browser (stopSession s)) = []) as (Ha & Hm' & Hs').
    { rewrite stopSession_teardown, teardown_browser. cbn. rewrite Hs.
      by destruct (sessionRef (hooks s)). }
    split; [|done]. split; [done..|by rewrite Hm'].
  - destruct (micRequests (browser s) !! r) as [[]|] eqn:E; [by destruct (Hr r)|done..].
  - destruct (micRequests (browser s) !! r) as [[]|] eqn:E; [by destruct (Hr r)|done..].
  - destruct (kind <$> nodes (browser s) !! n) as [[]|]; done.
  - destruct (decodes (browser s) !! k) as [d|]; [|done].
    destruct (waiting d); [|done]. unfold onmessage_decoded. cbn.
    unfold onmessage_interrupted. destruct (thenInterrupted d); done.
  - unfold onended. case_match; [|done]. case_match; done.
  - case_match; [|done]. unfold render. cbn. case_match; done.
Qed.

Lemma idle_run (tr : list Event) (s : State) :
  Click ∉ tr → idle s →
  idle (run s tr) ∧ alerts (browser (run s tr)) = alerts (browser s)
  ∧ micRequests (browser (run s tr)) = micRequests (browser s).
Proof.
  revert s. induction tr as [|e tr IH]; intros s Htr Hs; [done|].
  apply not_elem_of_cons in Htr as [He Htr].
  change (run s (e :: tr)) with (run (step s e) tr).
  destruct (idle_step s e) as (Hi & Ha & Hm); [done..|].
  destruct (IH (step s e) Htr Hi) as (? & -> & ->). done.
Qed.

(** C6. When the microphone promise is rejected, [startSession] ends in its
    catch block: one alert is shown, the request is settled and no new one
    is issued, no remote session is created and the component stays
    disconnected.  After a first start that was denied, whatever comes next
    short of another click leaves the component disconnected, without any
    session, with that one request and that one alert. *)
Theorem mic_denied_stays_idle :
  (∀ s r, micRequests (browser s) !! r = Some true →
     let s' := step s (MicDenied r) in
     alerts (browser s') =
       alerts (browser s) ++ ["Microphone access required for Live Monitor."]
     ∧ connected (hooks s') = connected (hooks s)
     ∧ sessions (browser s') = sessions (browser s)
     ∧ sessionRef (hooks s') = sessionRef (hooks s)
     ∧ micRequests (browser s') = <[r := false]> (micRequests (browser s)))
  ∧ (∀ tr, Click ∉ tr →
       let s := run initial (Click :: MicDenied 0 :: tr) in
       connected (hooks s) = false
       ∧ sessions (browser s) = []
       ∧ micRequests (browser s) = [false]
       ∧ alerts (browser s) = ["Microphone access required for Live Monitor."]).
Proof.
  split.
  - intros s r Hr. cbn. rewrite Hr. done.
  - intros tr Htr. cbn zeta.
    change (run initial (Click :: MicDenied 0 :: tr))
      with (run (run initial [Click; MicDenied 0]) tr).
    destruct (idle_run tr (run initial [Click; MicDenied 0]) Htr) as ([] & -> & ->).
    { split; [done..|]. cbn. by repeat constructor. }
    done.
Qed.

(** A denied start, followed by events that find nothing to act on. *)
Lemma mic_denied_stays_idle_witness :
  (let s := run initial [Click] in
   let s' := step s (MicDenied 0) in
   alerts (browser s') =
     alerts (browser s) ++ ["Microphone access required for Live Monitor."]
   ∧ connected (hooks s') = connected (hooks s)
   ∧ sessions (browser s') = sessions (browser s)
   ∧ sessionRef (hooks s') = sessionRef (hooks s)
   ∧ micRequests (browser s') = <[0 := false]> (micRequests (browser s)))
  ∧ (let s := run initial [Click; MicDenied 0; MicGranted 0 1; OnOpen 0 true;
                           Unmount] in
     connected (hooks s) = false
     ∧ sessions (browser s) = []
     ∧ micRequests (browser s) = [false]
     ∧ alerts (browser s) = ["Microphone access required for Live Monitor."]).
Proof.
  split.
  - apply (proj1 mic_denied_stays_idle (run initial [Click]) 0). reflexivity.
  - apply (proj2 mic_denied_stays_idle [MicGranted 0 1; OnOpen 0 true; Unmount]).
    intros H. repeat (apply elem_of_cons in H as [H|H]; [discriminate|]).
    by apply elem_of_nil in H.
Defined.

End LiveMaintenanceFacts.

Module VibrationAnalyzerFacts.
Import VibrationAnalyzer.

(** C9. With neither a waveform nor a spectrum image, [runAnalysis] shows
    an alert and returns: no request is made, and the component (with its
    result and its analyzing flag) and the stored feedback are as before. *)
Theorem runAnalysis_without_images (s : State) :
  waveformImage (component s) = None →
  spectrumImage (component s) = None →
  alerts (runAnalysis s) =
    alerts s ++ ["Please upload at least one image (Waveform or Spectrum)."]
  ∧ requests (runAnalysis s) = requests s
  ∧ component (runAnalysis s) = component s
  ∧ localStorage (runAnalysis s) = localStorage s.
Proof. intros Hw Hs. unfold runAnalysis. rewrite Hw, Hs. done. Qed.

Lemma runAnalysis_without_images_witness :
  alerts (runAnalysis initial) =
    alerts initial ++ ["Please upload at least one image (Waveform or Spectrum)."]
  ∧ requests (runAnalysis initial) = requests initial
  ∧ component (runAnalysis initial) = component initial
  ∧ localStorage (runAnalysis initial) = localStorage initial.
Proof. apply (runAnalysis_without_images initial); reflexivity. Defined.

(** *** A failed analysis *)

Lemma isPending_runAnalysis (s : State) :
  (present (waveformImage (component s)) || present (spectrumImage (component s))) = true →
  isPending (length (requests s)) (runAnalysis s) = true.
Proof.
  intros H. unfold runAnalysis, isPending.
  destruct (present (waveformImage (component s))),
           (present (spectrumImage (component s))); try done; cbn.
  all: by rewrite lookup_app_r, Nat.sub_diag.
Qed.

(** C7 as stated fails: a failed analysis of [reviewed] clears the thumb the
    user had given, so the component is not what it was before the action. *)
Lemma analysis_failure_clears_feedback :
  let s' := runAnalysis_rejected (length (requests reviewed)) (clickRun reviewed) in
  feedbackGiven (component reviewed) = Some up
  ∧ feedbackGiven (component s') = None
  ∧ component s' ≠ component reviewed.
Proof.
  cbn zeta. split; [reflexivity|]. split; [reflexivity|].
  intros H. apply (f_equal feedbackGiven) in H. discriminate H.
Qed.

(** C7, amended.  When the analysis request of an action started from the
    button is rejected, an alert reports it, and the component is what it
    was before the action except that [feedbackGiven] is [null]: the
    previous result, the images, the metadata and the analyzing flag are as
    before, and so is local storage with the feedback log. *)
Theorem analysis_failure_keeps_result (s : State) :
  analyzing (component s) = false →
  (present (waveformImage (component s)) || present (spectrumImage (component s))) = true →
  let s' := runAnalysis_rejected (length (requests s)) (clickRun s) in
  alerts s' = alerts s ++ ["Analysis failed."]
  ∧ component s' = component (setFeedbackGiven None s)
  ∧ result (component s') = result (component s)
  ∧ localStorage s' = localStorage s.
Proof.
  intros Ha Hp. cbn zeta. unfold clickRun. rewrite Ha.
  unfold runAnalysis_rejected. rewrite isPending_runAnalysis by done.
  unfold runAnalysis.
  destruct (present (waveformImage (component s))),
           (present (spectrumImage (component s))); try done; cbn.
  all: rewrite <- Ha; done.
Qed.

Lemma analysis_failure_keeps_result_witness :
  let s' := runAnalysis_rejected (length (requests reviewed)) (clickRun reviewed) in
  alerts s' = alerts reviewed ++ ["Analysis failed."]
  ∧ component s' = component (setFeedbackGiven None reviewed)
  ∧ result (component s') = result (component reviewed)
  ∧ localStorage s' = localStorage reviewed.
Proof. apply (analysis_failure_keeps_result reviewed); reflexivity. Defined.

(** *** The view after an upload *)

Lemma autoSwitch_view (s : State) :
  activeView (component (autoSwitch s)) =
    default (activeView (component s)) (priorityView s)
  ∧ deps (autoSwitch s) = deps s.
Proof.
  unfold autoSwitch, priorityView, deps.
  destruct (present (historicalImage (component s))),
           (present (spectrumImage (component s))),
           (present (waveformImage (component s))); done.
Qed.

Lemma priorityView_deps (s1 s2 : State) :
  deps s1 = deps s2 → priorityView s1 = priorityView s2.
Proof. unfold deps, priorityView. intros H. inversion H as [[Hw Hs Hh]]. by rewrite Hw, Hs, Hh. Qed.

Lemma image_deps (s1 s2 : State) (t : ImageType) :
  deps s1 = deps s2 → image t s1 = image t s2.
Proof. unfold deps, image. intros H. inversion H. by destruct t. Qed.

(** C10 as stated fails: when the second read of [droppedTwice] comes back
    with the image that is already there, no dependency of the effect
    changes and the view stays on the spectrum tab, although the spectrum and
    the historical image are both present. *)
Lemma same_image_keeps_view :
  (∃ r, reads droppedTwice !! 1 = Some r ∧ loading r = true)
  ∧ priorityView (onload 1 droppedTwice) = Some compareView
  ∧ activeView (component (onload 1 droppedTwice)) = spectrumView.
Proof. split; [eexists; split; reflexivity|]. split; reflexivity. Qed.

(** C10, amended.  When a read comes back with data that differs from what
    its slot holds, the slot takes the data and the view is selected by the
    priority rule: compare if the spectrum and the historical image are both
    present, else spectrum if the spectrum image is present, else waveform if
    the waveform image is present, else the view stays.  When the data equals
    what the slot holds, the component stays as it is.  The compare tab does
    nothing unless both the spectrum and the historical image are present,
    and selects the compare view when they are. *)
Theorem upload_selects_view :
  (∀ s k r, reads s !! k = Some r → loading r = true →
     image (target r) s ≠ Some (content r) →
     let s' := onload k s in
     image (target r) s' = Some (content r)
     ∧ activeView (component s') =
         default (activeView (component s)) (priorityView s'))
  ∧ (∀ s k r, reads s !! k = Some r → loading r = true →
       image (target r) s = Some (content r) →
       component (onload k s) = component s)
  ∧ (∀ s,
       (present (spectrumImage (component s))
        && present (historicalImage (component s))) = false →
       clickTab compareView s = s)
  ∧ (∀ s,
       (present (spectrumImage (component s))
        && present (historicalImage (component s))) = true →
       activeView (component (clickTab compareView s)) = compareView).
Proof.
  split; [|split; [|split]].
  - intros s k r Hr Hl Hne. cbn zeta. unfold onload. rewrite Hr, Hl.
    unfold setImage, useEffect.
    match goal with |- context [decide (?a = ?b)] =>
      destruct (decide (a = b)) as [Heq|_] end.
    { exfalso. apply Hne. unfold deps in Heq.
      destruct (target r); cbn in Heq; inversion Heq; cbn; congruence. }
    match goal with |- context [autoSwitch ?x] =>
      destruct (autoSwitch_view x) as [Hv Hd];
      rewrite (priorityView_deps _ _ Hd), Hv end.
    split; [|by destruct (target r)].
    rewrite (image_deps _ _ (target r) Hd). by destruct (target r).
  - intros s k r Hr Hl Heq. unfold onload. rewrite Hr, Hl.
    unfold setImage, useEffect.
    match goal with |- context [decide (?a = ?b)] =>
      destruct (decide (a = b)) as [_|Hne] end.
    + destruct s as [c ? ? ? ?], c. destruct (target r); cbn in *; by rewrite Heq.
    + exfalso. apply Hne. unfold deps.
      destruct (target r); cbn in *; by rewrite Heq.
  - intros s H. unfold clickTab, compareDisabled.
    destruct (present (spectrumImage (component s))),
             (present (historicalImage (component s))); done.
  - intros s H. unfold clickTab, compareDisabled.
    destruct (present (spectrumImage (component s))),
             (present (historicalImage (component s))); done.
Qed.

(** A first spectrum upload, the late second read of [droppedTwice], the
    compare tab without images and with both. *)
Lemma upload_selects_view_witness :
  (let s := processFile (pngFile "SSSS") spectrum initial in
   let s' := onload 0 s in
   image spectrum s' = Some "SSSS"
   ∧ activeView (component s') =
       default (activeView (component s)) (priorityView s'))
  ∧ component (onload 1 droppedTwice) = component droppedTwice
  ∧ clickTab compareView initial = initial
  ∧ activeView (component (clickTab compareView droppedTwice)) = compareView.
Proof.
  destruct upload_selects_view as (Ha & Hb & Hc & Hd).
  split; [|split; [|split]].
  - apply (Ha (processFile (pngFile "SSSS") spectrum initial) 0
      {| target := spectrum; content := "SSSS"; loading := true |});
      [reflexivity..|discriminate].
  - apply (Hb droppedTwice 1
      {| target := spectrum; content := "SSSS"; loading := true |}); reflexivity.
  - apply Hc. reflexivity.
  - apply Hd. reflexivity.
Defined.

(** *** The feedback log *)

Lemma feedbackLog_setItem (s : State) (l : list Json) :
  feedbackLog (setItem feedbackKey (JSON_stringify (JArray l)) s) = Some l.
Proof.
  unfold feedbackLog, storedOrEmpty, getItem, setItem. cbn.
  by rewrite lookup_insert_eq.
Qed.

Lemma handleFeedback_log (s : State) (isHelpful : bool) (timestamp : string)
    (l : list Json) :
  feedbackLog s = Some l →
  let item := historyItem timestamp (severity <$> result (component s)) isHelpful in
  ∃ s', handleFeedback isHelpful timestamp s = Returned s'
    ∧ localStorage s' =
        <[feedbackKey := JsonText (JArray (l ++ [item]))]> (localStorage s)
    ∧ feedbackLog s' = Some (l ++ [item])
    ∧ result (component s') = result (component s).
Proof.
  intros Hlog item. unfold handleFeedback. fold item.
  unfold feedbackLog in Hlog.
  set (s1 := setFeedbackGiven _ s).
  change (storedOrEmpty feedbackKey s1) with (storedOrEmpty feedbackKey s).
  destruct (JSON_parse (storedOrEmpty feedbackKey s)) as [[]|]; try done.
  inversion Hlog; subst items. eexists. split; [reflexivity|].
  split; [done|]. split; [apply feedbackLog_setItem|done].
Qed.

(** C8. A feedback submission reads the log under the fixed key
    [gemini_feedback_history] (an absent or empty entry counts as the empty
    log), appends one record to its end and writes it back under the same
    key: all records that were stored are kept, in their order, and no other
    key is touched.  For a result on display the record is
    [{timestamp, severity, helpful}].  Over any number of submissions the
    log only grows at its end, by one record per submission. *)
Theorem feedback_appends (s : State) (l : list Json) :
  feedbackLog s = Some l →
  (∀ isHelpful timestamp,
     let item := historyItem timestamp (severity <$> result (component s)) isHelpful in
     (∃ s', handleFeedback isHelpful timestamp s = Returned s'
        ∧ localStorage s' =
            <[feedbackKey := JsonText (JArray (l ++ [item]))]> (localStorage s)
        ∧ feedbackLog s' = Some (l ++ [item])
        ∧ ∀ key, key ≠ feedbackKey → getItem key s' = getItem key s)
     ∧ (∀ r, result (component s) = Some r →
          item = JObject [("timestamp", JString timestamp);
                          ("severity", JString (severityValue (severity r)));
                          ("helpful", JBool isHelpful)]))
  ∧ (∀ subs, ∃ s', submitAll subs s = Returned s'
       ∧ feedbackLog s' =
           Some (l ++ ((λ sub, historyItem sub.2 (severity <$> result (component s)) sub.1)
                       <$> subs))).
Proof.
  intros Hlog. split.
  - intros isHelpful timestamp item. split.
    + destruct (handleFeedback_log s isHelpful timestamp l Hlog)
        as (s' & Hret & Hst & Hl' & _).
      exists s'. split; [done|]. split; [done|]. split; [done|].
      intros key Hkey. unfold getItem. rewrite Hst. by rewrite lookup_insert_ne.
    + intros r Hr. unfold item. by rewrite Hr.
  - intros subs. revert s l Hlog.
    induction subs as [|[isHelpful timestamp] subs IH]; intros s l Hlog.
    + exists s. split; [done|]. by rewrite app_nil_r.
    + destruct (handleFeedback_log s isHelpful timestamp l Hlog)
        as (s1 & Hret & _ & Hl1 & Hres).
      destruct (IH s1 _ Hl1) as (s' & Hall & Hl').
      exists s'. cbn [submitAll]. rewrite Hret. split; [done|].
      rewrite Hl', Hres, <- app_assoc. done.
Qed.

(** The first feedback on [reviewed], whose storage is still empty, and two
    submissions in a row. *)
Lemma feedback_appends_witness :
  (∀ isHelpful timestamp,
     let item := historyItem timestamp (severity <$> result (component reviewed)) isHelpful in
     (∃ s', handleFeedback isHelpful timestamp reviewed = Returned s'
        ∧ localStorage s' =
            <[feedbackKey := JsonText (JArray ([] ++ [item]))]> (localStorage reviewed)
        ∧ feedbackLog s' = Some ([] ++ [item])
        ∧ ∀ key, key ≠ feedbackKey → getItem key s' = getItem key reviewed)
     ∧ (∀ r, result (component reviewed) = Some r →
          item = JObject [("timestamp", JString timestamp);
                          ("severity", JString (severityValue (severity r)));
                          ("helpful", JBool isHelpful)]))
  ∧ (∀ subs, ∃ s', submitAll subs reviewed = Returned s'
       ∧ feedbackLog s' =
           Some ([] ++ ((λ sub, historyItem sub.2
                                  (severity <$> result (component reviewed)) sub.1)
                        <$> subs))).
Proof. apply (feedback_appends reviewed []). reflexivity. Defined.

End VibrationAnalyzerFacts.

Module LiveMaintenanceMore.
Import LiveMaintenance LiveMaintenanceFacts.

(** X1. After [stopSession], whatever the refs point to is released: the
    tracks of the stream are ended, processor, source and analyser have no
    outgoing connection, both contexts are closed and close of the session
    has been requested; the component is disconnected and not talking. *)
Theorem teardown_releases_referenced (s : State) :
  let s' := stopSession s in
  connected (hooks s') = false ∧ isTalking (hooks s') = false
  ∧ (∀ st tracks, streamRef (hooks s) = Some st →
       streams (browser s') !! st = Some tracks → ∀ t, t ∈ tracks → t = ended)
  ∧ (∀ n a, processorRef (hooks s) = Some n ∨ sourceRef (hooks s) = Some n
            ∨ analyserRef (hooks s) = Some n →
       nodes (browser s') !! n = Some a → outputs a = [])
  ∧ (∀ c a, inputContextRef (hooks s) = Some c ∨ outputContextRef (hooks s) = Some c →
       contexts (browser s') !! c = Some a → state a = closed)
  ∧ (∀ sid a, sessionRef (hooks s) = Some sid →
       sessions (browser s') !! sid = Some a → closeRequested a = true).
Proof.
  destruct (stopSession_complete s) as (H1 & H2 & H3 & H4 & H5 & _ & H7).
  repeat split; assumption.
Qed.

(** The open session: stream 0, processor 3, output context 1, session 0. *)
Lemma teardown_releases_referenced_witness :
  let s' := stopSession (run initial openSession) in
  (∀ tracks, streams (browser s') !! 0 = Some tracks → ∀ t, t ∈ tracks → t = ended)
  ∧ (∀ a, nodes (browser s') !! 3 = Some a → outputs a = [])
  ∧ (∀ a, contexts (browser s') !! 1 = Some a → state a = closed)
  ∧ (∀ a, sessions (browser s') !! 0 = Some a → closeRequested a = true).
Proof.
  intros s'.
  destruct (teardown_releases_referenced (run initial openSession))
    as (_ & _ & Ht & Hn & Hc & Hs).
  split; [|split; [|split]].
  - intros tracks. apply (Ht 0). reflexivity.
  - intros a. apply (Hn 3). left. reflexivity.
  - intros a. apply (Hc 1). right. reflexivity.
  - intros a. apply (Hs 0). reflexivity.
Defined.

(** X2. [stopSession] touches nothing that no ref points to: every other
    stream, node, context and session is as before, and so are the pending
    microphone requests and decodes, the sent frames, the playback log, the
    alerts and the schedule cursor. *)
Theorem teardown_spares_the_rest (s : State) :
  let s' := stopSession s in
  (∀ st, streamRef (hooks s) ≠ Some st →
     streams (browser s') !! st = streams (browser s) !! st)
  ∧ (∀ n, processorRef (hooks s) ≠ Some n → sourceRef (hooks s) ≠ Some n →
       analyserRef (hooks s) ≠ Some n →
       nodes (browser s') !! n = nodes (browser s) !! n)
  ∧ (∀ c, inputContextRef (hooks s) ≠ Some c → outputContextRef (hooks s) ≠ Some c →
       contexts (browser s') !! c = contexts (browser s) !! c)
  ∧ (∀ sid, sessionRef (hooks s) ≠ Some sid →
       sessions (browser s') !! sid = sessions (browser s) !! sid)
  ∧ micRequests (browser s') = micRequests (browser s)
  ∧ decodes (browser s') = decodes (browser s)
  ∧ sent (browser s') = sent (browser s)
  ∧ started (browser s') = started (browser s)
  ∧ alerts (browser s') = alerts (browser s)
  ∧ nextStartTimeRef (hooks s') = nextStartTimeRef (hooks s).
Proof.
  cbn zeta. rewrite stopSession_teardown, teardown_hooks, teardown_browser. cbn.
  repeat split.
  - intros st H. rewrite lookup_alterAt. by rewrite decide_False.
  - intros n H1 H2 H3. rewrite !lookup_alterAt. by rewrite !decide_False.
  - intros c H1 H2. rewrite !lookup_alterAt. by rewrite !decide_False.
  - intros sid H. rewrite lookup_alterAt. by rewrite decide_False.
Qed.

(** After two starts the first stream (0) is no longer referenced, and a
    stop leaves its track live. *)
Lemma teardown_spares_the_rest_witness :
  streamRef (hooks (run initial twoSessions)) = Some 1
  ∧ streams (browser (stopSession (run initial twoSessions))) !! 0 = Some [live].
Proof.
  split; [reflexivity|].
  destruct (teardown_spares_the_rest (run initial twoSessions)) as [H _].
  etrans; [apply (H 0); discriminate|reflexivity].
Defined.


(** *** The cursor across sessions *)

Lemma quiet_run (tr : list Event) (s : State) :
  Forall quiet tr → cursor (run s tr) = cursor s.
Proof.
  revert s. induction tr as [|e tr IH]; intros s Htr; [done|].
  inversion Htr as [|? ? He Htr']; subst.
  change (run s (e :: tr)) with (run (step s e) tr). rewrite IH by done.
  apply step_cursor_other.
  - destruct e; done.
  - intros k dur now ->. done.
Qed.

(** X3. Only a decoded chunk and a message flagged interrupted move the
    schedule cursor: stopping, starting, opening and closing a session leave
    [nextStartTimeRef] as it is.  A chunk decoded after such events is
    therefore started at the larger of the cursor the earlier playback left
    and the reading of the clock. *)
Theorem cursor_outlives_session (s : State) (tr : list Event) :
  Forall quiet tr →
  cursor (run s tr) = cursor s
  ∧ ∀ k d dur now,
      decodes (browser (run s tr)) !! k = Some d → waiting d = true →
      ∃ p, playbacks (step (run s tr) (Decoded k dur now)) =
             playbacks (run s tr) ++ [p]
           ∧ startAt p = Qmax (cursor s) now.
Proof.
  intros Htr. split; [by apply quiet_run|].
  intros k d dur now Hd Hw.
  destruct (step_decoded (run s tr) k d dur now Hd Hw) as [Hp _].
  eexists. split; [exact Hp|]. cbn. by rewrite quiet_run.
Qed.

(** After [firstSession] the cursor stands at 6; the first chunk of the next
    session, decoded when the new clock reads 0, is started at 6. *)
Lemma cursor_outlives_session_witness :
  let s := run initial firstSession in
  cursor s = 6%Q
  ∧ cursor (run s restarted) = cursor s
  ∧ ∃ p, playbacks (step (run s restarted) (Decoded 1 (1 # 2) 0)) =
           playbacks (run s restarted) ++ [p]
         ∧ startAt p = Qmax (cursor s) 0.
Proof.
  intros s. split; [reflexivity|].
  destruct (cursor_outlives_session s restarted) as [Hc Hp].
  { repeat constructor. }
  split; [exact Hc|].
  apply (Hp 1 {| waiting := true; ctx := 3; outputNode := 5;
                 thenInterrupted := false |}); reflexivity.
Defined.

(** *** The speaking flag *)

Lemma ended_flag (s : State) (n : nat) (now : Q) :
  n ∈ sourceNode <$> playbacks s →
  step s (Ended n now) =
    if Qle_bool (Double.sub (cursor s) Double.tenth) now
    then setIsTalking false s else s.
Proof. intros Hn. cbn. by rewrite bool_decide_true by done. Qed.

(** The number that the literal [0.1] denotes lies just above one tenth. *)
Lemma tenth_bounds : (1 # 10 <= Double.tenth <= 1001 # 10000)%Q.
Proof. split; vm_compute; discriminate. Qed.

(** X4. The speaking flag is set when a message with audio arrives.  The
    [onended] handler of a started chunk compares the clock with the rounded
    difference of the cursor and 0.1: it clears the flag whenever the clock
    reading, a JavaScript number, has reached the cursor minus 0.1, and it
    changes nothing as long as more than 0.101s of scheduled audio are left
    (for a cursor of at most 2^40 seconds). *)
Theorem speaking_flag_debounced :
  (∀ s sid sess msg,
     sessions (browser s) !! sid = Some sess →
     is_Some (inlineData msg) →
     is_Some (outputContextRef (hooks s)) ∨ interrupted msg = false →
     isTalking (hooks (step s (OnMessage sid msg))) = true)
  ∧ (∀ s n now,
       n ∈ sourceNode <$> playbacks s →
       Double.double now → (cursor s - (1 # 10) <= now)%Q →
       isTalking (hooks (step s (Ended n now))) = false)
  ∧ (∀ s n now,
       n ∈ sourceNode <$> playbacks s →
       (0 <= now)%Q → (now + (101 # 1000) <= cursor s)%Q →
       (cursor s <= Double.pow2 40)%Q →
       step s (Ended n now) = s).
Proof.
  pose proof tenth_bounds as [Ht1 Ht2].
  split; [|split].
  - intros s sid sess msg Hs [data Hd] Ho. cbn. rewrite Hs.
    unfold onmessage. rewrite Hd. cbn.
    destruct (outputContextRef (hooks s)) as [oc|]; [done|].
    destruct Ho as [[? [=]]| ->]. done.
  - intros s n now Hn Hnow Hle. rewrite ended_flag by done.
    assert (Double.sub (cursor s) Double.tenth <= now)%Q as H.
    { unfold Double.double in Hnow. rewrite <- Hnow. unfold Double.sub.
      apply DoubleFacts.fl_mono. lra. }
    apply Qle_bool_iff in H. by rewrite H.
  - intros s n now Hn H0 Hleft Hmax. rewrite ended_flag by done.
    destruct (Qle_bool _ _) eqn:E; [|done]. exfalso.
    apply Qle_bool_iff in E. unfold Double.sub in E.
    pose proof (DoubleFacts.slack_near (cursor s - Double.tenth) ltac:(lra)) as Hs.
    unfold Double.slack in Hs.
    assert (0 < Double.pow2 (-52))%Q as He by reflexivity.
    assert (Double.pow2 40 * Double.pow2 (-52) <= 1 # 4000)%Q as He'
      by (vm_compute; discriminate).
    assert (Double.pow2 (-1074) <= 1 # 4000)%Q as Hz by (vm_compute; discriminate).
    set (e := Double.pow2 (-52)) in *. set (z := Double.pow2 (-1074)) in *.
    set (m := Double.pow2 40) in *. set (c := cursor s) in *.
    set (t := Double.tenth) in *.
    assert ((c - t) * e <= m * e)%Q as Hprod by nra.
    lra.
Qed.

(** Two chunks of half a second each, decoded when the clock reads 2: the
    flag is set on arrival, left alone when the first chunk ends at 2.5 and
    cleared when the second ends at 3. *)
Lemma speaking_flag_debounced_witness :
  let s0 := run initial [Click; MicGranted 0 1; OnOpen 0 false] in
  let s := run s0 [OnMessage 0 (audioChunk "AAAA"); Decoded 0 (1 # 2) 2;
                   OnMessage 0 (audioChunk "BBBB"); Decoded 1 (1 # 2) 2] in
  isTalking (hooks (step s0 (OnMessage 0 (audioChunk "AAAA")))) = true
  ∧ isTalking (hooks (step s (Ended 5 3))) = false
  ∧ step s (Ended 4 (5 # 2)) = s.
Proof.
  intros s0 s. split; [|split].
  - apply (proj1 speaking_flag_debounced s0 0
      {| capturedStream := 0; capturedOutputNode := 0; closeRequested := false |}).
    + reflexivity.
    + by exists "AAAA".
    + right. reflexivity.
  - apply (proj1 (proj2 speaking_flag_debounced) s 5 3%Q).
    + apply (bool_decide_unpack _). vm_compute. exact I.
    + vm_compute. reflexivity.
    + vm_compute. discriminate.
  - apply (proj2 (proj2 speaking_flag_debounced) s 4 (5 # 2)%Q).
    + apply (bool_decide_unpack _). vm_compute. exact I.
    + vm_compute. discriminate.
    + vm_compute. discriminate.
    + vm_compute. discriminate.
Defined.


(** *** A chunk that fails to decode *)

(** X5. When [decodeAudioData] rejects, the rest of [onmessage] does not run:
    refs and flags stay as they are (the cursor is not moved, the speaking
    flag set on arrival is not cleared, an [interrupted] flag of the same
    message is not acted on), nothing is started, and the chunk cannot be
    played later.  Another waiting chunk is still started at the larger of
    the cursor and the clock. *)
Theorem failed_decode_drops_chunk (s : State) (k : nat) :
  let s' := step s (DecodeFailed k) in
  hooks s' = hooks s
  ∧ playbacks s' = playbacks s
  ∧ nodes (browser s') = nodes (browser s)
  ∧ (∀ dur now, step s' (Decoded k dur now) = s')
  ∧ (∀ k' d dur now, k' ≠ k →
       decodes (browser s) !! k' = Some d → waiting d = true →
       ∃ p, playbacks (step s' (Decoded k' dur now)) = playbacks s ++ [p]
            ∧ startAt p = Qmax (cursor s) now ∧ duration p = dur).
Proof.
  cbn zeta. split; [done|]. split; [done|]. split; [done|]. split.
  - intros dur now. apply step_decoded_idle. intros d. cbn.
    rewrite list_lookup_alter_eq. destruct (decodes (browser s) !! k); [|done].
    cbn. by intros [= <-].
  - intros k' d dur now Hk Hd Hw.
    destruct (step_decoded (step s (DecodeFailed k)) k' d dur now) as [Hp _]; [|done|].
    { cbn. by rewrite list_lookup_alter_ne. }
    eexists. split; [exact Hp|]. done.
Qed.

(** Two chunks wait in the open session; the first fails, the second is
    decoded at clock time 2 and starts there. *)
Lemma failed_decode_drops_chunk_witness :
  let s := run initial (openSession ++ [OnMessage 0 (audioChunk "AAAA");
                                         OnMessage 0 (audioChunk "BBBB")]) in
  let s' := step s (DecodeFailed 0) in
  isTalking (hooks s') = true
  ∧ step s' (Decoded 0 (1 # 2) 2) = s'
  ∧ ∃ p, playbacks (step s' (Decoded 1 (1 # 2) 2)) = playbacks s ++ [p]
         ∧ startAt p = Qmax (cursor s) 2 ∧ duration p = (1 # 2)%Q.
Proof.
  intros s s'.
  destruct (failed_decode_drops_chunk s 0) as (_ & _ & _ & H4 & H5).
  split; [reflexivity|]. split; [apply H4|].
  apply (H5 1 {| waiting := true; ctx := 1; outputNode := 0;
                 thenInterrupted := false |}); [discriminate|reflexivity..].
Defined.

(** *** The visualizer *)

Lemma still_step (s : State) (e : Event) :
  (∀ sid, e ≠ OnOpen sid true) →
  frames (browser s) = [] → animationFrameRef (hooks s) = None →
  frames (browser (step s e)) = [] ∧ animationFrameRef (hooks (step s e)) = None.
Proof.
  intros He Hf Hr. destruct e.
  1,2: unfold step; try case_match;
       try (rewrite stopSession_teardown, teardown_hooks, teardown_browser;
            cbn; by rewrite Hr, Hf); done.
  all: try (handlers; split_step; done).
  - destruct canvas; [by destruct (He sid)|]. handlers. split_step; done.
  - unfold step, onclose, cancelPendingFrame. cbn. rewrite Hr. by case_match.
  - unfold step, onerror, cancelPendingFrame. cbn. rewrite Hr. by case_match.
  - unfold step. rewrite Hf. by rewrite bool_decide_false by apply not_elem_of_nil.
Qed.

(** X6. [drawVisualizer] is called from [onopen] and returns at once when
    the canvas is not attached: in every run in which no [onopen] finds the
    canvas, no animation frame is ever requested.  When a pending frame
    fires while the analyser is set, it leaves the pending frames, its
    successor is requested and stored in [animationFrameRef], and the frames
    of other render loops stay pending.  A frame that is not pending does
    not fire. *)
Theorem visualizer_needs_canvas :
  (∀ tr, (∀ sid, OnOpen sid true ∉ tr) →
     frames (browser (run initial tr)) = []
     ∧ animationFrameRef (hooks (run initial tr)) = None)
  ∧ (∀ s id, id ∈ frames (browser s) →
       is_Some (analyserRef (hooks s)) →
       let s' := step s (AnimationFrame id) in
       frames (browser s') =
         filter (λ j, j ≠ id) (frames (browser s)) ++ [nextFrame (browser s)]
       ∧ animationFrameRef (hooks s') = Some (nextFrame (browser s))
       ∧ nextFrame (browser s') = S (nextFrame (browser s)))
  ∧ (∀ s id, id ∉ frames (browser s) → step s (AnimationFrame id) = s).
Proof.
  split; [|split].
  - induction tr as [|e tr IH] using rev_ind; intros Htr; [done|].
    rewrite run_snoc. destruct IH as [Hf Hr].
    { intros sid H. apply (Htr sid), elem_of_app. by left. }
    apply still_step; [|done..].
    intros sid ->. apply (Htr sid), elem_of_app. right. apply list_elem_of_here.
  - intros s id Hf [an Han]. cbn. rewrite bool_decide_true by done.
    unfold render. cbn. rewrite Han. done.
  - intros s id Hf. cbn. by rewrite bool_decide_false by done.
Qed.

(** A session opened without canvas.  Then two starts that overlap: the
    second [onopen] finds the canvas and requests frame 1; when it fires,
    frame 2 takes its place; frame 1 cannot fire again. *)
Lemma visualizer_needs_canvas_witness :
  let s := run initial [Click; MicGranted 0 1; Click; MicGranted 1 1;
                        OnOpen 0 false; OnOpen 1 true] in
  (frames (browser (run initial [Click; MicGranted 0 1; OnOpen 0 false;
                                 AnimationFrame 1; OnClose 0])) = []
   ∧ animationFrameRef (hooks (run initial [Click; MicGranted 0 1; OnOpen 0 false;
                                            AnimationFrame 1; OnClose 0])) = None)
  ∧ frames (browser s) = [1]
  ∧ (frames (browser (step s (AnimationFrame 1))) = [] ++ [2]
     ∧ animationFrameRef (hooks (step s (AnimationFrame 1))) = Some 2
     ∧ nextFrame (browser (step s (AnimationFrame 1))) = 3)
  ∧ step (step s (AnimationFrame 1)) (AnimationFrame 1) = step s (AnimationFrame 1).
Proof.
  intros s. split; [|split; [|split]].
  - apply (proj1 visualizer_needs_canvas).
    intros sid H. repeat (apply elem_of_cons in H as [H|H]; [discriminate|]).
    by apply elem_of_nil in H.
  - reflexivity.
  - apply (proj1 (proj2 visualizer_needs_canvas) s 1).
    + apply (bool_decide_unpack _). vm_compute. exact I.
    + exists 6. reflexivity.
  - apply (proj2 (proj2 visualizer_needs_canvas) (step s (AnimationFrame 1)) 1).
    apply (bool_decide_unpack _). vm_compute. exact I.
Defined.

(** *** Sample rates *)

Lemma rate_grows (s : State) (e : Event) (c : nat) (r : Z) :
  rateOf s c = Some r → rateOf (step s e) c = Some r.
Proof.
  unfold rateOf. intros H. destruct e.
  1,2: unfold step; try case_match.
  1,3: rewrite stopSession_teardown, teardown_browser; cbn;
       rewrite !lookup_alterAt; repeat case_decide;
       destruct (contexts (browser s) !! c); done.
  - cbn. assert (c < length (contexts (browser s))) as Hc.
    { apply lookup_lt_is_Some. destruct (contexts (browser s) !! c); by eauto. }
    rewrite lookup_app_l by (rewrite length_app; lia).
    by rewrite lookup_app_l.
  - handlers; split_step; done.
  - handlers; split_step; done.
  - handlers; split_step; done.
  - handlers; split_step; done.
  - handlers; split_step; done.
  - handlers; split_step; done.
  - handlers; split_step; done.
  - handlers; split_step; done.
  - handlers; split_step; done.
  - handlers; split_step; done.
  - handlers; split_step; done.
Qed.

Lemma step_context_refs (s : State) (e : Event) (c : nat) :
  (inputContextRef (hooks (step s e)) = Some c →
     inputContextRef (hooks s) = Some c ∨ rateOf (step s e) c = Some 16000%Z)
  ∧ (outputContextRef (hooks (step s e)) = Some c →
       outputContextRef (hooks s) = Some c ∨ rateOf (step s e) c = Some 24000%Z).
Proof.
  destruct e.
  1,2: unfold step; try case_match.
  1,3: split; intros H'; left;
       rewrite stopSession_teardown, teardown_hooks in H'; exact H'.
  - unfold rateOf. cbn. split; intros [= <-]; right.
    + rewrite lookup_app_l by (rewrite length_app; cbn; lia).
      by rewrite lookup_app_r, Nat.sub_diag.
    + rewrite lookup_app_r by (rewrite length_app; cbn; lia).
      rewrite length_app. cbn. by rewrite Nat.sub_diag.
  - split; intros H; left; revert H; handlers; split_step; done.
  - split; intros H; left; revert H; handlers; split_step; done.
  - split; intros H; left; revert H; handlers; split_step; done.
  - split; intros H; left; revert H; handlers; split_step; done.
  - split; intros H; left; revert H; handlers; split_step; done.
  - split; intros H; left; revert H; handlers; split_step; done.
  - split; intros H; left; revert H; handlers; split_step; done.
  - split; intros H; left; revert H; handlers; split_step; done.
  - split; intros H; left; revert H; handlers; split_step; done.
  - split; intros H; left; revert H; handlers; split_step; done.
  - split; intros H; left; revert H; handlers; split_step; done.
Qed.

Lemma placement_alter (g : AudioNode → AudioNode) (n : nat) (l : list AudioNode) :
  (∀ a, placement (g a) = placement a) →
  placement <$> alter g n l = placement <$> l.
Proof.
  intros Hg. apply list_eq. intros i.
  rewrite !list_lookup_fmap, list_lookup_alter. case_decide; [subst i|done].
  destruct (l !! n); cbn; by rewrite ?Hg.
Qed.

(** Where the nodes an event adds to the store are created. *)
Lemma placement_alterAt (g : AudioNode → AudioNode) (r : option nat)
    (l : list AudioNode) :
  (∀ a, placement (g a) = placement a) →
  placement <$> alterAt g r l = placement <$> l.
Proof. intros Hg. destruct r; [by apply placement_alter|done]. Qed.

Lemma step_placements (s : State) (e : Event) :
  ∃ new, placement <$> nodes (browser (step s e)) =
           (placement <$> nodes (browser s)) ++ new
    ∧ ∀ x, x ∈ new →
        (captureKind x.1 = true ∧ inputContextRef (hooks s) = Some x.2)
        ∨ (captureKind x.1 = false ∧ outputContextRef (hooks s) = Some x.2)
        ∨ (captureKind x.1 = false
           ∧ ∃ k d, decodes (browser s) !! k = Some d ∧ x.2 = ctx d).
Proof.
  assert (∀ (l : list (NodeKind * nat)), l = l ++ []) as Hnil
    by (intros; by rewrite app_nil_r).
  assert (∀ x : NodeKind * nat, x ∉ @nil (NodeKind * nat)) as Hno
    by (intros x H; by apply elem_of_nil in H).
  destruct e.
  1,2: exists []; split; [|by intros ? ?%Hno]; unfold step; try case_match;
       try apply Hnil;
       rewrite stopSession_teardown, teardown_browser; cbn [nodes tornDown];
       rewrite !placement_alterAt by done; apply Hnil.
  all: handlers; repeat case_match; cbn -[fmap app];
       rewrite ?placement_alter by done; rewrite ?fmap_app; cbn -[fmap app];
       rewrite ?placement_alter by done; rewrite <- ?app_assoc; cbn -[fmap app].
  all: try (exists []; split; [apply Hnil|by intros ? ?%Hno]).
  all: rewrite ?list_fmap_singleton; cbn [placement kind context].
  all: eexists; (split; [reflexivity|]); intros x Hx;
       repeat (apply elem_of_cons in Hx as [->|Hx]); try (by apply Hno in Hx);
       cbn in *.
  all: first
    [ left; split; [reflexivity|eassumption]
    | right; left; split; [reflexivity|eassumption]
    | right; right; split; [reflexivity|]; do 2 eexists;
      split; [eassumption|reflexivity] ].
Qed.

Lemma step_decode_contexts (s : State) (e : Event) (k : nat) (d : Decode) :
  decodes (browser (step s e)) !! k = Some d →
  (∃ d', decodes (browser s) !! k = Some d' ∧ ctx d' = ctx d)
  ∨ outputContextRef (hooks s) = Some (ctx d).
Proof.
  assert (∀ j, alter (λ d0 : Decode,
      {| waiting := false; ctx := ctx d0; outputNode := outputNode d0;
         thenInterrupted := thenInterrupted d0 |}) j (decodes (browser s)) !! k = Some d →
    ∃ d', decodes (browser s) !! k = Some d' ∧ ctx d' = ctx d) as Halt.
  { intros j H. rewrite list_lookup_alter in H. case_decide; [subst j|by exists d].
    destruct (decodes (browser s) !! k) as [d'|]; [|done].
    cbn in H. inversion H; subst d. by exists d'. }
  intros Hk. destruct e.
  1,2: left; exists d; split; [|done]; rewrite <- Hk; unfold step;
       try case_match; by rewrite ?stopSession_decodes.
  all: revert Hk; handlers; split_step; intros Hk; eauto.
  apply lookup_app_Some in Hk as [Hk|[_ Hk]]; [eauto|].
  apply list_lookup_singleton_Some in Hk as [_ <-]. right. done.
Qed.

Lemma rated_step (s : State) (e : Event) : rated s → rated (step s e).
Proof.
  intros [Hi Ho Hn Hd]. split.
  - intros c H. apply step_context_refs in H as [H|H]; [|done].
    by apply rate_grows, Hi.
  - intros c H. apply step_context_refs in H as [H|H]; [|done].
    by apply rate_grows, Ho.
  - intros n a Ha. apply rate_grows.
    destruct (step_placements s e) as (new & Hnew & Hin).
    assert ((placement <$> nodes (browser (step s e))) !! n = Some (placement a)) as Hp
      by (by rewrite list_lookup_fmap, Ha).
    rewrite Hnew in Hp. apply lookup_app_Some in Hp as [Hp|[_ Hp]].
    + rewrite list_lookup_fmap in Hp.
      destruct (nodes (browser s) !! n) as [a0|] eqn:E; [|done].
      cbn in Hp. injection Hp as Hk Hc. rewrite <- Hk, <- Hc. by apply (Hn n).
    + apply list_elem_of_lookup_2, Hin in Hp.
      destruct Hp as [[Hk Hc]|[[Hk Hc]|(Hk & k & d & Hd' & Hc)]];
        cbn in Hk, Hc; rewrite Hk.
      * by apply Hi.
      * by apply Ho.
      * rewrite Hc. by apply (Hd k).
  - intros k d Hk. apply rate_grows.
    apply step_decode_contexts in Hk as [(d' & Hd' & <-)|Hk].
    + by apply (Hd k).
    + by apply Ho.
Qed.

(** X7. In every run of the component the refs to the input and the output
    context point to contexts of 16 kHz and 24 kHz, every node of the capture
    chain lives in a context of 16 kHz, and every gain node, every buffer
    source and every buffer being decoded belongs to a context of 24 kHz;
    this holds across stops and restarts. *)
Theorem contexts_keep_their_rates (tr : list Event) : rated (run initial tr).
Proof.
  induction tr as [|e tr IH] using rev_ind.
  - split; cbn; intros; try done. all: by rewrite lookup_nil in *.
  - rewrite run_snoc. by apply rated_step.
Qed.

(** *** The bars of the visualizer *)

Lemma fillRects_lookup (height barWidth x : Q) (dataArray : list Z) (i : nat) (r : Rect) :
  fillRects height barWidth x dataArray !! i = Some r →
  (rectX r == x + inject_Z (Z.of_nat i) * (barWidth + 1))%Q ∧ rectW r = barWidth.
Proof.
  revert x i. induction dataArray as [|v rest IH]; intros x i; [done|].
  destruct i as [|i]; cbn [fillRects lookup list_lookup].
  - intros [= <-]. cbn [rectX rectW]. split; [|done].
    change (inject_Z (Z.of_nat 0)) with 0%Q. lra.
  - intros [Hx Hw]%IH. split; [|done]. rewrite Hx.
    rewrite Nat2Z.inj_succ. unfold Z.succ. rewrite inject_Z_plus.
    change (inject_Z 1) with 1%Q. lra.
Qed.

Lemma length_fillRects (height barWidth x : Q) (dataArray : list Z) :
  length (fillRects height barWidth x dataArray) = length dataArray.
Proof.
  revert x. induction dataArray as [|v rest IH]; intros x; [done|].
  cbn [fillRects length]. by rewrite IH.
Qed.

(** X8. Most of the spectrum is drawn where nobody sees it.  The bars are
    two and a half times too wide for all bins to fit: bar [i] starts at
    [i * (barWidth + 1)], one pixel after the end of the bar before it, and
    from two fifths of the bins on every bar starts at or beyond the right
    edge of the canvas. *)
Theorem spectrum_bars_leave_canvas (width height : Q) (dataArray : list Z)
    (i : nat) (r : Rect) :
  (0 <= width)%Q →
  bars width height dataArray !! i = Some r →
  let bufferLength := inject_Z (Z.of_nat (length dataArray)) in
  let barWidth := ((width / bufferLength) * (5 # 2))%Q in
  (rectX r == inject_Z (Z.of_nat i) * (barWidth + 1))%Q
  ∧ rectW r = barWidth
  ∧ (2 * length dataArray ≤ 5 * i → (width <= rectX r)%Q).
Proof.
  intros Hw Hr. cbn zeta. unfold bars in Hr.
  pose proof (lookup_lt_Some _ _ _ Hr) as Hi.
  apply fillRects_lookup in Hr as [Hx ->].
  split; [rewrite Hx; lra|]. split; [done|]. intros Hfar. rewrite Hx.
  rewrite length_fillRects in Hi.
  set (n := inject_Z (Z.of_nat (length dataArray))) in *.
  set (j := inject_Z (Z.of_nat i)) in *.
  assert (0 < n)%Q as Hn.
  { unfold n. change 0%Q with (inject_Z 0). rewrite <- Zlt_Qlt. lia. }
  assert (2 * n <= 5 * j)%Q as Hj.
  { unfold n, j. change 2%Q with (inject_Z 2). change 5%Q with (inject_Z 5).
    rewrite <- !inject_Z_mult, <- Zle_Qle. lia. }
  assert (n * / n == 1)%Q as Hinv by (apply Qmult_inv_r; lra).
  assert (0 < / n)%Q as Hpos by (by apply Qinv_lt_0_compat).
  unfold Qdiv. set (m := (/ n)%Q) in *.
  assert (0 <= width * m)%Q as Hwm by (apply Qmult_le_0_compat; lra).
  assert (width * m * (2 * n) <= width * m * (5 * j))%Q as Hle
    by nra.
  assert (width * m * (2 * n) == 2 * width)%Q as Heq.
  { transitivity (2 * width * (n * m))%Q; [ring|]. rewrite Hinv. ring. }
  rewrite Heq in Hle. lra.
Qed.

(** On a canvas 300 wide, with five bins, the third bar starts at 302. *)
Lemma spectrum_bars_leave_canvas_witness :
  ∃ r, bars 300 100 [0; 64; 128; 192; 255]%Z !! 2 = Some r
       ∧ rectW r = ((300 / inject_Z 5) * (5 # 2))%Q
       ∧ (300 <= rectX r)%Q.
Proof.
  eexists. split; [reflexivity|].
  destruct (spectrum_bars_leave_canvas 300 100 [0; 64; 128; 192; 255]%Z 2
              _ ltac:(discriminate) eq_refl) as (_ & Hw & Hx).
  split; [exact Hw|]. apply Hx. cbn. lia.
Defined.

End LiveMaintenanceMore.

Module VibrationAnalyzerMore.
Import VibrationAnalyzer VibrationAnalyzerFacts.

(** *** The analysis action, continued *)



Lemma inFlight_settle (l : list Request) (k : nat) (r : Request) :
  l !! k = Some r → pending r = true →
  S (length (filter (λ r, pending r = true)
       (alter (λ r,
          {| reqWaveform := reqWaveform r; reqSpectrum := reqSpectrum r;
             reqBearing := reqBearing r; reqEquipment := reqEquipment r;
             reqBearingId := reqBearingId r; reqDirection := reqDirection r;
             pending := false |}) k l)))
  = length (filter (λ r, pending r = true) l).
Proof.
  revert k. induction l as [|x l IH]; intros k Hk Hp; [done|].
  destruct k as [|k]; cbn in Hk.
  - injection Hk as ->. cbn -[filter].
    rewrite filter_cons_False by (cbn; done).
    by rewrite filter_cons_True by done.
  - cbn -[filter]. rewrite !filter_cons.
    destruct (decide (pending x = true)); cbn -[filter].
    + f_equal. by apply IH.
    + by apply IH.
Qed.

Lemma isPending_lookup (k : nat) (s : State) :
  isPending k s = true → ∃ r, requests s !! k = Some r ∧ pending r = true.
Proof.
  unfold isPending. destruct (requests s !! k) as [r|]; [|done]. by exists r.
Qed.

Lemma single_flight_step (s : State) (e : Event) :
  length (inFlight s) = Nat.b2n (analyzing (component s)) →
  length (inFlight (step s e)) = Nat.b2n (analyzing (component (step s e))).
Proof.
  intros H. destruct e; cbn [step]; try done.
  - unfold whenEmpty. case_match; [done|]. by destruct t.
  - unfold whenEmpty, handleDrop, processFile. case_match; [done|].
    destruct files; [by destruct t|]. case_match; by destruct t.
  - unfold whenEmpty, handleFileSelect, processFile. case_match; [done|].
    destruct files; [done|]. by case_match.
  - unfold whenEmpty. case_match; [done|].
    induction items as [|i items IH]; [done|]. cbn.
    case_match; [|done]. case_match; [|done]. unfold processFile. by case_match.
  - unfold onload. case_match; [|done]. case_match; [|done].
    unfold setImage, useEffect. case_decide.
    + by destruct (target r).
    + unfold autoSwitch. repeat case_match; done.
  - case_match; [|done]. unfold removeImage, setImage, useEffect. case_decide.
    + by destruct t.
    + unfold autoSwitch. repeat case_match; done.
  - unfold clickTab. repeat case_match; done.
  - repeat case_match; done.
  - unfold clickRun. destruct (analyzing (component s)) eqn:Ha; [by rewrite Ha|].
    unfold runAnalysis. case_match; cbn; [by rewrite Ha|].
    unfold inFlight in *. cbn. rewrite filter_app, length_app, H.
    by rewrite filter_cons_True by done.
  - unfold runAnalysis_fulfilled. destruct (isPending k s) eqn:Hk; [|done].
    apply isPending_lookup in Hk as (r & Hr & Hp). unfold inFlight in *. cbn.
    pose proof (inFlight_settle _ _ _ Hr Hp) as Hs.
    destruct (analyzing (component s)); cbn in H; lia.
  - unfold runAnalysis_rejected. destruct (isPending k s) eqn:Hk; [|done].
    apply isPending_lookup in Hk as (r & Hr & Hp). unfold inFlight in *. cbn.
    pose proof (inFlight_settle _ _ _ Hr Hp) as Hs.
    destruct (analyzing (component s)); cbn in H; lia.
  - unfold clickThumb, handleFeedback. repeat case_match; done.
Qed.

(** X10. At most one analysis is in flight: in every run of the analyzer the
    number of requests that have not settled is one while [analyzing] is
    set and zero otherwise, so a click on the disabled Run button never adds
    a request. *)
Theorem one_analysis_in_flight (tr : list Event) :
  length (inFlight (run initial tr)) =
    if analyzing (component (run initial tr)) then 1 else 0.
Proof.
  change (length (inFlight (run initial tr)) =
          Nat.b2n (analyzing (component (run initial tr)))).
  induction tr as [|e tr IH] using rev_ind; [done|].
  unfold run. rewrite fold_left_app. cbn [fold_left]. by apply single_flight_step.
Qed.

(** *** Feedback, continued *)

(** Only the Run button clears a thumb, and only a thumb writes to local
    storage. *)
Lemma given_step (s : State) (e : Event) :
  e ≠ Run → is_Some (feedbackGiven (component s)) →
  feedbackGiven (component (step s e)) = feedbackGiven (component s)
  ∧ localStorage (step s e) = localStorage s.
Proof.
  intros He [g Hg]. destruct e; cbn [step]; try done.
  - unfold whenEmpty. case_match; [done|]. by destruct t.
  - unfold whenEmpty, handleDrop, processFile. case_match; [done|].
    destruct files; [by destruct t|]. case_match; by destruct t.
  - unfold whenEmpty, handleFileSelect, processFile. case_match; [done|].
    destruct files; [done|]. by case_match.
  - unfold whenEmpty. case_match; [done|].
    induction items as [|i items IH]; [done|]. cbn.
    destruct (String.index 0 "image" (itemType i)); [|by apply IH].
    destruct (getAsFile i); [|done]. unfold processFile. by case_match.
  - unfold onload. case_match; [|done]. case_match; [|done].
    unfold setImage, useEffect. case_decide.
    + by destruct (target r).
    + unfold autoSwitch. repeat case_match; done.
  - case_match; [|done]. unfold removeImage, setImage, useEffect. case_decide.
    + by destruct t.
    + unfold autoSwitch. repeat case_match; done.
  - unfold clickTab. repeat case_match; done.
  - repeat case_match; done.
  - unfold runAnalysis_fulfilled. by case_match.
  - unfold runAnalysis_rejected. by case_match.
  - unfold clickThumb. rewrite Hg. by case_match.
Qed.

Lemma given_run (tr : list Event) (s : State) :
  Run ∉ tr → is_Some (feedbackGiven (component s)) →
  feedbackGiven (component (run s tr)) = feedbackGiven (component s)
  ∧ localStorage (run s tr) = localStorage s.
Proof.
  revert s. induction tr as [|e tr IH]; intros s Htr Hg; [done|].
  apply not_elem_of_cons in Htr as [He Htr].
  change (run s (e :: tr)) with (run (step s e) tr).
  destruct (given_step s e) as [Hf Hl]; [done..|].
  destruct (IH (step s e) Htr) as [-> ->]; [by rewrite Hf|]. done.
Qed.

(** X11. With a result on display and no thumb given yet, a click on a thumb
    appends its record to the log and marks the thumb.  From then on, until
    the Run button is clicked, nothing changes the mark or local storage:
    further clicks on the thumbs do nothing.  A click on Run clears the mark
    before the request is made, so that after an analysis that failed the
    result still on display can be rated again, and a further record for it
    is appended. *)
Theorem one_feedback_per_analysis :
  (∀ s l h t,
     feedbackLog s = Some l →
     is_Some (result (component s)) →
     feedbackGiven (component s) = None →
     let s1 := step s (ClickThumb h t) in
     feedbackLog s1 =
       Some (l ++ [historyItem t (severity <$> result (component s)) h])
     ∧ feedbackGiven (component s1) = Some (if h then up else down))
  ∧ (∀ s tr,
       is_Some (feedbackGiven (component s)) → Run ∉ tr →
       feedbackGiven (component (run s tr)) = feedbackGiven (component s)
       ∧ localStorage (run s tr) = localStorage s)
  ∧ (∀ s l h t,
       feedbackLog s = Some l →
       is_Some (result (component s)) →
       analyzing (component s) = false →
       (present (waveformImage (component s))
        || present (spectrumImage (component s))) = true →
       let s' := run s [Run; Rejected (length (requests s)); ClickThumb h t] in
       result (component s') = result (component s)
       ∧ feedbackLog s' =
           Some (l ++ [historyItem t (severity <$> result (component s)) h])).
Proof.
  split; [|split].
  - intros s l h t Hl [r Hr] Hf.
    destruct (handleFeedback_log s h t l Hl) as (s1 & Hret & _ & Hl1 & Hres).
    assert (feedbackGiven (component s1) = Some (if h then up else down)) as Hf1.
    { revert Hret. unfold handleFeedback.
      destruct (JSON_parse _) as [[]|]; try done. by intros [= <-]. }
    assert (step s (ClickThumb h t) = s1) as ->.
    { cbn [step]. unfold clickThumb. by rewrite Hr, Hf, Hret. }
    done.
  - intros s tr Hg Htr. by apply given_run.
  - intros s l h t Hl [r Hr] Ha Hp.
    unfold run. cbn [fold_left step]. unfold clickRun. rewrite Ha.
    pose proof (isPending_runAnalysis s Hp) as Hk.
    unfold runAnalysis_rejected. rewrite Hk.
    set (s2 := setAnalyzing false _).
    assert (result (component s2) = result (component s)
            ∧ feedbackGiven (component s2) = None
            ∧ feedbackLog s2 = feedbackLog s) as (Hr2 & Hf2 & Hl2).
    { unfold s2, runAnalysis.
      destruct (present (waveformImage (component s))),
               (present (spectrumImage (component s))); done. }
    rewrite <- Hl2 in Hl.
    destruct (handleFeedback_log s2 h t l Hl) as (s3 & Hret & _ & Hl3 & Hres).
    unfold clickThumb. rewrite Hr2, Hr, Hf2, Hret. cbn [after].
    split; [by rewrite Hres, Hr2|]. by rewrite Hl3, Hr2, Hr.
Qed.

(** The result of [reviewed] is rated, the second click is lost; then the
    analysis is run again and fails, and the same result is rated once
    more. *)
Lemma one_feedback_per_analysis_witness :
  let s := setFeedbackGiven None reviewed in
  let s1 := step s (ClickThumb true "2025-01-01T00:00:00.000Z") in
  let item := historyItem "2025-01-01T00:00:00.000Z" (Some WARNING) true in
  (feedbackLog s1 = Some ([] ++ [item])
   ∧ feedbackGiven (component s1) = Some up)
  ∧ (feedbackGiven (component
       (run s1 [ClickThumb false "2025-01-01T00:00:05.000Z"; Tab waveformView]))
       = feedbackGiven (component s1)
     ∧ localStorage
         (run s1 [ClickThumb false "2025-01-01T00:00:05.000Z"; Tab waveformView])
       = localStorage s1)
  ∧ (let s' := run s1 [Run; Rejected (length (requests s1));
                       ClickThumb false "2025-01-01T00:01:00.000Z"] in
     result (component s') = result (component s1)
     ∧ feedbackLog s' =
         Some ([item] ++ [historyItem "2025-01-01T00:01:00.000Z"
                            (severity <$> result (component s1)) false])).
Proof.
  intros s s1 item. split; [|split].
  - apply (proj1 one_feedback_per_analysis s [] true "2025-01-01T00:00:00.000Z");
      [reflexivity|by eexists|reflexivity].
  - apply (proj1 (proj2 one_feedback_per_analysis) s1).
    + by eexists.
    + intros H. repeat (apply elem_of_cons in H as [H|H]; [discriminate|]).
      by apply elem_of_nil in H.
  - apply (proj2 (proj2 one_feedback_per_analysis) s1 [item]);
      [reflexivity|by eexists|reflexivity|reflexivity].
Defined.

(** X12. When the entry under the feedback key is not a JSON array (it does
    not parse, or parses to something else), [handleFeedback] throws: local
    storage is left as it is, yet the thumb is already marked, so that the
    buttons are disabled and the submission is not repeated. *)
Theorem corrupt_log_blocks_feedback (s : State) (isHelpful : bool) (timestamp : string) :
  feedbackLog s = None →
  ∃ error s',
    handleFeedback isHelpful timestamp s = Threw error s'
    ∧ localStorage s' = localStorage s
    ∧ feedbackGiven (component s') = Some (if isHelpful then up else down)
    ∧ (is_Some (result (component s)) →
       ∀ h t, step s' (ClickThumb h t) = s').
Proof.
  intros Hl. unfold handleFeedback. unfold feedbackLog in Hl.
  set (s1 := setFeedbackGiven _ s).
  change (storedOrEmpty feedbackKey s1) with (storedOrEmpty feedbackKey s).
  assert (is_Some (result (component s)) → ∀ h t, step s1 (ClickThumb h t) = s1) as Hs.
  { intros [r Hr] h t. cbn [step]. unfold clickThumb.
    change (result (component s1)) with (result (component s)). by rewrite Hr. }
  destruct (JSON_parse (storedOrEmpty feedbackKey s)) as [[]|]; try done;
    do 2 eexists; (split; [reflexivity|]); done.
Qed.

Lemma corrupt_log_blocks_feedback_witness :
  ∃ error s',
    handleFeedback true "2025-01-01T00:00:00.000Z" corrupted = Threw error s'
    ∧ localStorage s' = localStorage corrupted
    ∧ feedbackGiven (component s') = Some up
    ∧ (is_Some (result (component corrupted)) →
       ∀ h t, step s' (ClickThumb h t) = s').
Proof. apply (corrupt_log_blocks_feedback corrupted true). reflexivity. Defined.

(** *** The view and the images *)

Lemma present_Some (data : string) : data ≠ "" → present (Some data) = true.
Proof. intros H. cbn. by destruct (String.eqb_spec data ""). Qed.

Lemma processFile_reads (file : File) (t : ImageType) (s : State) :
  rawBase64 file ≠ "" →
  (∀ r, r ∈ reads s → content r ≠ "") →
  (∀ r, r ∈ reads (processFile file t s) → content r ≠ "")
  ∧ component (processFile file t s) = component s.
Proof.
  intros Hf Hr. unfold processFile. case_match; [done|]. split; [|done].
  cbn. intros r [?| ->%list_elem_of_singleton]%elem_of_app; [eauto|done].
Qed.

Lemma handleDrag_reads (t : ImageType) (active : bool) (s : State) :
  reads (handleDrag t active s) = reads s
  ∧ deps (handleDrag t active s) = deps s
  ∧ activeView (component (handleDrag t active s)) = activeView (component s).
Proof. by destruct t. Qed.

Lemma useEffect_compare (before s : State) :
  (activeView (component s) = compareView → compareDisabled s = false) →
  activeView (component (useEffect before s)) = compareView →
  compareDisabled (useEffect before s) = false.
Proof.
  unfold useEffect. case_decide; [done|].
  unfold autoSwitch, compareDisabled.
  destruct (present (historicalImage (component s))) eqn:Hh,
           (present (spectrumImage (component s))) eqn:Hs,
           (present (waveformImage (component s))) eqn:Hw;
    cbn; rewrite ?Hh, ?Hs; cbn; try done.
  all: intros Hv Hc; by apply Hv.
Qed.

Lemma compare_step (s : State) (e : Event) :
  substantial e → ¬ removal e →
  (∀ r, r ∈ reads s → content r ≠ "") →
  (activeView (component s) = compareView → compareDisabled s = false) →
  (∀ r, r ∈ reads (step s e) → content r ≠ "")
  ∧ (activeView (component (step s e)) = compareView →
     compareDisabled (step s e) = false).
Proof.
  intros He Hn Hr Hv. destruct e; cbn [step]; try done.
  - unfold whenEmpty. case_match; [done|]. by destruct t.
  - unfold whenEmpty. case_match; [done|]. unfold handleDrop.
    destruct (handleDrag_reads t false s) as (Hd1 & Hd2 & Hd3).
    destruct files as [|f files]; [by destruct t|].
    cbn in He. apply Forall_cons in He as [Hf _].
    destruct (processFile_reads f t (handleDrag t false s) Hf) as [H1 H2];
      [by rewrite Hd1|].
    split; [done|]. unfold compareDisabled. rewrite H2. by destruct t.
  - unfold whenEmpty. case_match; [done|]. unfold handleFileSelect.
    destruct files as [|f files]; [done|].
    cbn in He. apply Forall_cons in He as [Hf _].
    destruct (processFile_reads f t s Hf Hr) as [H1 H2].
    split; [done|]. unfold compareDisabled. by rewrite H2.
  - unfold whenEmpty. case_match; [done|]. cbn in He.
    induction items as [|i items IH]; [done|]. cbn [handlePaste].
    apply Forall_cons in He as [Hi He].
    case_match; [|by apply IH]. destruct (getAsFile i) as [f|]; [|done].
    destruct (processFile_reads f t s (Hi f eq_refl) Hr) as [H1 H2].
    split; [done|]. unfold compareDisabled. by rewrite H2.
  - unfold onload. destruct (reads s !! k) as [r|] eqn:Hk; [|done].
    destruct (loading r) eqn:Hl; [|done].
    assert (content r ≠ "") as Hc by eauto using list_elem_of_lookup_2.
    apply present_Some in Hc.
    split.
    + intros r' Hr'.
      assert (reads (setImage (target r) (Some (content r))
                (mapReads (<[k:={| target := target r; content := content r;
                                   loading := false |}]>) s))
              = <[k:={| target := target r; content := content r;
                        loading := false |}]> (reads s)) as Hrd.
      { unfold setImage, useEffect. case_decide; [by destruct (target r)|].
        unfold autoSwitch. by repeat case_match; destruct (target r). }
      rewrite Hrd in Hr'. apply list_elem_of_lookup_1 in Hr' as [j Hj].
      destruct (decide (j = k)) as [->|Hjk].
      * rewrite list_lookup_insert_eq in Hj by eauto using lookup_lt_Some.
        injection Hj as <-. cbn. intros Hc'. rewrite Hc' in Hc. done.
      * rewrite list_lookup_insert_ne in Hj by done.
        eauto using list_elem_of_lookup_2.
    + unfold setImage. apply useEffect_compare.
      unfold compareDisabled in *.
      cbn in Hc.
      destruct (target r); cbn; rewrite ?Hc; cbn; try done.
      all: intros [Hv1 Hv2]%Hv%orb_false_elim; by rewrite ?Hv1, ?Hv2.
  - unfold clickTab, compareDisabled. split; [by repeat case_match|].
    destruct v; cbn; try done. case_match; [done|]. by cbn.
  - set (s' := match activeView (component s) with compareView => _ | _ => _ end).
    assert (s' = s ∨ s' = setOverlayOpacity v s) as [-> | ->]
      by (subst s'; repeat case_match; auto); done.
  - unfold clickRun, runAnalysis. repeat case_match; done.
  - unfold runAnalysis_fulfilled. case_match; done.
  - unfold runAnalysis_rejected. case_match; done.
  - unfold clickThumb, handleFeedback. repeat case_match; done.
Qed.

(** X13. While no image is removed and no file is empty, the compare view
    is only ever on display with both of its images, the current spectrum
    and the historical one, in place. *)
Theorem compare_view_has_both_images (tr : list Event) :
  Forall substantial tr →
  Forall (λ e, ¬ removal e) tr →
  activeView (component (run initial tr)) = compareView →
  present (spectrumImage (component (run initial tr))) = true
  ∧ present (historicalImage (component (run initial tr))) = true.
Proof.
  intros Hs Hn.
  enough ((∀ r, r ∈ reads (run initial tr) → content r ≠ "")
          ∧ (activeView (component (run initial tr)) = compareView →
             compareDisabled (run initial tr) = false)) as [_ H].
  { intros Hv. specialize (H Hv). unfold compareDisabled in H.
    by destruct (present (spectrumImage _)), (present (historicalImage _)). }
  induction tr as [|e tr IH] using rev_ind.
  { split; [by intros r ?%elem_of_nil|done]. }
  apply Forall_app in Hs as [Hs He]. apply Forall_app in Hn as [Hn Hne].
  apply Forall_inv in He, Hne.
  destruct (IH Hs Hn) as [H1 H2].
  unfold run. rewrite fold_left_app. cbn [fold_left]. by apply compare_step.
Qed.

Lemma compare_view_has_both_images_witness :
  let tr := [Drop spectrum [pngFile "SSSS"]; Load 0;
             Paste historical [{| itemType := "image/png";
                                  getAsFile := Some (pngFile "HHHH") |}];
             Load 1] in
  activeView (component (run initial tr)) = compareView
  ∧ present (spectrumImage (component (run initial tr))) = true
  ∧ present (historicalImage (component (run initial tr))) = true.
Proof.
  cbn zeta. split; [reflexivity|].
  apply compare_view_has_both_images; [| |reflexivity].
  - repeat constructor; cbn; try done. by intros f [= <-].
  - repeat constructor; cbn; tauto.
Defined.

(** X14. Removing an image switches the view by the same priority rule as an
    upload: to compare when spectrum and historical image remain, else to the
    spectrum, else to the waveform; when no image remains the view stays as
    it is.  The other two images are kept. *)
Theorem removal_reselects_view (s : State) (t : ImageType) :
  present (image t s) = true →
  let s' := step s (Remove t) in
  image t s' = None
  ∧ (∀ t', t' ≠ t → image t' s' = image t' s)
  ∧ activeView (component s') =
      default (activeView (component s)) (priorityView s').
Proof.
  intros Hp. cbn zeta. cbn [step]. rewrite Hp.
  unfold removeImage, setImage, useEffect.
  case_decide as Hd.
  { apply (image_deps _ _ t) in Hd. rewrite Hd in Hp. by destruct t. }
  destruct (autoSwitch_view
    match t with
    | waveform => setWaveformImage None s
    | spectrum => setSpectrumImage None s
    | historical => setHistoricalImage None s
    end) as [Hv Hd'].
  split; [|split].
  - rewrite (image_deps _ _ t Hd'). by destruct t.
  - intros t' Ht. rewrite (image_deps _ _ t' Hd'). by destruct t, t'.
  - rewrite Hv, (priorityView_deps _ _ Hd'). by destruct t.
Qed.

Lemma removal_reselects_view_witness :
  let s' := step comparing (Remove historical) in
  image historical s' = None
  ∧ (∀ t', t' ≠ historical → image t' s' = image t' comparing)
  ∧ activeView (component s') =
      default (activeView (component comparing)) (priorityView s').
Proof. apply (removal_reselects_view comparing historical). reflexivity. Defined.

(** X15. The compare view can outlive its images: when the spectrum image is
    removed while comparing and there is no waveform image, no rule of the
    effect applies, so the compare view stays on display without its current
    spectrum, its own tab being disabled by now. *)
Theorem compare_view_survives_removal (s : State) :
  activeView (component s) = compareView →
  present (spectrumImage (component s)) = true →
  present (waveformImage (component s)) = false →
  let s' := step s (Remove spectrum) in
  activeView (component s') = compareView
  ∧ spectrumImage (component s') = None
  ∧ compareDisabled s' = true
  ∧ clickTab compareView (clickTab spectrumView s') = clickTab spectrumView s'.
Proof.
  intros Hv Hs Hw. cbn zeta. cbn [step image]. rewrite Hs.
  unfold removeImage, setImage, useEffect.
  case_decide as Hd.
  { apply (image_deps _ _ spectrum) in Hd. cbn in Hd. by rewrite Hd in Hs. }
  unfold autoSwitch, clickTab, compareDisabled. cbn. rewrite Hw. cbn.
  rewrite andb_false_r, orb_true_r. done.
Qed.

Lemma compare_view_survives_removal_witness :
  let s' := step comparing (Remove spectrum) in
  activeView (component s') = compareView
  ∧ spectrumImage (component s') = None
  ∧ compareDisabled s' = true
  ∧ clickTab compareView (clickTab spectrumView s') = clickTab spectrumView s'.
Proof. apply (compare_view_survives_removal comparing); reflexivity. Defined.

(** *** Getting a file, continued *)

(** X16. What an event can touch.  The images change only when a read comes
    back or an image is removed; the result changes only when an analysis is
    fulfilled; local storage changes only on a click on a thumb.  In
    particular a drop, a paste or a file selection changes no image before
    its read comes back, and a failed analysis changes none of the three. *)
Theorem step_touches (s : State) (e : Event) :
  match e with
  | Load _ | Remove _ =>
      result (component (step s e)) = result (component s)
      ∧ localStorage (step s e) = localStorage s
  | Fulfilled _ _ =>
      deps (step s e) = deps s ∧ localStorage (step s e) = localStorage s
  | ClickThumb _ _ =>
      deps (step s e) = deps s
      ∧ result (component (step s e)) = result (component s)
  | _ =>
      deps (step s e) = deps s
      ∧ result (component (step s e)) = result (component s)
      ∧ localStorage (step s e) = localStorage s
  end.
Proof.
  destruct e; cbn [step].
  - unfold whenEmpty. case_match; [done|]. by destruct t.
  - unfold whenEmpty, handleDrop, processFile. case_match; [done|].
    destruct files; [by destruct t|]. case_match; by destruct t.
  - unfold whenEmpty, handleFileSelect, processFile. case_match; [done|].
    destruct files; [done|]. by case_match.
  - unfold whenEmpty. case_match; [done|].
    induction items as [|i items IH]; [done|]. cbn.
    case_match; [|done]. case_match; [|done]. unfold processFile. by case_match.
  - unfold onload. case_match; [|done]. case_match; [|done].
    unfold setImage, useEffect. case_decide.
    + by destruct (target r).
    + unfold autoSwitch. repeat case_match; done.
  - case_match; [|done]. unfold removeImage, setImage, useEffect. case_decide.
    + by destruct t.
    + unfold autoSwitch. repeat case_match; done.
  - unfold clickTab. repeat case_match; done.
  - repeat case_match; done.
  - done.
  - done.
  - done.
  - done.
  - unfold clickRun, runAnalysis. repeat case_match; done.
  - unfold runAnalysis_fulfilled. case_match; done.
  - unfold runAnalysis_rejected. case_match; done.
  - unfold clickThumb, handleFeedback. repeat case_match; done.
Qed.

(** X17. A paste takes the first clipboard item whose type contains "image"
    and nothing after it: the items before it are skipped, its file (if it
    yields one) is processed, and later items are never looked at.  A
    clipboard without such an item changes nothing. *)
Theorem paste_takes_first_image (s : State) (t : ImageType)
    (earlier later : list ClipboardItem) (item : ClipboardItem) :
  Forall (λ i, String.index 0 "image" (itemType i) = None) earlier →
  (is_Some (String.index 0 "image" (itemType item)) →
   handlePaste (earlier ++ item :: later) t s =
     match getAsFile item with
     | Some blob => processFile blob t s
     | None => s
     end)
  ∧ handlePaste earlier t s = s.
Proof.
  intros Hb. induction Hb as [|i earlier Hi Hb [IH1 IH2]]; cbn.
  - split; [|done]. by intros [? ->].
  - rewrite Hi. done.
Qed.

Lemma paste_takes_first_image_witness :
  let text := {| itemType := "text/plain"; getAsFile := None |} in
  let shot := {| itemType := "image/png"; getAsFile := Some (pngFile "AAAA") |} in
  let other := {| itemType := "image/jpeg"; getAsFile := Some (pngFile "BBBB") |} in
  handlePaste ([text] ++ shot :: [other]) spectrum initial =
    processFile (pngFile "AAAA") spectrum initial
  ∧ handlePaste [text] spectrum initial = initial.
Proof.
  cbn zeta. split.
  - apply (paste_takes_first_image initial spectrum
             [{| itemType := "text/plain"; getAsFile := None |}]
             [{| itemType := "image/jpeg"; getAsFile := Some (pngFile "BBBB") |}]
             {| itemType := "image/png"; getAsFile := Some (pngFile "AAAA") |}).
    + by repeat constructor.
    + by eexists.
  - reflexivity.
Defined.

(** *** Severity *)

(** X18. The severity card and the ISO chart agree.  For the four severities
    the zone letter of the card is the name of the zone the chart marks, the
    two colours are of the same hue, and the marker sits in the middle of its
    quarter of the bar; for any other string the card says "N/A" and the
    chart shows no marker. *)
Theorem severity_card_matches_chart (sev : string) :
  match zones !! Z.to_nat (activeZoneIndex sev), markerLeft sev with
  | Some z, Some pos =>
      (0 ≤ activeZoneIndex sev < 4)%Z
      ∧ zoneSeverity z = sev
      ∧ zoneName z = zone (getSeverityData sev)
      ∧ ("bg-" ++ String.substring 5 (String.length (color (getSeverityData sev)))
                    (color (getSeverityData sev)))%string = zoneColor z
      ∧ (inject_Z (activeZoneIndex sev) * 25 < pos
         < inject_Z (activeZoneIndex sev + 1) * 25)%Q
  | _, _ =>
      activeZoneIndex sev = (-1)%Z
      ∧ markerLeft sev = None
      ∧ zone (getSeverityData sev) = "N/A"
      ∧ (∀ v, severityValue v ≠ sev)
  end.
Proof.
  unfold markerLeft, activeZoneIndex, getSeverityData, zones.
  cbn [findIndex zoneSeverity severityValue].
  rewrite !(String.eqb_sym _ sev).
  destruct (String.eqb_spec sev "Normal") as [->|H1]; [by cbn|].
  destruct (String.eqb_spec sev "Prewarning") as [->|H2]; [by cbn|].
  destruct (String.eqb_spec sev "Warning") as [->|H3]; [by cbn|].
  destruct (String.eqb_spec sev "Alarm") as [->|H4]; [by cbn|].
  cbn. repeat split; try done. by intros [].
Qed.

End VibrationAnalyzerMore.

Module MarkupFacts.
Import Markup.

(** ** Strings *)

Lemma startsWith_spec (p s : Text) :
  startsWith p s = true ↔ ∃ r, s = p ++ r.
Proof.
  revert s. induction p as [|a p IH]; intros s; cbn.
  - split; [by exists s|done].
  - destruct s as [|b s]; [split; [done|by intros [r [=]]]|].
    rewrite andb_true_iff, N.eqb_eq, IH. split.
    + intros [-> [r ->]]. by exists r.
    + intros [r [= -> ->]]. split; [done|by exists r].
Qed.

Lemma endsWith_spec (p s : Text) :
  endsWith p s = true ↔ ∃ l, s = l ++ p.
Proof.
  unfold endsWith. rewrite startsWith_spec. split.
  - intros [r Hr]. exists (reverse r).
    apply (inj reverse). by rewrite Hr, reverse_app, reverse_involutive.
  - intros [l ->]. exists (reverse l). by rewrite reverse_app.
Qed.

Lemma trimStart_split (s : Text) :
  ∃ ws, s = ws ++ trimStart s ∧ Forall (λ c, blank c = true) ws.
Proof.
  induction s as [|c s (ws & Hs & Hws)]; [by exists []|]. cbn.
  destruct (blank c) eqn:Hc.
  - exists (c :: ws). split; [by rewrite Hs at 1|by constructor].
  - by exists [].
Qed.

Lemma trimStart_blank (ws s : Text) :
  Forall (λ c, blank c = true) ws → trimStart (ws ++ s) = trimStart s.
Proof. induction 1 as [|c ws Hc _ IH]; [done|]. cbn. by rewrite Hc. Qed.

Lemma trimEnd_split (s : Text) : ∃ ws, s = trimEnd s ++ ws.
Proof.
  unfold trimEnd. destruct (trimStart_split (reverse s)) as (ws & Hs & _).
  exists (reverse ws). apply (inj reverse).
  by rewrite reverse_app, !reverse_involutive.
Qed.

Lemma trim_split (s : Text) : ∃ l r, s = l ++ trim s ++ r.
Proof.
  unfold trim. destruct (trimStart_split s) as (l & Hs & _).
  destruct (trimEnd_split (trimStart s)) as (r & Hr).
  exists l, r. by rewrite <- Hr.
Qed.

Lemma trimStart_idemp (s : Text) : trimStart (trimStart s) = trimStart s.
Proof.
  induction s as [|c s IH]; [done|]. cbn. destruct (blank c) eqn:Hc; [done|].
  cbn. by rewrite Hc.
Qed.

Lemma trimStart_head (s : Text) :
  match trimStart s with
  | c :: _ => blank c = false
  | [] => True
  end.
Proof.
  induction s as [|c s IH]; [done|]. cbn. by destruct (blank c) eqn:Hc.
Qed.

Lemma trimStart_trimEnd (s : Text) :
  trimStart (trimEnd (trimStart s)) = trimEnd (trimStart s).
Proof.
  pose proof (trimStart_head s) as Hh.
  destruct (trimEnd_split (trimStart s)) as [ws Hws].
  destruct (trimEnd (trimStart s)) as [|c u] eqn:Hu; [done|].
  rewrite Hws in Hh. cbn in Hh. cbn. by rewrite Hh.
Qed.

Lemma trim_idemp (s : Text) : trim (trim s) = trim s.
Proof.
  unfold trim. rewrite (trimStart_trimEnd s). unfold trimEnd.
  by rewrite reverse_involutive, trimStart_idemp.
Qed.

Lemma removeFirst_blank (ws rest : Text) :
  Forall (λ c, blank c = true) ws →
  removeFirst dash (ws ++ dash :: rest) = ws ++ rest.
Proof.
  induction 1 as [|c ws Hc _ IH]; cbn [app removeFirst].
  - by rewrite N.eqb_refl.
  - destruct (N.eqb_spec c dash) as [->|]; [done|]. by rewrite IH.
Qed.

(** ** The bold markup *)

Lemma splitLoop_concat (fuel : nat) (pending s : Text) :
  concat (splitLoop fuel pending s) = reverse pending ++ s.
Proof.
  revert pending s. induction fuel as [|fuel IH]; intros pending s;
    cbn [splitLoop concat].
  - by rewrite app_nil_r.
  - destruct s as [|c rest]; [done|].
    destruct (matchBold (c :: rest)) as [n|].
    + cbn [concat]. rewrite IH. change (reverse [] ++ ?x) with x. by rewrite take_drop.
    + by rewrite IH, reverse_cons, <- app_assoc.
Qed.

Lemma lazyUntilStars_eq (s : Text) :
  lazyUntilStars s =
    if startsWith [star; star] s then Some 0
    else match s with
         | c :: rest => if lineTerminator c then None else S <$> lazyUntilStars rest
         | [] => None
         end.
Proof. by destruct s. Qed.

Lemma lazyUntilStars_long (s : Text) (k : nat) :
  lazyUntilStars s = Some k → k + 2 ≤ length s.
Proof.
  revert k. induction s as [|c s IH]; intros k; rewrite lazyUntilStars_eq.
  - done.
  - destruct (startsWith [star; star] (c :: s)) eqn:Hs.
    + apply startsWith_spec in Hs as [r ->]. intros [= <-]. cbn. lia.
    + destruct (lineTerminator c); [done|].
      destruct (lazyUntilStars s) as [k'|]; [|done]. intros [= <-].
      specialize (IH k' eq_refl). cbn. lia.
Qed.

Lemma matchBold_long (s : Text) (n : nat) : matchBold s = Some n → 4 ≤ n ≤ length s.
Proof.
  unfold matchBold. destruct (startsWith [star; star] s) eqn:Hs; [|done].
  apply startsWith_spec in Hs as [r ->]. cbn [drop app]. rewrite drop_0.
  destruct (lazyUntilStars r) as [k|] eqn:Hk; [|done]. intros [= <-].
  apply lazyUntilStars_long in Hk. cbn. lia.
Qed.

Lemma splitLoop_fuel (n m : nat) (pending s : Text) :
  length s < n → length s < m → splitLoop n pending s = splitLoop m pending s.
Proof.
  revert m pending s. induction n as [|n IH]; intros m pending s Hn Hm; [lia|].
  destruct m as [|m]; [lia|]. cbn.
  destruct s as [|c rest]; [done|].
  destruct (matchBold (c :: rest)) as [k|] eqn:Hk.
  - apply matchBold_long in Hk. do 2 f_equal.
    apply IH; rewrite length_drop; cbn in *; lia.
  - apply IH; cbn in *; lia.
Qed.

Lemma splitLoop_match (fuel : nat) (pending s : Text) (n : nat) :
  matchBold s = Some n →
  splitLoop (S fuel) pending s =
    reverse pending :: take n s :: splitLoop fuel [] (drop n s).
Proof.
  intros Hm. cbn [splitLoop]. destruct s as [|c rest]; [done|]. by rewrite Hm.
Qed.

Lemma matchBold_plain (c : N) (s : Text) : c ≠ star → matchBold (c :: s) = None.
Proof.
  intros Hc. unfold matchBold.
  destruct (startsWith [star; star] (c :: s)) eqn:Hs; [|done].
  by apply startsWith_spec in Hs as [r [= -> ->]].
Qed.

Lemma splitLoop_plain (n : nat) (a pending rest : Text) :
  Forall (λ c, c ≠ star) a →
  splitLoop (length a + n) pending (a ++ rest) =
    splitLoop n (reverse a ++ pending) rest.
Proof.
  intros Ha. revert pending. induction Ha as [|c a Hc _ IH]; intros pending; [done|].
  cbn [length app Nat.add splitLoop]. rewrite matchBold_plain by done.
  by rewrite IH, reverse_cons, <- app_assoc.
Qed.

Lemma lazyUntilStars_span (b c : Text) :
  Forall (λ c, c ≠ star) b →
  Forall (λ c, lineTerminator c = false) b →
  lazyUntilStars (b ++ [star; star] ++ c) = Some (length b).
Proof.
  intros Hb Hl. induction Hb as [|x b Hx _ IH]; [done|].
  apply Forall_cons in Hl as [Hl1 Hl2]. rewrite lazyUntilStars_eq.
  destruct (startsWith _ _) eqn:Hs.
  { by apply startsWith_spec in Hs as [r [= -> ?]]. }
  rewrite <- app_comm_cons. by rewrite Hl1, IH.
Qed.

Lemma filter_concat (l : list Text) :
  noStars (concat l) = concat (noStars <$> l).
Proof.
  induction l as [|x l IH]; [done|].
  rewrite fmap_cons. cbn [concat]. rewrite <- IH. apply filter_app.
Qed.

Lemma noStars_star (t : Text) : noStars (star :: t) = noStars t.
Proof. unfold noStars. by rewrite filter_cons_False by (intros H; by apply H). Qed.

Lemma noStars_app (t u : Text) : noStars (t ++ u) = noStars t ++ noStars u.
Proof. apply filter_app. Qed.

Lemma noStars_inline (part : Text) :
  noStars (shown (inline part)) = noStars part.
Proof.
  unfold inline.
  destruct (startsWith [star; star] part) eqn:Hs; [|done].
  destruct (endsWith [star; star] part) eqn:He; [|done]. cbn [andb shown].
  apply startsWith_spec in Hs as [r ->]. apply endsWith_spec in He as [l Hl].
  unfold slice. cbn [drop app length]. rewrite drop_0.
  replace (S (S (length r)) - 2 - 2) with (length r - 2) by lia.
  destruct r as [|x r] using rev_ind; [done|]. clear IHr.
  destruct r as [|y r] using rev_ind; [|clear IHr].
  - cbn in Hl. destruct l as [|? [|? [|? l]]]; try done.
    + injection Hl as _ ->. done.
    + by destruct l.
  - rewrite <- app_assoc in *. cbn [app] in *.
    rewrite !length_app. cbn [length].
    replace (length r + 2 - 2) with (length r) by lia.
    rewrite take_app_length.
    apply (app_inj_2 ([star; star] ++ r) l [y; x] [star; star] eq_refl)
      in Hl as [_ [= -> ->]].
    rewrite !noStars_star, noStars_app, !noStars_star. apply symmetry, app_nil_r.
Qed.

(** X19. Bold markup costs nothing but asterisks: whatever the string, the
    text shown for its parts, put together, is the string up to stars. *)
Theorem bold_loses_only_asterisks (s : Text) :
  noStars (concat (shown <$> renderBold s)) = noStars s.
Proof.
  unfold renderBold, splitBold. rewrite filter_concat, <- !list_fmap_compose.
  rewrite (list_fmap_ext _ noStars (splitLoop _ _ _))
    by (intros ? part _; apply noStars_inline).
  by rewrite <- filter_concat, splitLoop_concat.
Qed.

(** X20. A span between two pairs of stars is shown in bold, without the
    stars: when the span and the text before it hold no star and the span no
    line terminator, the rendering is the text before, the span in bold, and
    the rendering of what follows. *)
Theorem bold_span_rendered (a b c : Text) :
  Forall (λ x, x ≠ star) a →
  Forall (λ x, x ≠ star) b →
  Forall (λ x, lineTerminator x = false) b →
  renderBold (a ++ str "**" ++ b ++ str "**" ++ c) =
    Plain a :: Strong b :: renderBold c.
Proof.
  intros Ha Hb Hl. change (str "**") with [star; star].
  unfold renderBold, splitBold.
  set (bold := [star; star] ++ b ++ [star; star]).
  rewrite (app_assoc b), (app_assoc [star; star]). fold bold.
  replace (S (length (a ++ bold ++ c))) with (length a + S (length (bold ++ c)))
    by (rewrite !length_app; lia).
  rewrite splitLoop_plain by done. rewrite app_nil_r.
  rewrite (splitLoop_match _ _ _ (length bold)).
  - rewrite take_app_length, drop_app_length, reverse_involutive.
    rewrite (splitLoop_fuel _ (S (length c)))
      by (unfold bold; rewrite ?length_app; cbn; lia).
    rewrite !fmap_cons. f_equal; [|f_equal].
    + unfold inline. destruct Ha as [|x a Hx _]; [done|].
      destruct (startsWith _ _) eqn:Hs; [|done].
      by apply startsWith_spec in Hs as [r [= -> ?]].
    + unfold inline.
      assert (startsWith [star; star] bold = true) as ->
        by (apply startsWith_spec; eauto).
      assert (endsWith [star; star] bold = true) as ->
        by (apply endsWith_spec; exists ([star; star] ++ b);
            unfold bold; by rewrite <- app_assoc).
      cbn [andb]. f_equal. unfold slice, bold. rewrite !length_app.
      cbn [length drop app]. rewrite drop_0.
      replace (2 + (length b + 2) - 2 - 2) with (length b) by lia.
      by rewrite take_app_length.
  - unfold matchBold.
    assert (startsWith [star; star] (bold ++ c) = true) as ->.
    { apply startsWith_spec. exists (b ++ [star; star] ++ c).
      unfold bold. by rewrite <- !app_assoc. }
    unfold bold. rewrite <- !app_assoc. cbn [drop app]. rewrite drop_0.
    change (b ++ star :: star :: c) with (b ++ [star; star] ++ c).
    rewrite lazyUntilStars_span by done. cbn [fmap option_fmap option_map].
    f_equal. cbn [length]. rewrite length_app. cbn. lia.
Qed.

Lemma bold_span_rendered_witness :
  renderBold (str "see " ++ str "**" ++ str "BPFO" ++ str "**" ++ str " peak") =
    Plain (str "see ") :: Strong (str "BPFO") :: renderBold (str " peak").
Proof.
  apply (bold_span_rendered (str "see ") (str "BPFO") (str " peak"));
    repeat constructor; done.
Defined.

(** ** Headers and bullets of the analyzer *)

Lemma removeMarkers_eq (s : Text) :
  removeMarkers s =
    if startsWith [hash; hash; hash] s then removeMarkers (drop 3 s)
    else match s with
         | a :: tl => a :: removeMarkers tl
         | [] => []
         end.
Proof.
  destruct s as [|a [|b [|c rest]]].
  - done.
  - cbn [startsWith]. by rewrite andb_false_r.
  - cbn [startsWith]. by rewrite !andb_false_r.
  - change (removeMarkers (a :: b :: c :: rest))
      with (if (a =? hash)%N && (b =? hash)%N && (c =? hash)%N
            then removeMarkers rest else a :: removeMarkers (b :: c :: rest)).
    cbn [startsWith drop]. rewrite drop_0, andb_true_r, andb_assoc.
    by rewrite !(N.eqb_sym hash).
Qed.

Lemma leading_removeMarkers (s : Text) :
  leading hash (removeMarkers s) = leading hash s mod 3.
Proof.
  remember (length s) as n eqn:Hn. revert s Hn.
  induction n as [n IH] using lt_wf_ind. intros s ->.
  rewrite removeMarkers_eq. destruct (startsWith _ s) eqn:Hs.
  - apply startsWith_spec in Hs as [r ->]. cbn [app drop]. rewrite drop_0.
    rewrite (IH (length r) ltac:(cbn; lia) r eq_refl).
    cbn [leading]. rewrite !N.eqb_refl.
    change (S (S (S (leading hash r)))) with (3 + leading hash r).
    by rewrite <- (Nat.Div0.add_mod_idemp_l 3), Nat.Div0.mod_same.
  - destruct s as [|a tl]; [done|]. cbn [leading].
    destruct (N.eqb_spec a hash) as [->|]; [|done].
    rewrite (IH (length tl) ltac:(cbn; lia) tl eq_refl).
    assert (leading hash tl < 2) as Hlt.
    { destruct tl as [|b tl]; [cbn; lia|]. cbn [leading].
      destruct (N.eqb_spec b hash) as [->|]; [|lia].
      destruct tl as [|c tl]; [cbn; lia|]. cbn [leading].
      destruct (N.eqb_spec c hash) as [->|]; [|lia].
      by rewrite (proj2 (startsWith_spec _ _)) in Hs by (by exists tl). }
    rewrite !Nat.mod_small by lia. done.
Qed.

Lemma suffix_removeMarkers (s t : Text) :
  t `suffix_of` removeMarkers s → ∃ u, t = removeMarkers u.
Proof.
  remember (length s) as n eqn:Hn. revert s Hn.
  induction n as [n IH] using lt_wf_ind. intros s ->.
  rewrite removeMarkers_eq. destruct (startsWith _ s) eqn:Hs.
  - apply startsWith_spec in Hs as [r ->]. cbn [app drop]. rewrite drop_0.
    apply (IH (length r) ltac:(cbn; lia) r eq_refl).
  - destruct s as [|a tl].
    + intros ->%suffix_nil_inv. by exists [].
    + destruct t as [|x t]; [by exists []|].
      intros [->|Ht]%suffix_cons_inv.
      * exists (a :: tl). by rewrite (removeMarkers_eq (a :: tl)), Hs.
      * apply (IH (length tl) ltac:(cbn; lia) tl eq_refl Ht).
Qed.

Lemma removeMarkers_clean (s pre post : Text) :
  removeMarkers s ≠ pre ++ [hash; hash; hash] ++ post.
Proof.
  intros H.
  destruct (suffix_removeMarkers s ([hash; hash; hash] ++ post)) as [u Hu].
  { exists pre. done. }
  pose proof (leading_removeMarkers u) as Hl. rewrite <- Hu in Hl.
  cbn [app leading] in Hl. rewrite !N.eqb_refl in Hl.
  pose proof (Nat.mod_upper_bound (leading hash u) 3). lia.
Qed.

(** X21. A header of the report never shows the marker: whatever the line,
    the text of the header it is rendered to holds no three hashes in a row
    and neither starts nor ends with a blank. *)
Theorem header_has_no_marker (line t : Text) :
  renderFormattedLine line = Some (Header t) →
  (∀ pre post, t ≠ pre ++ str "###" ++ post)
  ∧ t = trim t.
Proof.
  unfold renderFormattedLine.
  destruct (startsWith (str "###") (trim line)); [|by repeat case_match].
  intros [= <-]. split.
  - intros pre post H.
    destruct (trim_split (removeMarkers line)) as (l & r & Hlr).
    rewrite H in Hlr. apply (removeMarkers_clean line (l ++ pre) (post ++ r)).
    rewrite Hlr. change (str "###") with [hash; hash; hash].
    by rewrite <- !app_assoc.
  - by rewrite trim_idemp.
Qed.

Lemma header_has_no_marker_witness :
  (∀ pre post, str "A  B" ≠ pre ++ str "###" ++ post)
  ∧ str "A  B" = trim (str "A  B").
Proof. apply (header_has_no_marker (str "### A ### B")). reflexivity. Defined.

Lemma bullet_content (line : Text) :
  startsWith (str "-") (trim line) = true →
  ∃ rest, trimStart line = dash :: rest
          ∧ trim (removeFirst dash line) = trim rest.
Proof.
  intros [r Hr]%startsWith_spec.
  destruct (trimEnd_split (trimStart line)) as [ws Hws].
  fold (trim line) in Hws. rewrite Hr in Hws. cbn [str app] in Hws.
  exists (r ++ ws). split; [done|].
  destruct (trimStart_split line) as (l & Hl & Hb). rewrite Hws in Hl.
  rewrite Hl at 1. rewrite removeFirst_blank by done.
  unfold trim. by rewrite trimStart_blank.
Qed.

Lemma trimStart_nil (s : Text) :
  trimStart s = [] ↔ Forall (λ c, blank c = true) s.
Proof.
  induction s as [|c s IH]; [done|]. cbn. destruct (blank c) eqn:Hc.
  - rewrite IH. split; [by constructor|by intros [_ ?]%Forall_cons].
  - split; [done|]. intros [? _]%Forall_cons. congruence.
Qed.

Lemma trim_nil (s : Text) : trim s = [] ↔ Forall (λ c, blank c = true) s.
Proof.
  rewrite <- trimStart_nil. unfold trim, trimEnd. split.
  - intros H. apply (f_equal reverse) in H.
    rewrite reverse_involutive in H. cbn in H.
    apply trimStart_nil, Forall_reverse in H. rewrite reverse_involutive in H.
    pose proof (trimStart_head s) as Hh.
    destruct (trimStart s) as [|c u]; [done|].
    apply Forall_cons in H as [H _]. congruence.
  - by intros ->.
Qed.

Lemma trimStart_snoc (s : Text) (x : N) :
  blank x = false → trimStart (s ++ [x]) = trimStart s ++ [x].
Proof.
  intros Hx. induction s as [|c s IH]; cbn; [by rewrite Hx|].
  by destruct (blank c).
Qed.

Lemma trimEnd_cons (x : N) (s : Text) :
  blank x = false → trimEnd (x :: s) = x :: trimEnd s.
Proof.
  intros Hx. unfold trimEnd.
  by rewrite reverse_cons, trimStart_snoc, reverse_app by done.
Qed.

(** X22. A line of the report whose first visible character is a dash is
    rendered as a bullet, whatever follows the dash (a number, say), and
    what the bullet shows is the text after that dash, trimmed; and every
    bullet of the report comes from such a line. *)
Theorem bullet_text_after_dash (line : Text) :
  (∀ rest, trimStart line = dash :: rest →
     renderFormattedLine line = Some (Bullet (renderBold (trim rest))))
  ∧ (∀ parts, renderFormattedLine line = Some (Bullet parts) →
       ∃ rest, trimStart line = dash :: rest ∧ parts = renderBold (trim rest)).
Proof.
  split.
  - intros rest Hl.
    assert (trim line = dash :: trimEnd rest) as Ht.
    { unfold trim. rewrite Hl. by apply trimEnd_cons. }
    unfold renderFormattedLine. rewrite Ht.
    assert (startsWith (str "###") (dash :: trimEnd rest) = false) as -> by done.
    assert (startsWith (str "-") (dash :: trimEnd rest) = true) as Hd by done.
    rewrite Hd. rewrite <- Ht in Hd.
    destruct (bullet_content line Hd) as (rest' & Hl' & ->).
    rewrite Hl in Hl'. by injection Hl' as <-.
  - intros parts. unfold renderFormattedLine.
    destruct (startsWith (str "###") (trim line)); [done|].
    destruct (startsWith (str "-") (trim line)) eqn:Hd; [|by repeat case_match].
    intros [= <-]. destruct (bullet_content line Hd) as (rest & Hl & ->).
    by exists rest.
Qed.

Lemma bullet_text_after_dash_witness :
  renderFormattedLine (str " -5 dB") = Some (Bullet (renderBold (trim (str "5 dB"))))
  ∧ ∃ rest, trimStart (str " - **High** 1X ") = dash :: rest
            ∧ [Plain []; Strong (str "High"); Plain (str " 1X")] = renderBold (trim rest).
Proof.
  split.
  - apply (proj1 (bullet_text_after_dash (str " -5 dB")) (str "5 dB")). reflexivity.
  - apply (proj2 (bullet_text_after_dash (str " - **High** 1X "))). reflexivity.
Defined.

(** X23. The report and the chat read a dash differently.  A line whose
    first visible character is a dash that no space follows (a negative
    number, say) is a bullet without the dash in the report, and a paragraph
    with the line as it is in the chat. *)
Theorem dash_without_space (line rest : Text) (c : N) :
  trimStart line = dash :: c :: rest →
  c ≠ 32%N →
  renderFormattedLine line = Some (Bullet (renderBold (trim (c :: rest))))
  ∧ renderMessageLine line = Paragraph (renderBold line).
Proof.
  intros Hl Hc.
  assert (trim line = dash :: trimEnd (c :: rest)) as Ht.
  { unfold trim. rewrite Hl. by apply trimEnd_cons. }
  split.
  - unfold renderFormattedLine. rewrite Ht.
    assert (startsWith (str "###") (dash :: trimEnd (c :: rest)) = false) as ->
      by done.
    assert (startsWith (str "-") (dash :: trimEnd (c :: rest)) = true) as Hd
      by done.
    rewrite Hd. rewrite <- Ht in Hd.
    destruct (bullet_content line Hd) as (rest' & Hl' & ->).
    rewrite Hl in Hl'. by injection Hl' as <-.
  - unfold renderMessageLine. cbn zeta. rewrite Ht.
    assert (startsWith (str "- ") (dash :: trimEnd (c :: rest)) = false) as ->.
    { apply not_true_is_false. intros [r Hr]%startsWith_spec.
      destruct (trimEnd_split (c :: rest)) as [ws Hws].
      injection Hr as Hr. rewrite Hr in Hws. by injection Hws as ->. }
    by cbn.
Qed.

Lemma dash_without_space_witness :
  renderFormattedLine (str " -5 dB") =
    Some (Bullet (renderBold (trim (str "5 dB"))))
  ∧ renderMessageLine (str " -5 dB") = Paragraph (renderBold (str " -5 dB")).
Proof. by apply (dash_without_space (str " -5 dB") (str " dB") 53%N). Defined.

End MarkupFacts.

Module AppFacts.
Import Markup MarkupFacts App.

Lemma call_pending_lookup (k : nat) (calls : list Call) :
  isPending k calls = true ↔ ∃ c, calls !! k = Some c ∧ status c = pending.
Proof.
  unfold isPending. destruct (calls !! k) as [[a []]|]; split; try done.
  - by eexists.
  - by intros (c & [= <-] & ?).
  - by intros (c & [= <-] & ?).
  - by intros (c & ? & ?).
Qed.

Lemma unsettled_settle (calls : list Call) (k : nat) (outcome : Status) :
  isPending k calls = true → outcome ≠ pending →
  S (length (unsettled (settle k outcome calls))) = length (unsettled calls).
Proof.
  unfold unsettled, settle, isPending. intros Hk Ho. revert k Hk.
  induction calls as [|c calls IH]; intros k Hk; [done|].
  destruct k as [|k]; cbn in Hk.
  - cbn -[filter]. rewrite filter_cons_False by done.
    by destruct c as [a []].
  - cbn -[filter]. rewrite !filter_cons.
    destruct (decide (status c = pending)); cbn -[filter];
      [f_equal|]; by apply IH.
Qed.

Lemma unsettled_none (calls : list Call) (k : nat) :
  unsettled calls = [] → isPending k calls = false.
Proof.
  intros Hn. apply not_true_is_false. intros (c & Hc & Hp)%call_pending_lookup.
  assert (c ∈ unsettled calls) as Hin
    by (apply list_elem_of_filter; eauto using list_elem_of_lookup_2).
  rewrite Hn in Hin. by apply elem_of_nil in Hin.
Qed.

Lemma app_run_snoc (s : State) (tr : list Event) (e : Event) :
  run s (tr ++ [e]) = step (run s tr) e.
Proof. unfold run. by rewrite fold_left_app. Qed.

Lemma app_run_app (s : State) (tr tr' : list Event) :
  run s (tr ++ tr') = run (run s tr) tr'.
Proof. unfold run. by rewrite fold_left_app. Qed.

(** ** The fast consultation *)

Lemma consult_flight_step (s : State) (e : Event) :
  length (unsettled (consultations s)) ≤ Nat.b2n (isFastLoading s) →
  length (unsettled (consultations (step s e)))
    ≤ Nat.b2n (isFastLoading (step s e)).
Proof.
  intros H. destruct e; cbn [step]; unfold inView; try (by repeat case_match).
  - unfold handleChatSend. repeat case_match; cbn in *; done.
  - unfold clickSend, handleChatSend. repeat case_match; cbn in *; done.
  - unfold handleChatSend_fulfilled. case_match; cbn in *; done.
  - unfold handleChatSend_rejected. case_match; cbn in *; done.
  - case_match; [|done]. unfold clickAsk.
    destruct (isFastLoading s) eqn:Hl; [by rewrite Hl|].
    unfold handleFastConsult. case_match; [by rewrite Hl|]. cbn in *.
    unfold unsettled in *. rewrite filter_app, length_app.
    rewrite filter_cons_True by done. cbn in *. lia.
  - unfold handleFastConsult_fulfilled.
    destruct (isPending k (consultations s)) eqn:Hk; [|done].
    apply (unsettled_settle _ _ fulfilled) in Hk; [|done]. cbn.
    unfold unsettled in *. destruct (isFastLoading s); cbn in H; lia.
  - unfold handleFastConsult_rejected.
    destruct (isPending k (consultations s)) eqn:Hk; [|done].
    apply (unsettled_settle _ _ rejected) in Hk; [|done]. cbn.
    unfold unsettled in *. destruct (isFastLoading s); cbn in H; lia.
Qed.

Lemma consult_flight (tr : list Event) :
  length (unsettled (consultations (run mounted tr)))
    ≤ Nat.b2n (isFastLoading (run mounted tr)).
Proof.
  induction tr as [|e tr IH] using rev_ind; [done|].
  rewrite app_run_snoc. by apply consult_flight_step.
Qed.

Lemma consult_stuck_step (s : State) (e : Event) :
  isFastLoading s = true → unsettled (consultations s) = [] →
  isFastLoading (step s e) = true
  ∧ consultations (step s e) = consultations s
  ∧ fastResponse (step s e) = fastResponse s.
Proof.
  intros Hl Hu. pose proof (λ k, unsettled_none _ k Hu) as Hn.
  destruct e; cbn [step]; unfold inView; try (by repeat case_match).
  - unfold handleChatSend. repeat case_match; cbn in *; done.
  - unfold clickSend, handleChatSend. repeat case_match; cbn in *; done.
  - unfold handleChatSend_fulfilled. case_match; cbn in *; done.
  - unfold handleChatSend_rejected. case_match; cbn in *; done.
  - case_match; [|done]. unfold clickAsk. by rewrite Hl.
  - unfold handleFastConsult_fulfilled. by rewrite Hn.
  - unfold handleFastConsult_rejected. by rewrite Hn.
Qed.

Lemma consult_stuck_run (s : State) (tr : list Event) :
  isFastLoading s = true → unsettled (consultations s) = [] →
  isFastLoading (run s tr) = true
  ∧ consultations (run s tr) = consultations s
  ∧ fastResponse (run s tr) = fastResponse s.
Proof.
  intros Hl Hu. induction tr as [|e tr (IH1 & IH2 & IH3)] using rev_ind; [done|].
  rewrite app_run_snoc.
  destruct (consult_stuck_step (run s tr) e) as (H1 & H2 & H3);
    [done|by rewrite IH2|].
  by rewrite H1, H2, H3.
Qed.

(** X24. A fast consultation that fails locks the widget for good.  Once the
    call of a question is rejected, the Ask button stays disabled whatever
    happens next: no further question is sent and the answer on display
    never changes. *)
Theorem failed_consult_locks_widget (tr tr' : list Event) (k : nat) :
  isPending k (consultations (run mounted tr)) = true →
  isFastLoading (run mounted (tr ++ ConsultFailed k :: tr')) = true
  ∧ length (consultations (run mounted (tr ++ ConsultFailed k :: tr')))
    = length (consultations (run mounted tr))
  ∧ fastResponse (run mounted (tr ++ ConsultFailed k :: tr'))
    = fastResponse (run mounted tr).
Proof.
  intros Hk. rewrite app_run_app. change (ConsultFailed k :: tr') with ([ConsultFailed k] ++ tr').
  rewrite app_run_app. set (s := run mounted tr) in *.
  pose proof (consult_flight tr) as Hf. fold s in Hf.
  pose proof (unsettled_settle _ _ rejected Hk ltac:(done)) as Hs.
  assert (isFastLoading s = true) as Hl
    by (destruct (isFastLoading s); [done|cbn in Hf; lia]).
  rewrite Hl in Hf. cbn in Hf.
  assert (run s [ConsultFailed k]
          = setConsultations (settle k rejected (consultations s)) s) as ->.
  { cbn. unfold handleFastConsult_rejected. by rewrite Hk. }
  destruct (consult_stuck_run
    (setConsultations (settle k rejected (consultations s)) s) tr')
    as (H1 & H2 & H3); [done| |].
  { change (unsettled (settle k rejected (consultations s)) = []).
    apply length_zero_iff_nil. lia. }
  rewrite H1, H2, H3. split; [done|]. split; [|done].
  cbn. unfold settle. by rewrite length_alter.
Qed.

Lemma failed_consult_locks_widget_witness :
  isFastLoading (run mounted ([TypeFast (str "alarm limit?"); ClickAsk]
     ++ ConsultFailed 0 :: [TypeFast (str "again"); ClickAsk])) = true
  ∧ length (consultations (run mounted ([TypeFast (str "alarm limit?"); ClickAsk]
     ++ ConsultFailed 0 :: [TypeFast (str "again"); ClickAsk])))
    = length (consultations (run mounted [TypeFast (str "alarm limit?"); ClickAsk]))
  ∧ fastResponse (run mounted ([TypeFast (str "alarm limit?"); ClickAsk]
     ++ ConsultFailed 0 :: [TypeFast (str "again"); ClickAsk]))
    = fastResponse (run mounted [TypeFast (str "alarm limit?"); ClickAsk]).
Proof.
  apply (failed_consult_locks_widget [TypeFast (str "alarm limit?"); ClickAsk]
           [TypeFast (str "again"); ClickAsk] 0).
  reflexivity.
Defined.

(** ** The chat *)

(** X25. With the chat on display, pressing Enter sends a message exactly
    when the input holds a character that is not blank; an input of blanks
    only leaves everything as it is. *)
Theorem blank_input_sends_nothing (s : State) (now date : Z) :
  currentView s = CHAT_ASSISTANT →
  is_Some (chatInstance s) →
  step s (PressEnter now date) = s ↔ Forall (λ c, blank c = true) (chatInput s).
Proof.
  intros Hv [i Hi]. cbn [step]. unfold inView, handleChatSend.
  rewrite Hv, bool_decide_true by done. rewrite Hi.
  rewrite (bool_decide_false (Some i = None)), orb_false_r by done.
  rewrite <- trim_nil. case_bool_decide as Ht; [done|].
  split; [|done]. intros H. apply (f_equal (λ s, length (chatMessages s))) in H.
  cbn in H. rewrite length_app in H. cbn in H. lia.
Qed.

Lemma blank_input_sends_nothing_witness :
  step (run mounted [NavItem CHAT_ASSISTANT; TypeChat (str "   ")])
       (PressEnter 1000 1000)
  = run mounted [NavItem CHAT_ASSISTANT; TypeChat (str "   ")]
  ↔ Forall (λ c, blank c = true)
      (chatInput (run mounted [NavItem CHAT_ASSISTANT; TypeChat (str "   ")])).
Proof.
  apply (blank_input_sends_nothing
           (run mounted [NavItem CHAT_ASSISTANT; TypeChat (str "   ")]));
    [reflexivity|by eexists].
Defined.

Lemma chat_step (s : State) (e : Event) :
  length (from user (chatMessages s)) = length (sends s) →
  length (from model (chatMessages s)) + length (unsettled (sends s))
    ≤ length (sends s) →
  (∃ new, chatMessages (step s e) = chatMessages s ++ new
          ∧ length (from model (chatMessages s ++ new))
            ≤ length (from user (chatMessages s)))
  ∧ length (from user (chatMessages (step s e))) = length (sends (step s e))
  ∧ length (from model (chatMessages (step s e)))
      + length (unsettled (sends (step s e)))
    ≤ length (sends (step s e)).
Proof.
  intros Hu Hm.
  assert (∀ s', chatMessages s' = chatMessages s → sends s' = sends s →
    (∃ new, chatMessages s' = chatMessages s ++ new
            ∧ length (from model (chatMessages s ++ new))
              ≤ length (from user (chatMessages s)))
    ∧ length (from user (chatMessages s')) = length (sends s')
    ∧ length (from model (chatMessages s')) + length (unsettled (sends s'))
      ≤ length (sends s')) as Hsame.
  { intros s' -> ->. split; [|done]. exists []. rewrite app_nil_r. split; [done|lia]. }
  assert (∀ now date, let s' := handleChatSend now date s in
    (∃ new, chatMessages s' = chatMessages s ++ new
            ∧ length (from model (chatMessages s ++ new))
              ≤ length (from user (chatMessages s)))
    ∧ length (from user (chatMessages s')) = length (sends s')
    ∧ length (from model (chatMessages s')) + length (unsettled (sends s'))
      ≤ length (sends s')) as Hsend.
  { intros now date. cbn zeta. unfold handleChatSend.
    case_match; [by apply Hsame|]. cbn. unfold from, unsettled in *.
    rewrite !filter_app, !length_app.
    rewrite (filter_cons_True (λ m, role m = user)) by done.
    rewrite (filter_cons_False (λ m, role m = model)) by done.
    rewrite (filter_cons_True (λ c, status c = pending)) by done.
    cbn. split; [|lia]. eexists. split; [done|].
    rewrite filter_app, length_app.
    rewrite (filter_cons_False (λ m, role m = model)) by done. cbn. lia. }
  destruct e; cbn [step]; unfold inView; try (by case_match; apply Hsame).
  - by apply Hsame.
  - by apply Hsame.
  - case_match; [apply Hsend|by apply Hsame].
  - case_match; [|by apply Hsame]. unfold clickSend.
    case_match; [by apply Hsame|apply Hsend].
  - unfold handleChatSend_fulfilled.
    destruct (isPending k (sends s)) eqn:Hk; [|by apply Hsame].
    apply (unsettled_settle _ _ fulfilled) in Hk; [|done]. cbn.
    unfold from, unsettled, settle in *.
    rewrite !filter_app, !length_app, length_alter.
    rewrite (filter_cons_False (λ m, role m = user)) by done.
    rewrite (filter_cons_True (λ m, role m = model)) by done.
    cbn. split; [|lia]. eexists. split; [done|].
    rewrite filter_app, length_app.
    rewrite (filter_cons_True (λ m, role m = model)) by done. cbn. lia.
  - unfold handleChatSend_rejected.
    destruct (isPending k (sends s)) eqn:Hk; [|by apply Hsame].
    apply (unsettled_settle _ _ rejected) in Hk; [|done]. cbn.
    unfold from, unsettled, settle in *. rewrite length_alter.
    split; [|lia]. exists []. rewrite app_nil_r. split; [done|lia].
  - unfold clickAsk, handleFastConsult. repeat case_match; by apply Hsame.
  - unfold handleFastConsult_fulfilled. case_match; by apply Hsame.
  - unfold handleFastConsult_rejected. case_match; by apply Hsame.
Qed.

Lemma chat_run (tr : list Event) :
  (∀ n, length (from model (take n (chatMessages (run mounted tr))))
        ≤ length (from user (take n (chatMessages (run mounted tr)))))
  ∧ length (from user (chatMessages (run mounted tr)))
    = length (sends (run mounted tr))
  ∧ length (from model (chatMessages (run mounted tr)))
      + length (unsettled (sends (run mounted tr)))
    ≤ length (sends (run mounted tr)).
Proof.
  induction tr as [|e tr (IH1 & IH2 & IH3)] using rev_ind.
  { split; [|done]. intros n. by destruct n. }
  rewrite app_run_snoc.
  destruct (chat_step (run mounted tr) e IH2 IH3) as ((new & Hn & Hle) & H2 & H3).
  split; [|done]. intros n. rewrite Hn.
  destruct (decide (n ≤ length (chatMessages (run mounted tr)))) as [Hlt|Hge].
  - rewrite take_app_le by done. apply IH1.
  - rewrite take_app_ge by lia. unfold from in *.
    rewrite !filter_app, !length_app.
    specialize (IH1 (length (chatMessages (run mounted tr)))).
    rewrite firstn_all in IH1.
    set (m := n - length (chatMessages (run mounted tr))).
    enough (length (filter (λ m, role m = model) (chatMessages (run mounted tr)))
            + length (filter (λ m, role m = model) (take m new))
            ≤ length (filter (λ m, role m = user) (chatMessages (run mounted tr))))
      by lia.
    etrans; [|apply Hle]. rewrite filter_app, length_app.
    apply Nat.add_le_mono_l.
    rewrite <- (take_drop m new) at 2. rewrite filter_app, length_app. lia.
Qed.

(** X26. Replies follow messages.  At every point of the chat history, in
    every run, the replies of the model up to that point are no more than
    the messages of the user up to it: a reply is only ever added after the
    message that asked for it, and nothing is ever removed or reordered. *)
Theorem replies_follow_messages (tr : list Event) (n : nat) :
  length (from model (take n (chatMessages (run mounted tr))))
    ≤ length (from user (take n (chatMessages (run mounted tr)))).
Proof. apply chat_run. Qed.

(** X27. The history only grows: whatever happens, the messages that were in
    the chat stay where they are, and what is new comes after them. *)
Theorem chat_history_append_only (tr tr' : list Event) :
  chatMessages (run mounted tr) `prefix_of` chatMessages (run mounted (tr ++ tr')).
Proof.
  induction tr' as [|e tr' IH] using rev_ind; [by rewrite app_nil_r|].
  rewrite app_assoc, app_run_snoc. etrans; [apply IH|].
  destruct (chat_run (tr ++ tr')) as (_ & H2 & H3).
  destruct (chat_step _ e H2 H3) as ((new & -> & _) & _). by exists new.
Qed.

Lemma typing_step (s : State) (e : Event) :
  (isTyping s = true → unsettled (sends s) ≠ []) →
  isTyping (step s e) = true → unsettled (sends (step s e)) ≠ [].
Proof.
  intros H.
  assert (∀ now date, isTyping (handleChatSend now date s) = true →
                      unsettled (sends (handleChatSend now date s)) ≠ []) as Hsend.
  { intros now date. unfold handleChatSend. case_match; [done|]. cbn. intros _.
    unfold unsettled. rewrite filter_app, filter_cons_True by done.
    intros [_ ?]%app_eq_nil. done. }
  destruct e; cbn [step]; unfold inView; try (by repeat case_match).
  - case_match; [apply Hsend|done].
  - case_match; [|done]. unfold clickSend. case_match; [done|apply Hsend].
  - unfold handleChatSend_fulfilled. by case_match.
  - unfold handleChatSend_rejected. by case_match.
  - unfold clickAsk, handleFastConsult. by repeat case_match.
  - unfold handleFastConsult_fulfilled. by case_match.
  - unfold handleFastConsult_rejected. by case_match.
Qed.

(** X28. The typing indicator is never shown without a reason: in every run,
    while it is on, some message is still waiting for its reply. *)
Theorem typing_indicator_needs_pending (tr : list Event) :
  isTyping (run mounted tr) = true →
  ∃ k, isPending k (sends (run mounted tr)) = true.
Proof.
  intros Ht.
  assert (unsettled (sends (run mounted tr)) ≠ []) as Hu.
  { revert Ht. induction tr as [|e tr IH] using rev_ind; [done|].
    rewrite app_run_snoc. by apply typing_step. }
  destruct (unsettled (sends (run mounted tr))) as [|c l] eqn:Hc; [done|].
  assert (c ∈ unsettled (sends (run mounted tr))) as Hin
    by (rewrite Hc; apply list_elem_of_here).
  apply list_elem_of_filter in Hin as [Hp [k Hk]%list_elem_of_lookup_1].
  exists k. apply call_pending_lookup. eauto.
Qed.

Lemma typing_indicator_needs_pending_witness :
  ∃ k, isPending k (sends (run mounted
         [NavItem CHAT_ASSISTANT; TypeChat (str "hello"); PressEnter 1000 1000]))
       = true.
Proof.
  apply (typing_indicator_needs_pending
           [NavItem CHAT_ASSISTANT; TypeChat (str "hello"); PressEnter 1000 1000]).
  reflexivity.
Defined.

(** X29. The converse fails.  The Enter key sends while a reply is awaited,
    and the first reply to arrive switches the indicator off: with two
    messages waiting, a reply to one of them hides the indicator although
    the other is still waiting. *)
Theorem reply_hides_typing_indicator (s : State) (j k : nat)
    (resultText : Text) (now date : Z) :
  isPending j (sends s) = true →
  isPending k (sends s) = true →
  j ≠ k →
  let s' := step s (Replied j resultText now date) in
  isTyping s' = false ∧ isPending k (sends s') = true.
Proof.
  intros Hj Hk Hjk. cbn zeta. cbn [step]. unfold handleChatSend_fulfilled.
  rewrite Hj. cbn. split; [done|]. unfold isPending, settle in *.
  by rewrite list_lookup_alter_ne.
Qed.

Lemma reply_hides_typing_indicator_witness :
  let s' := step (run mounted sentTwice) (Replied 0 (str "answer") 3000 3000) in
  isTyping s' = false ∧ isPending 1 (sends s') = true.
Proof.
  apply (reply_hides_typing_indicator (run mounted sentTwice) 0 1);
    [reflexivity|reflexivity|lia].
Defined.

End AppFacts.
